(** * ascii-map: a shallow embedding of the MVT decoder, the view model,
    the character framebuffer, the renderer and the tile cache.

    Python values are modelled as the code has them: [int] as [Z] (unbounded),
    [bytes] as [list byte], [str] as the list of its code points, [float] as
    an IEEE-754 binary64 value ([spec_float] of the Standard Library, with
    the operations [SFadd], [SFmul], ... at precision 53), [dict] as a
    [gmap], an [OrderedDict] as an association list (oldest entry first),
    and a raised exception as the [Raise] branch of [result]. *)

From Stdlib Require Import ZArith List Bool Lia Strings.Byte Strings.Ascii Strings.String.
From Stdlib Require Import Floats.SpecFloat.
From Stdlib Require DecimalString.
From stdpp Require Import base option list sorting gmap.

Local Open Scope Z_scope.

(** ** Python runtime: exceptions, ints, bytes, str, float *)

Module Py.

Inductive exn : Set :=
| ValueError | StructError | AttributeError | TypeError
| OverflowError | ZeroDivisionError.

Inductive result (A : Type) : Type :=
| Ok (a : A)
| Raise (e : exn).
Arguments Ok {A} a.
Arguments Raise {A} e.

Definition bind {A B} (m : result A) (k : A -> result B) : result B :=
  match m with
  | Ok a => k a
  | Raise e => Raise e
  end.

Definition is_ok {A} (m : result A) : bool :=
  match m with Ok _ => true | Raise _ => false end.

#[export] Instance result_ret : MRet result := fun A a => Ok a.
#[export] Instance result_bind : MBind result := fun A B k m => bind m k.

(** [str]: the sequence of code points of a Python string. *)
Definition str := list N.

Definition byte_val (b : byte) : Z := Z.of_N (Byte.to_N b).

(** [b[lo:lo+n]] for [0 <= lo]: Python slices clip at the end of the
    buffer and never raise. *)
Definition slice {A} (buf : list A) (lo n : Z) : list A :=
  let len := Z.of_nat (length buf) in
  if len <=? lo then []
  else take (Z.to_nat (Z.min n (len - lo))) (drop (Z.to_nat lo) buf).

Definition float := spec_float.

Definition prec : Z := 53.
Definition emax : Z := 1024.

Definition fadd : float -> float -> float := SFadd prec emax.
Definition fsub : float -> float -> float := SFsub prec emax.
Definition fmul : float -> float -> float := SFmul prec emax.
Definition fdiv_ieee : float -> float -> float := SFdiv prec emax.
Definition fneg : float -> float := SFopp.
Definition flt : float -> float -> bool := SFltb.
Definition fle : float -> float -> bool := SFleb.
Definition feq : float -> float -> bool := SFeqb.

Definition is_zero (x : float) : bool :=
  match x with S754_zero _ => true | _ => false end.

Definition is_finite (x : float) : bool :=
  match x with S754_zero _ | S754_finite _ _ _ => true | _ => false end.

(** The binary64 value nearest to [m * 2^e] (ties to even); an infinity
    when it is out of range. *)
Definition round_m2e (m e : Z) : float := binary_normalize prec emax m e false.

(** The value of an arithmetic expression that is an int or a float
    according to its operands. *)
Inductive number : Type :=
| NInt (n : Z)
| NFloat (x : float).

(** [float(n)] for an int [n]: correctly rounded, [OverflowError] when the
    int is too large for a double. *)
Definition float_of_int (n : Z) : result float :=
  let f := round_m2e n 0 in
  if is_finite f then Ok f else Raise OverflowError.

(** [a / b] for floats: Python raises on a zero divisor, otherwise the IEEE
    quotient. *)
Definition fdiv (a b : float) : result float :=
  if is_zero b then Raise ZeroDivisionError else Ok (fdiv_ieee a b).

(** [a / b] for two ints: the correctly rounded quotient of the integers. *)
Definition int_truediv (a b : Z) : result float :=
  if b =? 0 then Raise ZeroDivisionError
  else
    let neg := xorb (a <? 0) (b <? 0) in
    match a, b with
    | Z0, _ => Ok (S754_zero neg)
    | _, _ =>
        let q := fdiv_ieee (S754_finite (a <? 0) (Z.to_pos (Z.abs a)) 0)
                           (S754_finite (b <? 0) (Z.to_pos (Z.abs b)) 0) in
        if is_finite q then Ok q else Raise OverflowError
    end.

(** [int(x)] for a float: truncation toward zero; [int(nan)] raises
    [ValueError], [int(inf)] raises [OverflowError]. *)
Definition int_of_float (x : float) : result Z :=
  match x with
  | S754_zero _ => Ok 0
  | S754_nan => Raise ValueError
  | S754_infinity _ => Raise OverflowError
  | S754_finite s m e =>
      let a := if 0 <=? e then Z.shiftl (Zpos m) e
               else Z.shiftr (Zpos m) (- e) in
      Ok (if s then - a else a)
  end.

(** [math.floor(x)] and [math.ceil(x)]. *)
Definition floor (x : float) : result Z :=
  match x with
  | S754_zero _ => Ok 0
  | S754_nan => Raise ValueError
  | S754_infinity _ => Raise OverflowError
  | S754_finite s m e =>
      if 0 <=? e then Ok (let a := Z.shiftl (Zpos m) e in if s then - a else a)
      else Ok (Z.shiftr (if s then Zneg m else Zpos m) (- e))
  end.

Definition ceil (x : float) : result Z :=
  n ← floor (fneg x); Ok (- n).

(** The float written as the decimal literal [m]e[-d] in the source (for
    [m] below 2^53 and small [d]: both operands are exact, so the quotient
    is the correctly rounded literal). *)
Definition literal (m : Z) (d : nat) : float :=
  fdiv_ieee (round_m2e m 0) (round_m2e (10 ^ Z.of_nat d) 0).

(** Python's two-argument [min] and [max]: the first argument is kept
    unless the second compares strictly below (above) it. *)
Definition fmin (a b : float) : float := if flt b a then b else a.
Definition fmax (a b : float) : float := if flt a b then b else a.

(** [x % n] for a float [x] and a positive int [n] (float [%] of CPython:
    C [fmod], then the sign of the divisor). *)
Definition fmod (x : float) (n : Z) : result float :=
  y ← float_of_int n;
  match x, y with
  | _, S754_zero _ => Raise ZeroDivisionError
  | S754_nan, _ | _, S754_nan => Ok S754_nan
  | S754_infinity _, _ => Ok S754_nan
  | S754_zero _, _ =>
      Ok (S754_zero (match y with S754_finite s _ _ | S754_infinity s => s | _ => false end))
  | S754_finite sx mx ex, S754_infinity sy =>
      Ok (if Bool.eqb sx sy then x else y)
  | S754_finite sx mx ex, S754_finite sy my ey =>
      let e := Z.min ex ey in
      let X := Z.shiftl (Zpos mx) (ex - e) in
      let Y := Z.shiftl (Zpos my) (ey - e) in
      let r := Z.rem X Y in
      if r =? 0 then Ok (S754_zero sy)
      else
        let m := round_m2e (if sx then - r else r) e in
        if Bool.eqb sx sy then Ok m else Ok (fadd m y)
  end.

End Py.
Export Py.


(** ** maps/mvt_decoder.py *)

Module mvt_decoder.

Definition bytes := list byte.

(** The values the decoder handles: what [_parse_message] yields (int,
    bytes, float) and what [_decode_value] returns. *)
Inductive pyval : Type :=
| PyNone
| PyBool (b : bool)
| PyInt (n : Z)
| PyFloat (x : float)
| PyStr (s : str)
| PyBytes (b : bytes).

Definition len {A} (l : list A) : Z := Z.of_nat (length l).

(** [l[i]] for an index the code has checked to be in range. *)
Definition item {A} (d : A) (l : list A) (i : Z) : A := nth (Z.to_nat i) l d.

(** *** [bytes.decode("utf-8", errors="replace")] *)

Definition REPLACEMENT : N := 0xFFFD.

Definition is_cont (c : Z) : bool := (0x80 <=? c) && (c <=? 0xBF).

Definition second_ok3 (c0 c1 : Z) : bool :=
  is_cont c1 && negb (if c1 <? 0xA0 then c0 =? 0xE0 else c0 =? 0xED).

Definition second_ok4 (c0 c1 : Z) : bool :=
  is_cont c1 && negb (if c1 <? 0x90 then c0 =? 0xF0 else c0 =? 0xF4).

Definition cont_bits (c : Z) : Z := Z.land c 0x3F.

Fixpoint utf8_decode (bs : bytes) : str :=
  match bs with
  | [] => []
  | b0 :: t0 =>
      let c0 := byte_val b0 in
      if c0 <? 0x80 then Z.to_N c0 :: utf8_decode t0
      else if (c0 <? 0xC2) || (0xF4 <? c0) then REPLACEMENT :: utf8_decode t0
      else if c0 <? 0xE0 then
        match t0 with
        | [] => [REPLACEMENT]
        | b1 :: t1 =>
            let c1 := byte_val b1 in
            if is_cont c1
            then Z.to_N (Z.shiftl (Z.land c0 0x1F) 6 + cont_bits c1) :: utf8_decode t1
            else REPLACEMENT :: utf8_decode t0
        end
      else if c0 <? 0xF0 then
        match t0 with
        | [] => [REPLACEMENT]
        | b1 :: t1 =>
            let c1 := byte_val b1 in
            if second_ok3 c0 c1 then
              match t1 with
              | [] => [REPLACEMENT]
              | b2 :: t2 =>
                  let c2 := byte_val b2 in
                  if is_cont c2
                  then Z.to_N (Z.shiftl (Z.land c0 0x0F) 12
                               + Z.shiftl (cont_bits c1) 6 + cont_bits c2)
                       :: utf8_decode t2
                  else REPLACEMENT :: utf8_decode t1
              end
            else REPLACEMENT :: utf8_decode t0
        end
      else
        match t0 with
        | [] => [REPLACEMENT]
        | b1 :: t1 =>
            let c1 := byte_val b1 in
            if second_ok4 c0 c1 then
              match t1 with
              | [] => [REPLACEMENT]
              | b2 :: t2 =>
                  let c2 := byte_val b2 in
                  if is_cont c2 then
                    match t2 with
                    | [] => [REPLACEMENT]
                    | b3 :: t3 =>
                        let c3 := byte_val b3 in
                        if is_cont c3
                        then Z.to_N (Z.shiftl (Z.land c0 0x07) 18
                                     + Z.shiftl (cont_bits c1) 12
                                     + Z.shiftl (cont_bits c2) 6 + cont_bits c3)
                             :: utf8_decode t3
                        else REPLACEMENT :: utf8_decode t2
                    end
                  else REPLACEMENT :: utf8_decode t1
              end
            else REPLACEMENT :: utf8_decode t0
        end
  end.

(** *** [struct.unpack_from("<f" / "<d", buf, pos)[0]] *)

Definition le_uint (bs : bytes) : Z :=
  fold_right (fun b acc => byte_val b + 256 * acc) 0 bs.

Definition float_of_bits (ebits mbits bits : Z) : float :=
  let mant := Z.land bits (2 ^ mbits - 1) in
  let e := Z.land (Z.shiftr bits mbits) (2 ^ ebits - 1) in
  let s := Z.testbit bits (ebits + mbits) in
  let bias := 2 ^ (ebits - 1) - 1 in
  let finite m ex := binary_normalize prec emax (if s then - m else m) ex s in
  if e =? 2 ^ ebits - 1 then (if mant =? 0 then S754_infinity s else S754_nan)
  else if e =? 0 then finite mant (1 - bias - mbits)
  else finite (2 ^ mbits + mant) (e - bias - mbits).

Definition unpack_from (size ebits mbits : Z) (buf : bytes) (pos : Z) : result float :=
  if len buf - pos <? size then Raise StructError
  else Ok (float_of_bits ebits mbits (le_uint (slice buf pos size))).

(** *** Protobuf wire-format helpers *)

Fixpoint _read_varint_loop (rest : bytes) (pos result shift : Z) : Py.result (Z * Z) :=
  match rest with
  | [] => Raise ValueError
  | b :: rest =>
      let b := byte_val b in
      let pos := pos + 1 in
      let result := Z.lor result (Z.shiftl (Z.land b 0x7F) shift) in
      if Z.land b 0x80 =? 0 then Ok (result, pos)
      else _read_varint_loop rest pos result (shift + 7)
  end.

Definition _read_varint (buf : bytes) (pos : Z) : Py.result (Z * Z) :=
  if len buf <=? pos then Raise ValueError
  else _read_varint_loop (drop (Z.to_nat pos) buf) pos 0 0.

Definition zigzag (v : Z) : Z := Z.lxor (Z.shiftr v 1) (- (Z.land v 1)).

Definition _read_sint (buf : bytes) (pos : Z) : Py.result (Z * Z) :=
  '(v, pos) ← _read_varint buf pos;
  Ok (zigzag v, pos).

(** One turn of the [while pos < end] loop of the generator
    [_parse_message]: [None] when the generator is exhausted (end of the
    buffer, or the [break] on an unknown wire type), otherwise the tuple it
    yields and the position from which it resumes. *)
Definition _parse_message_next (buf : bytes) (pos end_ : Z)
  : Py.result (option (Z * Z * pyval * Z)) :=
  if pos <? end_ then
    '(tag, pos) ← _read_varint buf pos;
    let field := Z.shiftr tag 3 in
    let wtype := Z.land tag 0x07 in
    if wtype =? 0 then
      '(val, pos) ← _read_varint buf pos;
      Ok (Some (field, wtype, PyInt val, pos))
    else if wtype =? 2 then
      '(length, pos) ← _read_varint buf pos;
      Ok (Some (field, wtype, PyBytes (slice buf pos length), pos + length))
    else if wtype =? 5 then
      x ← unpack_from 4 8 23 buf pos;
      Ok (Some (field, wtype, PyFloat x, pos + 4))
    else if wtype =? 1 then
      x ← unpack_from 8 11 52 buf pos;
      Ok (Some (field, wtype, PyFloat x, pos + 8))
    else Ok None
  else Ok None.

(** [for field, wtype, val, _ in _parse_message(buf): s = body(s, ...)].
    The generator is consumed lazily: the body runs on each tuple before
    the next one is parsed.  Every tuple consumes at least one byte, so
    [S (length buf)] turns suffice ([for_fields_from_fuel]). *)
Fixpoint for_fields_from {S} (fuel : nat) (buf : bytes) (pos : Z)
    (body : S -> Z -> Z -> pyval -> Py.result S) (s : S) : Py.result S :=
  match fuel with
  | O => Ok s
  | Datatypes.S fuel =>
      nxt ← _parse_message_next buf pos (len buf);
      match nxt with
      | None => Ok s
      | Some (field, wtype, val, pos) =>
          s ← body s field wtype val;
          for_fields_from fuel buf pos body s
      end
  end.

Definition for_fields {S} (buf : bytes)
    (body : S -> Z -> Z -> pyval -> Py.result S) (s : S) : Py.result S :=
  for_fields_from (Datatypes.S (length buf)) buf 0 body s.

Fixpoint _decode_packed_uint32_loop (fuel : nat) (buf : bytes) (pos : Z)
    (values : list Z) : Py.result (list Z) :=
  match fuel with
  | O => Ok values
  | Datatypes.S fuel =>
      if pos <? len buf then
        '(v, pos) ← _read_varint buf pos;
        _decode_packed_uint32_loop fuel buf pos (values ++ [v])
      else Ok values
  end.

Definition _decode_packed_uint32 (buf : bytes) : Py.result (list Z) :=
  _decode_packed_uint32_loop (Datatypes.S (length buf)) buf 0 [].


(** *** MVT geometry decoding *)

Definition _CMD_MOVE_TO : Z := 1.
Definition _CMD_LINE_TO : Z := 2.
Definition _CMD_CLOSE_PATH : Z := 7.

Definition _GEOM_POINT : Z := 1.
Definition _GEOM_LINESTRING : Z := 2.
Definition _GEOM_POLYGON : Z := 3.

Definition point : Type := Z * Z.
Definition ring : Type := list point.

Inductive geometry : Type :=
| Point (coordinates : point)
| MultiPoint (coordinates : list point)
| LineString (coordinates : list point)
| MultiLineString (coordinates : list (list point))
| Polygon (coordinates : list ring)
| MultiPolygon (coordinates : list (list ring))
| Unknown.

(** [for _ in range(n)] with a body that may [break]. *)
Inductive step (S : Type) : Type :=
| Continue (s : S)
| Break (s : S).
Arguments Continue {S} s.
Arguments Break {S} s.

Fixpoint for_range {S} (n : nat) (body : S -> step S) (s : S) : S :=
  match n with
  | O => s
  | Datatypes.S n =>
      match body s with
      | Continue s => for_range n body s
      | Break s => s
      end
  end.

Record geom_state : Type := mk_geom_state {
  g_idx : Z;
  g_cx : Z;
  g_cy : Z;
  g_rings : list ring;
  g_current_ring : ring
}.

Definition is_empty {A} (l : list A) : bool :=
  match l with [] => true | _ => false end.

Definition move_to_body (commands : list Z) (st : geom_state) : step geom_state :=
  let idx := g_idx st in
  if len commands <=? idx + 1 then Break st
  else
    let dx := zigzag (item 0 commands idx) in
    let dy := zigzag (item 0 commands (idx + 1)) in
    let cx := g_cx st + dx in
    let cy := g_cy st + dy in
    let rings := if is_empty (g_current_ring st) then g_rings st
                 else g_rings st ++ [g_current_ring st] in
    Continue (mk_geom_state (idx + 2) cx cy rings [(cx, cy)]).

Definition line_to_body (commands : list Z) (st : geom_state) : step geom_state :=
  let idx := g_idx st in
  if len commands <=? idx + 1 then Break st
  else
    let dx := zigzag (item 0 commands idx) in
    let dy := zigzag (item 0 commands (idx + 1)) in
    let cx := g_cx st + dx in
    let cy := g_cy st + dy in
    Continue (mk_geom_state (idx + 2) cx cy (g_rings st)
                            (g_current_ring st ++ [(cx, cy)])).

Definition close_path (st : geom_state) : geom_state :=
  let current_ring :=
    match g_current_ring st with
    | first :: _ :: _ => g_current_ring st ++ [first]
    | _ => g_current_ring st
    end in
  if is_empty current_ring then st
  else mk_geom_state (g_idx st) (g_cx st) (g_cy st)
                     (g_rings st ++ [current_ring]) [].

(** The [while idx < len(commands)] loop: every turn reads one command
    int, so [length commands] turns suffice. *)
Fixpoint _decode_geometry_loop (fuel : nat) (commands : list Z)
    (st : geom_state) : geom_state :=
  match fuel with
  | O => st
  | Datatypes.S fuel =>
      if g_idx st <? len commands then
        let cmd_int := item 0 commands (g_idx st) in
        let st := mk_geom_state (g_idx st + 1) (g_cx st) (g_cy st)
                                (g_rings st) (g_current_ring st) in
        let cmd_id := Z.land cmd_int 0x07 in
        let cmd_count := Z.shiftr cmd_int 3 in
        let st :=
          if cmd_id =? _CMD_MOVE_TO
          then for_range (Z.to_nat cmd_count) (move_to_body commands) st
          else if cmd_id =? _CMD_LINE_TO
          then for_range (Z.to_nat cmd_count) (line_to_body commands) st
          else if cmd_id =? _CMD_CLOSE_PATH then close_path st
          else st in
        _decode_geometry_loop fuel commands st
      else st
  end.

Definition fzero : float := S754_zero false.
Definition ftwo : float := round_m2e 2 0.

(** The shoelace sum of [_signed_area], before the division by 2.0: an
    exact int. *)
Definition shoelace (ring : ring) : Z :=
  let n := len ring in
  fold_left (fun area i =>
               let i := Z.of_nat i in
               let j := (i + 1) mod n in
               let pi := item (0, 0) ring i in
               let pj := item (0, 0) ring j in
               area + pi.1 * pj.2 - pj.1 * pi.2)
            (seq 0 (length ring)) 0.

(** [area / 2.0] converts the int to a float and raises [OverflowError]
    when it does not fit. *)
Definition _signed_area (ring : ring) : Py.result float :=
  area ← float_of_int (shoelace ring);
  fdiv area ftwo.

(** The polygon branch of [_decode_geometry]: the loop over the rings with
    its two variables [polygons] and [current_polygon]. *)
Fixpoint group_rings (rings : list ring) (polygons : list (list ring))
    (current_polygon : option (list ring))
  : Py.result (list (list ring) * option (list ring)) :=
  match rings with
  | [] => Ok (polygons, current_polygon)
  | ring :: rings =>
      area ← _signed_area ring;
      if fle fzero area then
        let polygons := match current_polygon with
                        | Some p => polygons ++ [p]
                        | None => polygons
                        end in
        group_rings rings polygons (Some [ring])
      else
        match current_polygon with
        | None => group_rings rings polygons (Some [ring])
        | Some p => group_rings rings polygons (Some (p ++ [ring]))
        end
  end.

Definition polygons_of_rings (rings : list ring) : Py.result (list (list ring)) :=
  '(polygons, current_polygon) ← group_rings rings [] None;
  Ok (match current_polygon with
      | Some p => polygons ++ [p]
      | None => polygons
      end).

Definition polygon_geometry (polygons : list (list ring)) : geometry :=
  match polygons with
  | [p] => Polygon p
  | _ => MultiPolygon polygons
  end.

Definition _decode_geometry (geom_data : bytes) (geom_type extent : Z)
    (y_coord_down : bool) : Py.result geometry :=
  commands ← _decode_packed_uint32 geom_data;
  let st := _decode_geometry_loop (length commands) commands
              (mk_geom_state 0 0 0 [] []) in
  let rings := if is_empty (g_current_ring st) then g_rings st
               else g_rings st ++ [g_current_ring st] in
  let rings := if y_coord_down then rings
               else map (map (fun p : point => (p.1, extent - p.2))) rings in
  if geom_type =? _GEOM_POINT then
    let points := concat rings in
    match points with
    | [p] => Ok (Point p)
    | _ => Ok (MultiPoint points)
    end
  else if geom_type =? _GEOM_LINESTRING then
    match rings with
    | [r] => Ok (LineString r)
    | _ => Ok (MultiLineString rings)
    end
  else if geom_type =? _GEOM_POLYGON then
    polygons ← polygons_of_rings rings;
    Ok (polygon_geometry polygons)
  else Ok Unknown.

(** *** MVT tile decoding *)

Definition _TILE_LAYER : Z := 3.

Definition _LAYER_NAME : Z := 1.
Definition _LAYER_FEATURE : Z := 2.
Definition _LAYER_KEY : Z := 3.
Definition _LAYER_VALUE : Z := 4.
Definition _LAYER_EXTENT : Z := 5.

Definition _FEATURE_TAGS : Z := 2.
Definition _FEATURE_TYPE : Z := 3.
Definition _FEATURE_GEOMETRY : Z := 4.

Definition _VALUE_STRING : Z := 1.
Definition _VALUE_FLOAT : Z := 2.
Definition _VALUE_DOUBLE : Z := 3.
Definition _VALUE_INT : Z := 4.
Definition _VALUE_UINT : Z := 5.
Definition _VALUE_SINT : Z := 6.
Definition _VALUE_BOOL : Z := 7.

(** Truth value of a Python object ([bool(v)], [if v:], [a or b]). *)
Definition truthy (v : pyval) : bool :=
  match v with
  | PyNone => false
  | PyBool b => b
  | PyInt n => negb (n =? 0)
  | PyFloat x => negb (is_zero x)
  | PyStr s => negb (is_empty s)
  | PyBytes b => negb (is_empty b)
  end.

(** What [_parse_message] yields as [val] is an int for wire type 0 and
    a bytes object for wire type 2 ([_parse_message_next_val]); the guards
    on [wtype] in the loops below select on that. *)
Definition int_of (val : pyval) : Z :=
  match val with PyInt v => v | _ => 0 end.

Definition bytes_of (val : pyval) : bytes :=
  match val with PyBytes b => b | _ => [] end.

(** [_decode_value] returns from inside its loop: the rest of the message
    is never parsed.  The field number alone selects the branch, so a
    [val] of the wrong Python type raises ([int] has no [decode], [bytes]
    and [float] have no [>>]). *)
Fixpoint _decode_value_loop (fuel : nat) (data : bytes) (pos : Z) : Py.result pyval :=
  match fuel with
  | O => Ok PyNone
  | Datatypes.S fuel =>
      nxt ← _parse_message_next data pos (len data);
      match nxt with
      | None => Ok PyNone
      | Some (field, wtype, val, pos) =>
          if field =? _VALUE_STRING then
            match val with
            | PyBytes b => Ok (PyStr (utf8_decode b))
            | _ => Raise AttributeError
            end
          else if field =? _VALUE_FLOAT then Ok val
          else if field =? _VALUE_DOUBLE then Ok val
          else if field =? _VALUE_INT then Ok val
          else if field =? _VALUE_UINT then Ok val
          else if field =? _VALUE_SINT then
            match val with
            | PyInt v => Ok (PyInt (zigzag v))
            | _ => Raise TypeError
            end
          else if field =? _VALUE_BOOL then Ok (PyBool (truthy val))
          else _decode_value_loop fuel data pos
      end
  end.

Definition _decode_value (data : bytes) : Py.result pyval :=
  _decode_value_loop (Datatypes.S (length data)) data 0.

Record feature : Type := mk_feature {
  f_geometry : geometry;
  f_properties : gmap str pyval
}.

Record layer : Type := mk_layer {
  l_extent : Z;
  l_features : list feature
}.

(** [for i in range(0, len(tag_indices) - 1, 2)]: the pairs
    [(tag_indices[i], tag_indices[i + 1])]; a trailing odd index is left
    out. *)
Fixpoint tag_properties (tag_indices : list Z) (keys : list str)
    (values : list pyval) (properties : gmap str pyval) : gmap str pyval :=
  match tag_indices with
  | ki :: vi :: tag_indices =>
      let properties :=
        if (ki <? len keys) && (vi <? len values)
        then <[item [] keys ki := item PyNone values vi]> properties
        else properties in
      tag_properties tag_indices keys values properties
  | _ => properties
  end.

Definition _decode_feature (data : bytes) (keys : list str)
    (values : list pyval) (extent : Z) (y_coord_down : bool) : Py.result feature :=
  '(geom_type, geom_data, tags_raw) ←
    for_fields data
      (fun '(geom_type, geom_data, tags_raw) field wtype val =>
         if (field =? _FEATURE_TYPE) && (wtype =? 0)
         then Ok (int_of val, geom_data, tags_raw)
         else if (field =? _FEATURE_GEOMETRY) && (wtype =? 2)
         then Ok (geom_type, bytes_of val, tags_raw)
         else if (field =? _FEATURE_TAGS) && (wtype =? 2)
         then Ok (geom_type, geom_data, bytes_of val)
         else Ok (geom_type, geom_data, tags_raw))
      (_GEOM_POINT, [], []);
  properties ←
    (if is_empty tags_raw then Ok ∅
     else
       tag_indices ← _decode_packed_uint32 tags_raw;
       Ok (tag_properties tag_indices keys values ∅));
  geometry ← _decode_geometry geom_data geom_type extent y_coord_down;
  Ok (mk_feature geometry properties).

Record layer_state : Type := mk_layer_state {
  ls_name : str;
  ls_keys : list str;
  ls_values : list pyval;
  ls_extent : Z;
  ls_feature_datas : list bytes
}.

Definition _decode_layer_body (st : layer_state) (field wtype : Z) (val : pyval)
  : Py.result layer_state :=
  let '(mk_layer_state name keys values extent feature_datas) := st in
  if (field =? _LAYER_NAME) && (wtype =? 2)
  then Ok (mk_layer_state (utf8_decode (bytes_of val)) keys values extent feature_datas)
  else if (field =? _LAYER_KEY) && (wtype =? 2)
  then Ok (mk_layer_state name (keys ++ [utf8_decode (bytes_of val)]) values extent
                          feature_datas)
  else if (field =? _LAYER_VALUE) && (wtype =? 2)
  then v ← _decode_value (bytes_of val);
       Ok (mk_layer_state name keys (values ++ [v]) extent feature_datas)
  else if (field =? _LAYER_EXTENT) && (wtype =? 0)
  then Ok (mk_layer_state name keys values (int_of val) feature_datas)
  else if (field =? _LAYER_FEATURE) && (wtype =? 2)
  then Ok (mk_layer_state name keys values extent (feature_datas ++ [bytes_of val]))
  else Ok st.

(** The list comprehension over [feature_datas]: the first feature that
    raises ends it, nothing catches the exception here. *)
Fixpoint decode_features (feature_datas : list bytes) (keys : list str)
    (values : list pyval) (extent : Z) (y_coord_down : bool)
  : Py.result (list feature) :=
  match feature_datas with
  | [] => Ok []
  | fd :: feature_datas =>
      f ← _decode_feature fd keys values extent y_coord_down;
      fs ← decode_features feature_datas keys values extent y_coord_down;
      Ok (f :: fs)
  end.

Definition _decode_layer (data : bytes) (y_coord_down : bool)
  : Py.result (str * layer) :=
  st ← for_fields data _decode_layer_body (mk_layer_state [] [] [] 4096 []);
  features ← decode_features (ls_feature_datas st) (ls_keys st) (ls_values st)
                             (ls_extent st) y_coord_down;
  Ok (ls_name st, mk_layer (ls_extent st) features).

Definition decode_body (y_coord_down : bool) (result : gmap str layer)
    (field wtype : Z) (val : pyval) : Py.result (gmap str layer) :=
  if (field =? _TILE_LAYER) && (wtype =? 2) then
    '(name, layer) ← _decode_layer (bytes_of val) y_coord_down;
    if negb (is_empty name) then Ok (<[name := layer]> result)
    else Ok result
  else Ok result.

Definition decode (tile_bytes : bytes) (y_coord_down : bool)
  : Py.result (gmap str layer) :=
  for_fields tile_bytes (decode_body y_coord_down) ∅.

End mvt_decoder.

(** ** maps/tiles.py *)

Module tiles.
Import mvt_decoder.

(** [try: ... except Exception: return {}] around the decoder. *)
Definition decode_tile (tile_bytes : bytes) : gmap str layer :=
  if is_empty tile_bytes then ∅
  else
    match decode tile_bytes true with
    | Ok decoded => decoded
    | Raise _ => ∅
    end.

End tiles.

(** ** The [math] module

    [math.sin], [math.log], [math.exp] and [math.atan] call the C library
    of the platform, whose roundings the language does not fix: they are a
    parameter of the model.  The error checks CPython wraps around them are
    modelled. *)

Class Libm : Type := {
  libm_sin : float -> float;
  libm_log : float -> float;
  libm_exp : float -> float;
  libm_atan : float -> float;
  libm_pow : float -> float -> float
}.

(** What ISO C (Annex F) fixes for these functions at the arguments where
    the result is exact. *)
Class AnnexF (L : Libm) : Prop := {
  sin_zero : libm_sin (S754_zero false) = S754_zero false;
  log_one : libm_log (round_m2e 1 0) = S754_zero false;
  exp_zero : forall s, libm_exp (S754_zero s) = round_m2e 1 0;
  atan_zero : libm_atan (S754_zero false) = S754_zero false
}.

Module math.

Definition is_nan (x : float) : bool :=
  match x with S754_nan => true | _ => false end.

Definition is_inf (x : float) : bool :=
  match x with S754_infinity _ => true | _ => false end.

(** [math.pi] = 0x1.921fb54442d18p+1 *)
Definition pi : float := S754_finite false 7074237752028440 (-51).

(** CPython's [math_1] wrapper: a NaN result from a non-NaN argument is a
    domain error, an infinite result from a finite argument a range
    error. *)
Definition math_1 (can_overflow : bool) (f : float -> float) (x : float)
  : Py.result float :=
  let r := f x in
  if is_nan r && negb (is_nan x) then Raise ValueError
  else if is_inf r && is_finite x
  then Raise (if can_overflow then OverflowError else ValueError)
  else Ok r.

Section WithLibm.
Context {L : Libm}.

Definition sin : float -> Py.result float := math_1 false libm_sin.
Definition exp : float -> Py.result float := math_1 true libm_exp.
Definition atan : float -> Py.result float := math_1 false libm_atan.

(** [math.log] of a float: a domain error at zero and below. *)
Definition log (x : float) : Py.result float :=
  match x with
  | S754_nan => Ok S754_nan
  | S754_infinity false => Ok x
  | S754_finite false _ _ => Ok (libm_log x)
  | _ => Raise ValueError
  end.

(** [2 ** n] for an int [n]: an int when [n >= 0]; for a negative [n] the
    float [pow(2.0, float(n))] of the C library, where CPython makes an
    infinite result a range error. *)
Definition pow2 (n : Z) : Py.result number :=
  if 0 <=? n then Ok (NInt (2 ^ n))
  else
    e ← float_of_int n;
    let r := libm_pow (round_m2e 2 0) e in
    if is_inf r then Raise OverflowError else Ok (NFloat r).

End WithLibm.
End math.

(** ** maps/coords.py *)

Module coords.
Section WithLibm.
Context {L : Libm}.

Definition MAX_LATITUDE : float := literal 8505112878 8.

Definition f180 : float := round_m2e 180 0.
Definition f360 : float := round_m2e 360 0.
Definition fone : float := round_m2e 1 0.
Definition fhalf : float := literal 5 1.

(** [float * int], [float / int]: the int is converted first. *)
Definition fmul_int (x : float) (n : Z) : Py.result float :=
  y ← float_of_int n; Ok (fmul x y).

Definition fdiv_int (x : float) (n : Z) : Py.result float :=
  y ← float_of_int n; fdiv x y.

(** [int * number], [float * number], [float / number] *)
Definition int_mul (n : Z) (s : number) : Py.result number :=
  match s with
  | NInt k => Ok (NInt (n * k))
  | NFloat y => x ← float_of_int n; Ok (NFloat (fmul x y))
  end.

Definition fmul_num (x : float) (s : number) : Py.result float :=
  match s with
  | NInt k => fmul_int x k
  | NFloat y => Ok (fmul x y)
  end.

Definition fdiv_num (x : float) (s : number) : Py.result float :=
  match s with
  | NInt k => fdiv_int x k
  | NFloat y => fdiv x y
  end.

Definition latlon_to_world_pixel (lat lon : float) (zoom tile_size : Z)
  : Py.result (float * float) :=
  p ← math.pow2 zoom;
  scale ← int_mul tile_size p;
  q ← fdiv (fadd lon f180) f360;
  x ← fmul_num q scale;
  let lat := fmax (fmin lat MAX_LATITUDE) (fneg MAX_LATITUDE) in
  a ← fdiv (fmul lat math.pi) f180;
  sin_lat ← math.sin a;
  r ← fdiv (fadd fone sin_lat) (fsub fone sin_lat);
  l ← math.log r;
  four_pi ← fmul_int math.pi 4;
  t ← fdiv l four_pi;
  y ← fmul_num (fsub fhalf t) scale;
  Ok (x, y).

Definition world_pixel_to_latlon (x y : float) (zoom tile_size : Z)
  : Py.result (float * float) :=
  p ← math.pow2 zoom;
  scale ← int_mul tile_size p;
  q ← fdiv_num x scale;
  let lon := fsub (fmul q f360) f180 in
  t ← fdiv_num (fmul (fmul (round_m2e 2 0) math.pi) y) scale;
  let n := fsub math.pi t in
  c ← fdiv f180 math.pi;
  e1 ← math.exp n;
  e2 ← math.exp (fneg n);
  a ← math.atan (fmul fhalf (fsub e1 e2));
  Ok (fmul c a, lon).

End WithLibm.
End coords.

(** ** maps/ascii_map.py: the view *)

Module view.
Section WithLibm.
Context {L : Libm}.

Definition TILE_SIZE : Z := 256.
Definition MIN_ZOOM : Z := 0.
Definition MAX_ZOOM : Z := 14.
Definition DEFAULT_CELL_ASPECT : float := literal 6 1.
Definition WORLD_PX_PER_CELL_Y : float := round_m2e 1 0.
Definition DEFAULT_PAN_STEP_CELLS : Z := 10.

Definition clamp_wy (wy : float) (world_size : Z) : Py.result float :=
  top ← float_of_int (world_size - 1);
  Ok (fmax (S754_zero false) (fmin wy top)).

Definition normalize_view (lat lon : float) (zoom : Z)
  : Py.result (float * float * Z * float * float * Z) :=
  let zoom := Z.max MIN_ZOOM (Z.min zoom MAX_ZOOM) in
  '(wx, wy) ← coords.latlon_to_world_pixel lat lon zoom TILE_SIZE;
  let world_size := TILE_SIZE * 2 ^ zoom in
  wx ← fmod wx world_size;
  wy ← clamp_wy wy world_size;
  '(lat, lon) ← coords.world_pixel_to_latlon wx wy zoom TILE_SIZE;
  Ok (lat, lon, zoom, wx, wy, world_size).

Definition lit (s : String.string) : str :=
  map Ascii.N_of_ascii (String.list_ascii_of_string s).

Definition pan (lat lon : float) (zoom : Z) (direction : str)
    (step_cells : Z) (cell_aspect : float) : Py.result (float * float) :=
  '(lat, lon, zoom, wx, wy, world_size) ← normalize_view lat lon zoom;
  move_x ← (s ← float_of_int step_cells; Ok (fmul s (fmax (literal 2 1) cell_aspect)));
  move_y ← (s ← float_of_int step_cells; Ok (fmul s WORLD_PX_PER_CELL_Y));
  let '(wx, wy) :=
    if bool_decide (direction = lit "up") then (wx, fsub wy move_y)
    else if bool_decide (direction = lit "down") then (wx, fadd wy move_y)
    else if bool_decide (direction = lit "left") then (fsub wx move_x, wy)
    else if bool_decide (direction = lit "right") then (fadd wx move_x, wy)
    else (wx, wy) in
  wx ← fmod wx world_size;
  wy ← clamp_wy wy world_size;
  coords.world_pixel_to_latlon wx wy zoom TILE_SIZE.

End WithLibm.
End view.

(** ** maps/render.py *)

Module render.
Import mvt_decoder.

(** A cell holds a one-character string, given by its code point. *)
Definition char := N.

Record Framebuffer : Type := mk_Framebuffer {
  width : Z;
  height : Z;
  buffer : list (list char);
  colors : list (list Z)
}.

Definition SPACE : char := 32%N.

(** [Framebuffer(width, height)] *)
Definition new (width height : Z) : Framebuffer :=
  mk_Framebuffer width height
    (replicate (Z.to_nat height) (replicate (Z.to_nat width) SPACE))
    (replicate (Z.to_nat height) (replicate (Z.to_nat width) 0)).

(** [grid[y][x] = v] for indices in range. *)
Definition assign {A} (grid : list (list A)) (x y : Z) (v : A) : list (list A) :=
  alter (fun row => <[Z.to_nat x := v]> row) (Z.to_nat y) grid.

(** The two assignments [self.buffer[y][x] = char; self.colors[y][x] = color]. *)
Definition put (fb : Framebuffer) (x y : Z) (c : char) (color : Z) : Framebuffer :=
  mk_Framebuffer (width fb) (height fb)
    (assign (buffer fb) x y c) (assign (colors fb) x y color).

Definition set_char (fb : Framebuffer) (x y : Z) (c : char) (color : Z)
  : Framebuffer :=
  if (0 <=? x) && (x <? width fb) && (0 <=? y) && (y <? height fb)
  then put fb x y c color
  else fb.

Definition sign_to (a b : Z) : Z := if a <? b then 1 else -1.

(** The [while True] loop of [draw_line].  Every turn that does not
    [break] moves at least one of [x0], [y0] one step toward the end
    point, so [dx + dy + 1] turns suffice ([draw_line_loop_ends]). *)
Fixpoint draw_line_loop (fuel : nat) (fb : Framebuffer)
    (x0 y0 x1 y1 dx dy sx sy err : Z) (c : char) (color : Z) : Framebuffer :=
  match fuel with
  | O => fb
  | S fuel =>
      let fb := set_char fb x0 y0 c color in
      if (x0 =? x1) && (y0 =? y1) then fb
      else
        let e2 := 2 * err in
        let '(err, x0) := if - dy <? e2 then (err - dy, x0 + sx) else (err, x0) in
        let '(err, y0) := if e2 <? dx then (err + dx, y0 + sy) else (err, y0) in
        draw_line_loop fuel fb x0 y0 x1 y1 dx dy sx sy err c color
  end.

Definition draw_line (fb : Framebuffer) (x0 y0 x1 y1 : Z) (c : char) (color : Z)
  : Framebuffer :=
  let dx := Z.abs (x1 - x0) in
  let dy := Z.abs (y1 - y0) in
  let sx := sign_to x0 x1 in
  let sy := sign_to y0 y1 in
  let err := dx - dy in
  draw_line_loop (S (Z.to_nat (dx + dy))) fb x0 y0 x1 y1 dx dy sx sy err c color.

(** [range(lo, hi)] *)
Definition range (lo hi : Z) : list Z :=
  map (fun i => lo + Z.of_nat i) (seq 0 (Z.to_nat (hi - lo))).

(** [x = xi + (y - yi) / (yj - yi) * (xj - xi); int(x)]: computed in
    floating point from int operands, then truncated toward zero. *)
Definition crossing (xi yi xj yj y : Z) : Py.result Z :=
  q ← int_truediv (y - yi) (yj - yi);
  d ← float_of_int (xj - xi);
  a ← float_of_int xi;
  int_of_float (fadd a (fmul q d)).

(** The [for i in range(len(ring))] loop over the edges [(ring[i], ring[j])]
    with [j] the index before [i] (the last one for [i = 0]). *)
Fixpoint ring_nodes (pts : list point) (pj : point) (y : Z) (nodes : list Z)
  : Py.result (list Z) :=
  match pts with
  | [] => Ok nodes
  | pi :: pts =>
      let '(xi, yi) := pi in
      let '(xj, yj) := pj in
      nodes ←
        (if ((yi <? y) && (y <=? yj)) || ((yj <? y) && (y <=? yi))
         then x ← crossing xi yi xj yj y; Ok (nodes ++ [x])
         else Ok nodes);
      ring_nodes pts pi y nodes
  end.

Fixpoint scan_nodes (valid_rings : list (list point)) (y : Z) (nodes : list Z)
  : Py.result (list Z) :=
  match valid_rings with
  | [] => Ok nodes
  | ring :: valid_rings =>
      nodes ← ring_nodes ring (List.last ring (0, 0)) y nodes;
      scan_nodes valid_rings y nodes
  end.

(** [for x in range(x_start, x_end + 1)]: the unchecked assignments of the
    fill. *)
Definition fill_span (fb : Framebuffer) (y x_start x_end : Z) (c : char) (color : Z)
  : Framebuffer :=
  fold_left (fun fb x => put fb x y c color) (range x_start (x_end + 1)) fb.

(** [for i in range(0, len(nodes), 2)] with its [break] when
    [nodes[i + 1]] is missing. *)
Fixpoint fill_pairs (fb : Framebuffer) (y : Z) (nodes : list Z) (c : char) (color : Z)
  : Framebuffer :=
  match nodes with
  | a :: b :: nodes =>
      let x_start := Z.max 0 a in
      let x_end := Z.min (width fb - 1) b in
      fill_pairs (fill_span fb y x_start x_end c color) y nodes c color
  | _ => fb
  end.

Definition sort_ints (l : list Z) : list Z := merge_sort Z.le l.

Fixpoint fill_rows (fb : Framebuffer) (valid_rings : list (list point))
    (ys : list Z) (c : char) (color : Z) : Py.result Framebuffer :=
  match ys with
  | [] => Ok fb
  | y :: ys =>
      nodes ← scan_nodes valid_rings y [];
      let nodes := sort_ints nodes in
      fill_rows (fill_pairs fb y nodes c color) valid_rings ys c color
  end.

Definition min_list (d : Z) (l : list Z) : Z :=
  match l with [] => d | x :: l => fold_left Z.min l x end.

Definition max_list (d : Z) (l : list Z) : Z :=
  match l with [] => d | x :: l => fold_left Z.max l x end.

Definition draw_polygon_filled (fb : Framebuffer) (rings : list (list point))
    (c : char) (color : Z) : Py.result Framebuffer :=
  if is_empty rings then Ok fb
  else
    let valid_rings := filter (fun ring : list point => 3 <= len ring) rings in
    if is_empty valid_rings then Ok fb
    else
      let ys := map snd (concat valid_rings) in
      let min_y := min_list 0 ys in
      let max_y := max_list 0 ys in
      let min_y := Z.max 0 min_y in
      let max_y := Z.min (height fb - 1) max_y in
      fill_rows fb valid_rings (range min_y (max_y + 1)) c color.

Definition draw_poly_filled (fb : Framebuffer) (points : list point)
    (c : char) (color : Z) : Py.result Framebuffer :=
  draw_polygon_filled fb [points] c color.

(** [for i in range(len(points) - 1)]: consecutive points. *)
Fixpoint draw_poly_outline (fb : Framebuffer) (points : list point)
    (c : char) (color : Z) : Framebuffer :=
  match points with
  | p0 :: ((p1 :: _) as points) =>
      draw_poly_outline (draw_line fb p0.1 p0.2 p1.1 p1.2 c color) points c color
  | _ => fb
  end.

(** [self.buffer[y]] joined, for [y] in range. *)
Definition get_row (fb : Framebuffer) (y : Z) : str :=
  nth (Z.to_nat y) (buffer fb) [].

End render.

(** ** The host: what the core calls but does not define *)

(** The tile-fetch port ([tiles.fetch_tile]: disk cache, then HTTP) acts on
    a world the core does not see; [repr_float] is [str(x)] of a float. *)
Class Host : Type := {
  host_libm :: Libm;
  world : Type;
  fetch_tile : world -> Z * Z * Z -> option mvt_decoder.bytes * world;
  repr_float : float -> str
}.

(** ** maps/ascii_map.py: the tile cache *)

Module cache.
Import mvt_decoder.

Definition MAX_TILE_CACHE : Z := 512.

Definition key : Type := Z * Z * Z.
Definition tile : Type := gmap str layer.

(** [_tile_cache]: an [OrderedDict], its items from the oldest to the
    most recently moved or inserted. *)
Definition tile_cache : Type := list (key * tile).

Definition contains (c : tile_cache) (k : key) : bool :=
  existsb (fun e => bool_decide (e.1 = k)) c.

Definition lookup (c : tile_cache) (k : key) : option tile :=
  snd <$> List.find (fun e => bool_decide (e.1 = k)) c.

(** [c[k] = v]: an existing key keeps its place, a new key goes last. *)
Fixpoint setitem (c : tile_cache) (k : key) (v : tile) : tile_cache :=
  match c with
  | [] => [(k, v)]
  | e :: c => if bool_decide (e.1 = k) then (k, v) :: c else e :: setitem c k v
  end.

(** [c.move_to_end(k)] for a key that is present. *)
Definition move_to_end (c : tile_cache) (k : key) : tile_cache :=
  match lookup c k with
  | Some v => List.filter (fun e => negb (bool_decide (e.1 = k))) c ++ [(k, v)]
  | None => c
  end.

(** [c.popitem(last=False)] *)
Definition popitem_first (c : tile_cache) : tile_cache := tail c.

Definition _cache_put (c : tile_cache) (k : key) (v : tile) : tile_cache :=
  let c := setitem c k v in
  let c := move_to_end c k in
  if MAX_TILE_CACHE <? len c then popitem_first c else c.

Definition tile_cache_size (c : tile_cache) : Z := len c.

Section WithHost.
Context {H : Host}.

Record store : Type := mk_store {
  _tile_cache : tile_cache;
  the_world : world
}.

Definition get_decoded_tile (st : store) (z x y : Z) : tile * store :=
  let k := (z, x, y) in
  if contains (_tile_cache st) k then
    let c := move_to_end (_tile_cache st) k in
    (default ∅ (lookup c k), mk_store c (the_world st))
  else
    let '(raw, w) := fetch_tile (the_world st) k in
    let decoded :=
      match raw with
      | Some raw => if is_empty raw then ∅ else tiles.decode_tile raw
      | None => ∅
      end in
    (decoded, mk_store (_cache_put (_tile_cache st) k decoded) w).

End WithHost.
End cache.

(** ** maps/ascii_map.py: the renderer *)

Module ascii_map.
Import mvt_decoder render cache view.

Definition TERRAIN_FILL_MAX_ZOOM : Z := 14.
Definition GEOM_SIMPLIFY_ZOOM : Z := 14.
Definition MAX_GEOM_POINTS : Z := 220.
Definition LABEL_MIN_ZOOM : Z := 13.
Definition MAX_LABEL_CANDIDATES : Z := 600.
Definition MAX_LABEL_LEN : Z := 26.

Definition chr (a : ascii) : char := N_of_ascii a.

Definition ROAD_LABEL_PRIORITY : list (str * Z) :=
  [(lit "motorway", 0); (lit "trunk", 1); (lit "primary", 2);
   (lit "secondary", 3); (lit "tertiary", 4); (lit "minor", 5);
   (lit "service", 6); (lit "residential", 6)].

Definition GLYPH_GREEN : char := chr "'".
Definition GLYPH_WATER : char := chr "~".
Definition GLYPH_WATERWAY : char := chr "|".
Definition GLYPH_BUILDING : char := chr "#".
Definition GLYPH_CENTER : char := chr "@".
Definition ROAD_DEFAULT_CHAR : char := chr " ".

Definition ROAD_CLASS_TO_CHAR : list (str * char) :=
  [(lit "motorway", chr "="); (lit "trunk", chr "-"); (lit "primary", chr "+");
   (lit "secondary", chr ";"); (lit "tertiary", chr ":"); (lit "minor", chr ".");
   (lit "street", chr "."); (lit "residential", chr "."); (lit "bridge", chr "%");
   (lit "rail", chr "x"); (lit "service", chr ","); (lit "path", chr "`")].

Definition GREEN_LANDUSE_CLASSES : list str :=
  map lit ["allotments"; "cemetery"; "farmland"; "forest"; "garden"; "grass";
           "meadow"; "nature_reserve"; "orchard"; "park"; "pitch";
           "recreation_ground"; "village_green"; "wood"]%string.

(** [d.get(k, default)] for a dict with [str] keys and any value as [k]:
    only an equal [str] is found. *)
Definition dict_get {V} (d : list (str * V)) (k : pyval) (default : V) : V :=
  match k with
  | PyStr s =>
      match List.find (fun e => bool_decide (e.1 = s)) d with
      | Some e => e.2
      | None => default
      end
  | _ => default
  end.

Definition dict_has {V} (d : list (str * V)) (k : pyval) : bool :=
  match k with
  | PyStr s => existsb (fun e => bool_decide (e.1 = s)) d
  | _ => false
  end.

Definition in_set (s : list str) (k : pyval) : bool :=
  match k with
  | PyStr x => bool_decide (x ∈ s)
  | _ => false
  end.

(** [props.get(k)]: [None] when the key is missing. *)
Definition prop_get (props : gmap str pyval) (k : str) : pyval :=
  default PyNone (props !! k).

(** [a or b] *)
Definition py_or (a b : pyval) : pyval := if truthy a then a else b.

(** [l[::step]] *)
Fixpoint stride {A} (l : list A) (skip step : nat) : list A :=
  match l with
  | [] => []
  | x :: l =>
      match skip with
      | O => x :: stride l (step - 1) step
      | S skip => stride l skip step
      end
  end.

(** *** [str(raw)], [str.split], ASCII filtering *)

Definition hex_digit (n : Z) : char :=
  Z.to_N (if n <? 10 then 48 + n else 87 + n).

Definition repr_bytes (b : bytes) : str :=
  let cs := map byte_val b in
  let quote := if bool_decide (39 ∈ cs) && negb (bool_decide (34 ∈ cs))
               then 34 else 39 in
  let esc (c : Z) : str :=
    if (c =? quote) || (c =? 92) then [92%N; Z.to_N c]
    else if c =? 9 then lit "\t"
    else if c =? 10 then lit "\n"
    else if c =? 13 then lit "\r"
    else if (c <? 32) || (127 <=? c)
    then lit "\x" ++ [hex_digit (c / 16); hex_digit (c mod 16)]
    else [Z.to_N c] in
  chr "b" :: Z.to_N quote :: concat (map esc cs) ++ [Z.to_N quote].

Definition is_space (c : N) : bool :=
  ((9 <=? c) && (c <=? 13) || (28 <=? c) && (c <=? 32) || (c =? 0x85)
   || (c =? 0xA0) || (c =? 0x1680) || (0x2000 <=? c) && (c <=? 0x200A)
   || (c =? 0x2028) || (c =? 0x2029) || (c =? 0x202F) || (c =? 0x205F)
   || (c =? 0x3000))%N.

(** [s.split()]: the maximal runs of non-whitespace characters. *)
Fixpoint split_loop (s : str) (word : str) (words : list str) : list str :=
  match s with
  | [] => if is_empty word then words else words ++ [word]
  | c :: s =>
      if is_space c
      then split_loop s [] (if is_empty word then words else words ++ [word])
      else split_loop s (word ++ [c]) words
  end.

Definition split (s : str) : list str := split_loop s [] [].

(** [sep.join(words)] *)
Fixpoint join (sep : str) (words : list str) : str :=
  match words with
  | [] => []
  | [w] => w
  | w :: words => w ++ sep ++ join sep words
  end.

(** [text.encode("ascii", "ignore").decode("ascii")] *)
Definition ascii_only (s : str) : str := List.filter (fun c => (c <? 128)%N) s.

Section WithHost.
Context {H : Host}.

Definition py_str (v : pyval) : str :=
  match v with
  | PyNone => lit "None"
  | PyBool b => if b then lit "True" else lit "False"
  | PyInt n => lit (DecimalString.NilZero.string_of_int (Z.to_int n))
  | PyFloat x => repr_float x
  | PyStr s => s
  | PyBytes b => repr_bytes b
  end.

Definition normalize_label_text (raw : pyval) : str :=
  match raw with
  | PyNone => []
  | _ =>
      let text := join (lit " ") (split (py_str raw)) in
      let text := ascii_only text in
      if is_empty text then []
      else if MAX_LABEL_LEN <? len text
      then take (Z.to_nat (MAX_LABEL_LEN - 3)) text ++ lit "..."
      else text
  end.

(** [for x in l: s = f(s, x)] with a body that may raise. *)
Fixpoint foldM {A S} (f : S -> A -> Py.result S) (l : list A) (s : S) : Py.result S :=
  match l with
  | [] => Ok s
  | x :: l => s ← f s x; foldM f l s
  end.

(** [[f(x) for x in l]] with an [f] that may raise. *)
Fixpoint mapM {A B} (f : A -> Py.result B) (l : list A) : Py.result (list B) :=
  match l with
  | [] => Ok []
  | x :: l => y ← f x; ys ← mapM f l; Ok (y :: ys)
  end.

(** A label candidate [(priority, sy, sx, text)]. *)
Definition candidate : Type := Z * Z * Z * str.

(** [sorted(candidates, key=lambda item: (item[0], item[1], item[2]))]:
    a stable sort on the lexicographic key. *)
Definition key_le (a b : candidate) : bool :=
  let '(p1, y1, x1, _) := a in
  let '(p2, y2, x2, _) := b in
  (p1 <? p2) || (p1 =? p2) && ((y1 <? y2) || (y1 =? y2) && (x1 <=? x2)).

Fixpoint insert_sorted (c : candidate) (l : list candidate) : list candidate :=
  match l with
  | [] => [c]
  | d :: l' => if key_le d c then d :: insert_sorted c l' else c :: l
  end.

Definition sorted_candidates (l : list candidate) : list candidate :=
  fold_left (fun acc c => insert_sorted c acc) l [].

(** The nested functions of [render_ascii] and the variables they close
    over. *)
Section Closure.
Variables (zoom width height : Z) (tl_wx tl_wy cell_aspect : float).

Definition world_to_screen (wx wy : float) : Py.result (Z * Z) :=
  sx ← (d ← fdiv (fsub wx tl_wx) cell_aspect; int_of_float d);
  sy ← (d ← fdiv (fsub wy tl_wy) WORLD_PX_PER_CELL_Y; int_of_float d);
  Ok (sx, sy).

Definition tile_point_to_screen (tx ty : Z) (pt : point) (extent : Z)
  : Py.result (Z * Z) :=
  wx ← (q ← int_truediv pt.1 extent;
        m ← coords.fmul_int q TILE_SIZE;
        a ← float_of_int (tx * TILE_SIZE);
        Ok (fadd a m));
  wy ← (q ← int_truediv pt.2 extent;
        m ← coords.fmul_int q TILE_SIZE;
        a ← float_of_int (ty * TILE_SIZE);
        Ok (fadd a m));
  world_to_screen wx wy.

Definition simplify_points (points : list point) : Py.result (list point) :=
  if (zoom <? GEOM_SIMPLIFY_ZOOM) || (len points <=? MAX_GEOM_POINTS) then Ok points
  else
    q ← int_truediv (len points) MAX_GEOM_POINTS;
    c ← ceil q;
    let step := Z.max 2 c in
    let sampled := stride points 0 (Z.to_nat step) in
    if bool_decide (List.last sampled (0, 0) ≠ List.last points (0, 0))
    then Ok (sampled ++ [List.last points (0, 0)])
    else Ok sampled.

(** [[tile_point_to_screen(tx, ty, pt, extent) for pt in simplify_points(l)]] *)
Definition screen_points (tx ty extent : Z) (l : list point)
  : Py.result (list point) :=
  simplified ← simplify_points l;
  mapM (fun pt => tile_point_to_screen tx ty pt extent) simplified.

(** The [for ring in polygon] loop that collects the rings of at least
    three points. *)
Definition screen_rings (tx ty extent : Z) (polygon : list ring)
  : Py.result (list (list point)) :=
  foldM (fun rings ring =>
           points ← screen_points tx ty extent ring;
           if 3 <=? len points then Ok (rings ++ [points]) else Ok rings)
        polygon [].

Definition polygons_of (geo : geometry) : option (list (list ring)) :=
  match geo with
  | Polygon c => Some [c]
  | MultiPolygon c => Some c
  | _ => None
  end.

Definition lines_of (geo : geometry) : option (list (list point)) :=
  match geo with
  | LineString c => Some [c]
  | MultiLineString c => Some c
  | _ => None
  end.

Definition draw_polygons (tx ty extent : Z) (c : char) (filled : bool)
    (fb : Framebuffer) (polygons : list (list ring)) : Py.result Framebuffer :=
  foldM (fun fb polygon =>
           rings ← screen_rings tx ty extent polygon;
           if is_empty rings then Ok fb
           else if filled then draw_polygon_filled fb rings c 0
           else Ok (fold_left (fun fb ring => draw_poly_outline fb ring c 0) rings fb))
        polygons fb.

Definition draw_polygon_layer (tx ty : Z) (fb : Framebuffer) (tile_data : tile)
    (layer_name : str) (c : char) (filled : bool) : Py.result Framebuffer :=
  match tile_data !! layer_name with
  | None => Ok fb
  | Some layer =>
      let extent := l_extent layer in
      foldM (fun fb feature =>
               match polygons_of (f_geometry feature) with
               | None => Ok fb
               | Some polygons => draw_polygons tx ty extent c filled fb polygons
               end)
            (l_features layer) fb
  end.

(** [tile_data.get(a) or tile_data.get(b)]: a layer dict is never empty,
    hence always true. *)
Definition layer_or (tile_data : tile) (a b : str) : option layer :=
  match tile_data !! a with
  | Some l => Some l
  | None => tile_data !! b
  end.

Definition draw_green_layer (tx ty : Z) (fb : Framebuffer) (tile_data : tile)
  : Py.result Framebuffer :=
  match layer_or tile_data (lit "landuse") (lit "landcover") with
  | None => Ok fb
  | Some layer =>
      let extent := l_extent layer in
      foldM (fun fb feature =>
               let props := f_properties feature in
               if negb (in_set GREEN_LANDUSE_CLASSES (prop_get props (lit "class")))
               then Ok fb
               else
                 match polygons_of (f_geometry feature) with
                 | None => Ok fb
                 | Some polygons =>
                     draw_polygons tx ty extent GLYPH_GREEN true fb polygons
                 end)
            (l_features layer) fb
  end.

Definition draw_line_layer (tx ty : Z) (fb : Framebuffer) (layer : layer)
    (class_to_char : list (str * char)) (default_char : char)
  : Py.result Framebuffer :=
  let extent := l_extent layer in
  foldM (fun fb feature =>
           let props := f_properties feature in
           let c := dict_get class_to_char
                      (default (PyStr []) (props !! lit "class")) default_char in
           if bool_decide (c = chr " ") then Ok fb
           else
             match lines_of (f_geometry feature) with
             | None => Ok fb
             | Some lines =>
                 foldM (fun fb line =>
                          points ← screen_points tx ty extent line;
                          if 2 <=? len points
                          then Ok (draw_poly_outline fb points c 0)
                          else Ok fb)
                       lines fb
             end)
        (l_features layer) fb.

(** [collect_street_label_candidates]: [Break] stands for the [return]
    taken once [MAX_LABEL_CANDIDATES] candidates are held. *)
Fixpoint collect_lines (tx ty extent priority : Z) (text : str)
    (lines : list (list point)) (out : list candidate)
  : Py.result (step (list candidate)) :=
  match lines with
  | [] => Ok (Continue out)
  | line :: lines =>
      if len line <? 2 then collect_lines tx ty extent priority text lines out
      else
        simplified_line ← simplify_points line;
        if is_empty simplified_line
        then collect_lines tx ty extent priority text lines out
        else
          let mid := item (0, 0) simplified_line (len simplified_line / 2) in
          '(sx, sy) ← tile_point_to_screen tx ty mid extent;
          if (sx <? 0) || (width <=? sx) || (sy <? 0) || (height <=? sy)
          then collect_lines tx ty extent priority text lines out
          else
            let out := out ++ [(priority, sy, sx, text)] in
            if MAX_LABEL_CANDIDATES <=? len out then Ok (Break out)
            else collect_lines tx ty extent priority text lines out
  end.

Fixpoint collect_features (tx ty extent : Z) (features : list feature)
    (out : list candidate) : Py.result (step (list candidate)) :=
  match features with
  | [] => Ok (Continue out)
  | feature :: features =>
      let props := f_properties feature in
      let road_class := prop_get props (lit "class") in
      if negb (dict_has ROAD_LABEL_PRIORITY road_class)
      then collect_features tx ty extent features out
      else
        let text := normalize_label_text
                      (py_or (prop_get props (lit "name_en"))
                             (prop_get props (lit "name"))) in
        if is_empty text then collect_features tx ty extent features out
        else
          match lines_of (f_geometry feature) with
          | None => collect_features tx ty extent features out
          | Some lines =>
              r ← collect_lines tx ty extent
                    (dict_get ROAD_LABEL_PRIORITY road_class 0) text lines out;
              match r with
              | Continue out => collect_features tx ty extent features out
              | Break out => Ok (Break out)
              end
          end
  end.

Definition collect_street_label_candidates (tx ty : Z) (tile_data : tile)
    (out_candidates : list candidate) : Py.result (list candidate) :=
  if zoom <? LABEL_MIN_ZOOM then Ok out_candidates
  else
    match tile_data !! lit "transportation_name" with
    | None => Ok out_candidates
    | Some layer =>
        let extent := l_extent layer in
        if extent =? 0 then Ok out_candidates
        else
          r ← collect_features tx ty extent (l_features layer) out_candidates;
          Ok (match r with Continue out | Break out => out end)
    end.

(** [draw_street_labels] *)

Definition label_box (y start_x end_x : Z) : list (Z * Z) :=
  oy ← range (Z.max 0 (y - 1)) (Z.min height (y + 2));
  ox ← range (Z.max 0 (start_x - 1)) (Z.min width (end_x + 2));
  [(ox, oy)].

Definition occupied_at (occupied : list (list bool)) (ox oy : Z) : bool :=
  nth (Z.to_nat ox) (nth (Z.to_nat oy) occupied []) false.

Record label_state : Type := mk_label_state {
  lb_fb : Framebuffer;
  lb_occupied : list (list bool);
  lb_placed_names : list str;
  lb_placed : Z
}.

Definition place_label (st : label_state) (y x : Z) (text : str)
  : label_state :=
  let fb := lb_fb st in
  let label_len := len text in
  let start_x := x - label_len / 2 in
  let end_x := start_x + label_len - 1 in
  let fb := fold_left (fun fb '(i, ch) => set_char fb (start_x + Z.of_nat i) y ch 0)
                      (imap pair text) fb in
  let fb := if 0 <=? start_x - 1 then set_char fb (start_x - 1) y (chr " ") 0 else fb in
  let fb := if end_x + 1 <? width then set_char fb (end_x + 1) y (chr " ") 0 else fb in
  let occupied := fold_left (fun occ '(ox, oy) => assign occ ox oy true)
                            (label_box y start_x end_x) (lb_occupied st) in
  mk_label_state fb occupied (lb_placed_names st ++ [text]) (lb_placed st + 1).

Fixpoint place_labels (max_labels : Z) (candidates : list candidate)
    (st : label_state) : label_state :=
  match candidates with
  | [] => st
  | (_, y, x, text) :: candidates =>
      if bool_decide (text ∈ lb_placed_names st)
      then place_labels max_labels candidates st
      else
        let label_len := len text in
        let start_x := x - label_len / 2 in
        let end_x := start_x + label_len - 1 in
        if (start_x <? 1) || (width - 1 <=? end_x) || (y <? 1) || (height - 1 <=? y)
        then place_labels max_labels candidates st
        else if existsb (fun '(ox, oy) => occupied_at (lb_occupied st) ox oy)
                        (label_box y start_x end_x)
        then place_labels max_labels candidates st
        else
          let st := place_label st y x text in
          if max_labels <=? lb_placed st then st
          else place_labels max_labels candidates st
  end.

Definition draw_street_labels (fb : Framebuffer) (candidates : list candidate)
  : Framebuffer :=
  if is_empty candidates then fb
  else
    let max_labels := Z.max 10 (Z.min 48 (width / 4 + height / 3)) in
    let occupied := replicate (Z.to_nat height) (replicate (Z.to_nat width) false) in
    lb_fb (place_labels max_labels (sorted_candidates candidates)
                        (mk_label_state fb occupied [] 0)).

(** The body of the two loops over the tiles of the viewport. *)

Record render_state : Type := mk_render_state {
  rs_fb : Framebuffer;
  rs_store : store;
  rs_candidates : option (list candidate)
}.

Definition render_tile (world_tiles tx ty : Z) (st : render_state)
  : Py.result render_state :=
  if (ty <? 0) || (world_tiles <=? ty) then Ok st
  else
    let wrapped_tx := tx mod world_tiles in
    let '(tile_data, store) := get_decoded_tile (rs_store st) zoom wrapped_tx ty in
    let st := mk_render_state (rs_fb st) store (rs_candidates st) in
    if bool_decide (tile_data = ∅) then Ok st
    else
      let fb := rs_fb st in
      fb ← (if zoom <=? TERRAIN_FILL_MAX_ZOOM then
              fb ← draw_green_layer tx ty fb tile_data;
              draw_polygon_layer tx ty fb tile_data (lit "water") GLYPH_WATER true
            else Ok fb);
      fb ← draw_polygon_layer tx ty fb tile_data (lit "water") GLYPH_WATER false;
      fb ← draw_polygon_layer tx ty fb tile_data (lit "building") GLYPH_BUILDING false;
      fb ← match layer_or tile_data (lit "road") (lit "transportation") with
           | Some road_layer =>
               draw_line_layer tx ty fb road_layer ROAD_CLASS_TO_CHAR ROAD_DEFAULT_CHAR
           | None => Ok fb
           end;
      fb ← match tile_data !! lit "waterway" with
           | Some waterway => draw_line_layer tx ty fb waterway [] GLYPH_WATERWAY
           | None => Ok fb
           end;
      candidates ← match rs_candidates st with
                   | Some out =>
                       out ← collect_street_label_candidates tx ty tile_data out;
                       Ok (Some out)
                   | None => Ok None
                   end;
      Ok (mk_render_state fb store candidates).

End Closure.

Record render_result : Type := mk_render_result {
  rr_text : str;
  rr_lat : float;
  rr_lon : float;
  rr_zoom : Z;
  rr_width : Z;
  rr_height : Z;
  rr_cell_aspect : float
}.

Definition NEWLINE : char := 10%N.

Definition render_ascii (st : store) (lat lon : float) (zoom width height : Z)
    (cell_aspect : float) (show_street_names : bool)
  : Py.result (render_result * store) :=
  let width := Z.max 20 (Z.min width 320) in
  let height := Z.max 10 (Z.min height 140) in
  let cell_aspect := fmax (literal 2 1) (fmin cell_aspect (literal 20 1)) in
  '(lat, lon, zoom, cam_wx, cam_wy, _) ← normalize_view lat lon zoom;
  view_world_w ← (w ← float_of_int width; Ok (fmul w cell_aspect));
  view_world_h ← (h ← float_of_int height; Ok (fmul h WORLD_PX_PER_CELL_Y));
  tl_wx ← (half ← coords.fdiv_int view_world_w 2; Ok (fsub cam_wx half));
  tl_wy ← (half ← coords.fdiv_int view_world_h 2; Ok (fsub cam_wy half));
  let world_tiles := 2 ^ zoom in
  let fb := render.new width height in
  let street_label_candidates := if show_street_names then Some [] else None in
  min_tx ← (q ← coords.fdiv_int tl_wx TILE_SIZE; floor q);
  max_tx ← (q ← coords.fdiv_int (fadd tl_wx view_world_w) TILE_SIZE; floor q);
  min_ty ← (q ← coords.fdiv_int tl_wy TILE_SIZE; floor q);
  max_ty ← (q ← coords.fdiv_int (fadd tl_wy view_world_h) TILE_SIZE; floor q);
  rs ← foldM (fun rs tx =>
                foldM (fun rs ty =>
                         render_tile zoom width height tl_wx tl_wy cell_aspect
                                     world_tiles tx ty rs)
                      (range min_ty (max_ty + 1)) rs)
             (range min_tx (max_tx + 1))
             (mk_render_state fb st street_label_candidates);
  let fb := rs_fb rs in
  let fb := match rs_candidates rs with
            | Some candidates => draw_street_labels width height fb candidates
            | None => fb
            end in
  let fb := set_char fb (width / 2) (height / 2) GLYPH_CENTER 0 in
  let lines := map (get_row fb) (range 0 height) in
  Ok (mk_render_result (join [NEWLINE] lines) lat lon zoom width height cell_aspect,
      rs_store rs).

End WithHost.
End ascii_map.

(** * Properties

    What the theorems below are stated with: predicates on the embedded
    program, and the claims in the words of the specification. *)

Module props.
Import mvt_decoder render cache view ascii_map.

(** ** The generator of [_parse_message] *)

(** The tuples the generator [_parse_message(buf)] yields when it is
    resumed from [pos]. *)
Inductive yields (buf : bytes) : Z → Z * Z * pyval → Prop :=
| yields_now pos field wtype val pos' :
    _parse_message_next buf pos (len buf) = Ok (Some (field, wtype, val, pos')) →
    yields buf pos (field, wtype, val)
| yields_later pos field wtype val pos' t :
    _parse_message_next buf pos (len buf) = Ok (Some (field, wtype, val, pos')) →
    yields buf pos' t →
    yields buf pos t.

(** The bytes left from [pos]: the measure of the parsing loops. *)
Definition remaining (buf : bytes) (pos : Z) : nat := Z.to_nat (len buf - pos).

(** ** Polygon grouping *)

(** [area >= 0] and [area < 0] for the float that [_signed_area] returns. *)
Definition exterior (r : ring) : Prop :=
  ∃ area, _signed_area r = Ok area ∧ fle fzero area = true.

Definition hole (r : ring) : Prop :=
  ∃ area, _signed_area r = Ok area ∧ flt area fzero = true.

(** The polygons of a grouping: every polygon is a first ring followed by
    holes, and every polygon after the first starts with an exterior
    ring. *)
Definition grouped (polygons : list (list ring)) : Prop :=
  Forall (λ p, p ≠ [] ∧ Forall hole (tail p)) polygons ∧
  Forall (λ p, ∃ r, head p = Some r ∧ exterior r) (tail polygons).

Definition groups (polygons : list (list ring)) (current : option (list ring))
  : list (list ring) :=
  polygons ++ match current with Some p => [p] | None => [] end.

(** ** The cells of a framebuffer *)

(** The character at column [x] of row [y], when there is one. *)
Definition cell (fb : Framebuffer) (x y : Z) : option char :=
  buffer fb !! Z.to_nat y ≫= λ row, row !! Z.to_nat x.

(** The shape [Framebuffer.__init__] sets up. *)
Definition grid_shape {A} (w h : Z) (grid : list (list A)) : Prop :=
  length grid = Z.to_nat h ∧ Forall (λ row, length row = Z.to_nat w) grid.

Definition fb_shape (w h : Z) (fb : Framebuffer) : Prop :=
  width fb = w ∧ height fb = h ∧ grid_shape w h (buffer fb) ∧ grid_shape w h (colors fb).

(** The edges [(ring[i], ring[i - 1])] the scan visits, in its order. *)
Definition edges (ring : list point) : list (point * point) :=
  zip ring (List.last ring (0, 0) :: ring).

(** The half-open rule of the scan. *)
Definition crosses (y : Z) (e : point * point) : bool :=
  let '((xi, yi), (xj, yj)) := e in
  ((yi <? y) && (y <=? yj)) || ((yj <? y) && (y <=? yi)).

(** The integer part of a float: its value [m * 2^e] as an exact fraction,
    the quotient taken toward zero. *)
Definition truncated (x : float) : Py.result Z :=
  match x with
  | S754_zero _ => Ok 0
  | S754_finite s m e =>
      let n := if s then Z.neg m else Z.pos m in
      Ok (if 0 <=? e then n * 2 ^ e else n ÷ 2 ^ (- e))
  | S754_infinity _ => Raise OverflowError
  | S754_nan => Raise ValueError
  end.

(** The abscissa [xi + (y - yi) / (yj - yi) * (xj - xi)] where an edge
    meets the scan line [y], in binary64: the quotient of the two ints,
    its product with [xj - xi] and the sum with [xi], each rounded to the
    nearest double; then the integer part of the sum. *)
Definition edge_crossing (y : Z) (e : point * point) : Py.result Z :=
  let '((xi, yi), (xj, yj)) := e in
  q ← int_truediv (y - yi) (yj - yi);
  d ← float_of_int (xj - xi);
  a ← float_of_int xi;
  truncated (SFadd 53 1024 a (SFmul 53 1024 q d)).

(** [x] lies in one of the spans [max(0, nodes[2k]) .. min(w - 1, nodes[2k+1])]. *)
Fixpoint covered (w : Z) (nodes : list Z) (x : Z) : bool :=
  match nodes with
  | a :: b :: nodes => (Z.max 0 a <=? x) && (x <=? Z.min (w - 1) b) || covered w nodes x
  | _ => false
  end.

(** The truncated crossings of the edges the half-open rule selects, in
    the order of the scan; the first conversion that raises ends it. *)
Fixpoint crossings (y : Z) (es : list (point * point)) : Py.result (list Z) :=
  match es with
  | [] => Ok []
  | e :: es =>
      if crosses y e
      then x ← edge_crossing y e; xs ← crossings y es; Ok (x :: xs)
      else crossings y es
  end.

(** ** The loop of [draw_line] *)

(** The state of the loop of [draw_line], [rx] and [ry] steps away from the
    end point. *)
Definition on_track (x1 y1 dx dy sx sy x y err rx ry : Z) : Prop :=
  0 ≤ rx ≤ dx ∧ 0 ≤ ry ≤ dy ∧ (sx = 1 ∨ sx = -1) ∧ (sy = 1 ∨ sy = -1) ∧
  x + sx * rx = x1 ∧ y + sy * ry = y1 ∧
  err = dx * (1 + dy - ry) - dy * (1 + dx - rx).

(** ** Line breaks *)

(** A character that does not break a line. *)
Definition clean (c : char) : Prop := c ≠ NEWLINE.

(** A framebuffer of the given size with no line break in a cell. *)
Definition fb_ok (w h : Z) (fb : Framebuffer) : Prop :=
  fb_shape w h fb ∧ Forall (Forall clean) (buffer fb).

Definition clean_text (s : str) : Prop := Forall clean s.

Definition clean_candidates (l : list candidate) : Prop :=
  Forall (λ c : candidate, clean_text c.2) l.

Definition clean_step (r : step (list candidate)) : Prop :=
  match r with Continue out | Break out => clean_candidates out end.

Section WithHost.
Context {H : Host}.

Definition state_ok (w h : Z) (st : render_state) : Prop :=
  fb_ok w h (rs_fb st) ∧
  match rs_candidates st with Some out => clean_candidates out | None => True end.

End WithHost.

(** ** The tile cache *)

(** The keys in the order of their last use, least recently used first:
    a use moves the key to the end. *)
Definition touch (order : list key) (k : key) : list key :=
  filter (λ x, x ≠ k) order ++ [k].

(** The recency order after the calls [ks], in the order they are made. *)
Definition recency_order (ks : list key) : list key := fold_left touch ks [].

(** The last [n] elements of a list. *)
Definition last_n {A} (n : nat) (l : list A) : list A := drop (length l - n) l.

(** The keys of the cache, in the order of the [OrderedDict]. *)
Definition keys (c : tile_cache) : list key := map fst c.

Section WithHost.
Context {H : Host}.

(** [get_decoded_tile] called on each key of [ks] in turn. *)
Definition gets (ks : list key) (st : store) : store :=
  fold_left (λ st '(z, x, y), (get_decoded_tile st z x y).2) ks st.

End WithHost.

(** The capacity, as a number of entries. *)
Definition cap : nat := Z.to_nat MAX_TILE_CACHE.

(** ** Panning *)

(** 1.0 and 0.0 *)
Definition one : float := S754_finite false 4503599627370496 (-52).
Definition zero : float := S754_zero false.

(** 8.4375 = 6 world pixels of 360/256 degrees each. *)
Definition lon_step : float := literal 84375 4.

(** ** The wire format *)

(** A varint is a number in base 128, least significant digit first: a
    byte of 128 or more says that another byte follows, the last byte is
    below 128. *)
Definition more_follows (b : byte) : Prop := 128 ≤ byte_val b.

Definition ends_varint (b : byte) : Prop := byte_val b < 128.

Definition base128 (bs : bytes) : Z :=
  fold_right (λ b acc, byte_val b mod 128 + 128 * acc) 0 bs.

(** The rings (or lines) of a decoded geometry. *)
Definition geometry_rings (g : geometry) : list ring :=
  match g with
  | LineString c => [c]
  | MultiLineString c => c
  | Polygon c => c
  | MultiPolygon c => concat c
  | _ => []
  end.

(** No ring that has been closed or left behind is empty. *)
Definition rings_ok (st : geom_state) : Prop := Forall (λ r : ring, r ≠ []) (g_rings st).

(** ** Street labels *)

(** What [collect_street_label_candidates] may add: a position on the
    screen, the priority of a road class, and a short non-empty ASCII
    text. *)
Definition candidate_ok (width height : Z) (c : candidate) : Prop :=
  let '(priority, sy, sx, text) := c in
  0 ≤ priority ≤ 6 ∧ 0 ≤ sx < width ∧ 0 ≤ sy < height ∧
  text ≠ [] ∧ len text ≤ MAX_LABEL_LEN ∧ Forall (λ ch, (ch < 128)%N) text.

(** The candidates held when a collecting loop ends, by [return] or not. *)
Definition step_out {A} (r : step A) : A :=
  match r with Continue out | Break out => out end.

(** The rings that the commands of a geometry describe, in order: what
    [_decode_geometry] returns for them when they are read as lines. *)
Definition rings_of (geom_data : bytes) (extent : Z) (y_coord_down : bool)
  : Py.result (list ring) :=
  g ← _decode_geometry geom_data _GEOM_LINESTRING extent y_coord_down;
  Ok (geometry_rings g).

(** The polygons of a [Polygon] or [MultiPolygon]. *)
Definition geometry_polygons (g : geometry) : list (list ring) :=
  match g with
  | Polygon c => [c]
  | MultiPolygon c => c
  | _ => []
  end.

(** ** Text *)

(** The line break, U+000A. *)
Definition line_break : N := 10%N.

(** The lines of a text: the pieces between its line breaks, one more
    than it has line breaks. *)
Fixpoint text_lines (s : str) : list str :=
  match s with
  | [] => [[]]
  | c :: s =>
      if bool_decide (c = line_break) then [] :: text_lines s
      else match text_lines s with
           | line :: lines => (c :: line) :: lines
           | [] => [[c]]
           end
  end.

(** A cache that holds empty tiles only. *)
Section WithHost.
Context {H : Host}.

Definition all_empty (st : store) : Prop :=
  Forall (λ e : key * tile, e.2 = ∅) (_tile_cache st).

End WithHost.

(** ** The claims as the specification words them *)

(** A failure inside one feature costs only that feature: every named
    layer of the tile that decodes on its own is in the result. *)
Definition isolates_feature_failures : Prop :=
  ∀ tile data fd data' name layer,
    yields tile 0 (_TILE_LAYER, 2, PyBytes data) →
    yields data 0 (_LAYER_FEATURE, 2, PyBytes fd) →
    is_ok (_decode_feature fd [] [] 4096 true) = false →
    yields tile 0 (_TILE_LAYER, 2, PyBytes data') →
    _decode_layer data' true = Ok (name, layer) →
    name ≠ [] →
    is_Some (tiles.decode_tile tile !! name).

(** An edge whose Y-range strictly crosses [y]. *)
Definition strictly_crosses (y : Z) (e : point * point) : bool :=
  let '((xi, yi), (xj, yj)) := e in
  ((yi <? y) && (y <? yj)) || ((yj <? y) && (y <? yi)).

(** The integer nearest to [n / d], and [n / d] truncated toward zero. *)
Definition nearest (n d : Z) : Z :=
  let '(n, d) := if d <? 0 then (- n, - d) else (n, d) in
  (2 * n + d) / (2 * d).

Definition toward_zero (n d : Z) : Z := Z.quot n d.

(** The abscissa [xi + (y - yi) / (yj - yi) * (xj - xi)] as an exact
    fraction, made an integer by [rnd]. *)
Definition claimed_crossing (rnd : Z → Z → Z) (y : Z) (e : point * point) : Z :=
  let '((xi, yi), (xj, yj)) := e in
  rnd (xi * (yj - yi) + (y - yi) * (xj - xi)) (yj - yi).

Definition claimed_nodes (rnd : Z → Z → Z) (y : Z) (rings : list (list point))
  : list Z :=
  sort_ints (map (claimed_crossing rnd y)
                 (List.filter (strictly_crosses y) (concat (map edges rings)))).

(** The fill of a fresh framebuffer, with the nodes as the claim words
    them. *)
Definition fills_as_claimed (rnd : Z → Z → Z) : Prop :=
  ∀ w h rings c fb' x y,
    Forall (λ ring : list point, 3 ≤ len ring) rings →
    rings ≠ [] →
    0 ≤ x < w → 0 ≤ y < h →
    min_list 0 (map snd (concat rings)) ≤ y ≤ max_list 0 (map snd (concat rings)) →
    draw_polygon_filled (render.new w h) rings c 0 = Ok fb' →
    cell fb' x y = Some (if covered w (claimed_nodes rnd y rings) x then c else SPACE).

Section WithLibm.
Context {L : Libm}.

(** [normalize_view] of the latitude, longitude and zoom of its own output
    returns that output again. *)
Definition idempotent_view : Prop :=
  ∀ lat lon zoom lat' lon' zoom' wx wy world_size,
    normalize_view lat lon zoom = Ok (lat', lon', zoom', wx, wy, world_size) →
    normalize_view lat' lon' zoom' = Ok (lat', lon', zoom', wx, wy, world_size).

End WithLibm.
Arguments idempotent_view : clear implicits.

(** Every hole that arrives when only holes have arrived opens a polygon
    of the result, whose first ring it is. *)
Definition leading_holes_open_polygons : Prop :=
  ∀ geom_data extent y_coord_down before h after g,
    rings_of geom_data extent y_coord_down = Ok (before ++ h :: after) →
    Forall hole before →
    hole h →
    _decode_geometry geom_data _GEOM_POLYGON extent y_coord_down = Ok g →
    ∃ p, p ∈ geometry_polygons g ∧ head p = Some h.

End props.

(** * Concrete inputs *)

Module examples.
Import mvt_decoder render cache view ascii_map props.

Definition B (l : list N) : bytes := map (λ n, default x00 (Byte.of_N n)) l.

(** A Feature message: type Point, geometry MoveTo(1, 1). *)
Definition good_feature : list N := [0x18; 0x01; 0x22; 0x03; 0x09; 0x02; 0x02]%N.

(** A Feature message cut inside the varint of its type field. *)
Definition bad_feature : list N := [0x18; 0x80]%N.

(** Layer "a" with the two features, layer "b" with the good one. *)
Definition layer_a : list N :=
  ([0x0a; 0x01; 0x61] ++ [0x12; 0x07] ++ good_feature ++ [0x12; 0x02] ++ bad_feature)%N.

Definition layer_b : list N := ([0x0a; 0x01; 0x62] ++ [0x12; 0x07] ++ good_feature)%N.

Definition bad_tile : list N := ([0x1a; 16] ++ layer_a ++ [0x1a; 12] ++ layer_b)%N.

(** A layer without a name field, and a tile holding it next to layer "b". *)
Definition unnamed_layer : list N := ([0x12; 0x07] ++ good_feature)%N.

Definition half_named_tile : list N :=
  ([0x1a; 9] ++ unnamed_layer ++ [0x1a; 12] ++ layer_b)%N.

Definition point_feature : feature := mk_feature (Point (1, 1)) ∅.

(** Two squares wound one way and a square wound the other way (Y down). *)
Definition outer_square : ring := [(0, 0); (8, 0); (8, 8); (0, 8); (0, 0)].
Definition inner_square : ring := [(2, 2); (2, 4); (4, 4); (4, 2); (2, 2)].
Definition other_square : ring := [(10, 0); (12, 0); (12, 2); (10, 2); (10, 0)].

(** A triangle and a square on a 6 x 5 framebuffer. *)
Definition triangle : list point := [(0, 0); (3, 4); (0, 4)].
Definition square : list point := [(0, 0); (3, 0); (3, 3); (0, 3)].
Definition hash : char := chr "#".

Definition filled_triangle : Framebuffer :=
  match draw_polygon_filled (render.new 6 5) [triangle] hash 0 with
  | Ok fb => fb
  | Raise _ => render.new 6 5
  end.

(** A C library that is exact where Annex F says so and crude elsewhere:
    [sin] and [atan] are the identity, [log] and [pow] are 0 and [exp]
    is 1. *)
#[local] Instance toy_libm : Libm := {|
  libm_sin := λ x, x;
  libm_log := λ _, S754_zero false;
  libm_exp := λ _, S754_finite false 4503599627370496 (-52);
  libm_atan := λ x, x;
  libm_pow := λ _ _, S754_zero false
|}.

(** A host whose fetch port always answers [None]. *)
#[local] Instance offline_host : Host := {|
  host_libm := toy_libm;
  world := unit;
  fetch_tile := λ w k, (None, w);
  repr_float := λ _, []
|}.

(** 520 distinct keys, then the 101st of them, which is still cached,
    asked for again. *)
Definition many_keys : list key :=
  map (λ i, (14, Z.of_nat i, 0)) (seq 0 520) ++ [(14, 100, 0)].

(** A tile whose layer "transportation_name" holds one minor road named
    "Main St", drawn from (0, 0) to (16, 16) on an extent of 4096. *)
Definition named_street_tile : tile :=
  <[lit "transportation_name" :=
      mk_layer 4096
        [mk_feature (LineString [(0, 0); (16, 16)])
           (<[lit "class" := PyStr (lit "minor")]>
              (<[lit "name" := PyStr (lit "Main St")]> ∅))]]> ∅.

(** [wx] of the view (0, 200, 0), normalized once and twice: 14.222...,
    four units in the last place apart. *)
Definition wx_first : float := S754_finite false 8006399337547552 (-49).
Definition wx_second : float := S754_finite false 8006399337547548 (-49).

(** The view (0, 200, 20), normalized once and twice. *)
Definition view_first : float * float * Z * float * float * Z :=
  (zero, fneg (round_m2e 160 0), 14,
   S754_finite false 8006399337547552 (-35), round_m2e 2097152 0, 4194304).

Definition view_second : float * float * Z * float * float * Z :=
  (zero, fneg (round_m2e 160 0), 14,
   S754_finite false 8006399337547548 (-35), round_m2e 2097152 0, 4194304).

(** A third square wound like [inner_square]. *)
Definition second_hole : ring := [(5, 5); (5, 7); (7, 7); (7, 5); (5, 5)].

(** The commands MoveTo, LineTo (3 points), ClosePath of the squares
    [outer_square], [inner_square], [other_square], and of the squares
    [inner_square], [second_hole], [outer_square], as the packed field of
    a feature. *)
Definition outer_inner_other : list N :=
  [9; 0; 0; 26; 16; 0; 0; 16; 15; 0; 15;
   9; 4; 11; 26; 0; 4; 4; 0; 0; 3; 15;
   9; 12; 3; 26; 4; 0; 0; 4; 3; 0; 15]%N.

Definition two_holes_outer : list N :=
  [9; 4; 4; 26; 0; 4; 4; 0; 0; 3; 15;
   9; 2; 6; 26; 0; 4; 4; 0; 0; 3; 15;
   9; 13; 9; 26; 16; 0; 0; 16; 15; 0; 15]%N.

(** A tile of two layers: "water" with a square over the whole extent of
    4096, and "transportation" with a motorway from (0, 32) to
    (4096, 32). *)
Definition water_tile : list N :=
  [26; 30; 10; 5; 119; 97; 116; 101; 114; 18; 18; 24; 3; 34; 14; 9; 0; 0; 26;
   128; 64; 0; 0; 128; 64; 255; 63; 0; 15; 40; 128; 32;
   26; 55; 10; 14; 116; 114; 97; 110; 115; 112; 111; 114; 116; 97; 116; 105;
   111; 110; 18; 15; 18; 2; 0; 0; 24; 2; 34; 7; 9; 0; 64; 10; 128; 64; 0;
   26; 5; 99; 108; 97; 115; 115; 34; 10; 10; 8; 109; 111; 116; 111; 114; 119;
   97; 121; 40; 128; 32]%N.

(** A host whose fetch port answers every key with that tile. *)
#[local] Instance water_host : Host := {|
  host_libm := toy_libm;
  world := unit;
  fetch_tile := λ w k, (Some (B water_tile), w);
  repr_float := λ _, []
|}.

Definition water_store : store (H := water_host) :=
  mk_store (H := water_host) [] tt.

Definition water_render : Py.result (render_result * store) :=
  render_ascii (H := water_host) water_store zero zero 13 30 12 (literal 6 1) false.

Definition water_result : render_result * store :=
  match water_render with
  | Ok r => r
  | Raise _ => (mk_render_result [] zero zero 0 0 0 zero, water_store)
  end.

(** With the fetch port offline, a render of 30 x 12 cells. *)
Definition empty_store : store (H := offline_host) := mk_store (H := offline_host) [] tt.

Definition blank_render : Py.result (render_result * store (H := offline_host)) :=
  render_ascii (H := offline_host) empty_store zero zero 13 30 12 (literal 6 1) true.

Definition blank_result : render_result * store (H := offline_host) :=
  match blank_render with
  | Ok r => r
  | Raise _ => (mk_render_result [] zero zero 0 0 0 zero, empty_store)
  end.

End examples.

(** * Proofs *)

Set Warnings "-clear-no-such-hyp".

Module wire.
Import mvt_decoder render cache view ascii_map props.

Lemma _read_varint_loop_advances rest pos result shift v pos' :
  _read_varint_loop rest pos result shift = Ok (v, pos') →
  pos < pos' ≤ pos + len rest.
Proof.
  revert pos result shift. unfold len.
  induction rest as [|b rest IH]; intros pos result shift; simpl; [done|].
  destruct (_ =? 0).
  - intros [= <- <-]. lia.
  - intros Hrun. apply IH in Hrun. lia.
Qed.

Lemma _read_varint_advances buf pos v pos' :
  0 ≤ pos → _read_varint buf pos = Ok (v, pos') → pos < pos' ≤ len buf.
Proof.
  intros Hpos. unfold _read_varint. destruct (Z.leb_spec (len buf) pos); [done|].
  intros Hrun. apply _read_varint_loop_advances in Hrun. unfold len in *.
  rewrite length_drop in Hrun. lia.
Qed.

Lemma _read_varint_loop_nonneg rest pos result shift v pos' :
  0 ≤ result → 0 ≤ shift →
  _read_varint_loop rest pos result shift = Ok (v, pos') → 0 ≤ v.
Proof.
  revert pos result shift.
  induction rest as [|b rest IH]; intros pos result shift Hr Hs; simpl; [done|].
  assert (0 ≤ Z.lor result (Z.shiftl (Z.land (byte_val b) 127) shift)) as Hacc.
  { apply Z.lor_nonneg. split; [done|]. apply Z.shiftl_nonneg.
    apply Z.land_nonneg. lia. }
  destruct (_ =? 0).
  - intros [= <- <-]. done.
  - apply IH; [done|lia].
Qed.

Lemma _read_varint_nonneg buf pos v pos' :
  _read_varint buf pos = Ok (v, pos') → 0 ≤ v.
Proof.
  unfold _read_varint. destruct (_ <=? _); [done|].
  by apply _read_varint_loop_nonneg.
Qed.

Lemma _parse_message_next_advances buf pos t pos' :
  0 ≤ pos →
  _parse_message_next buf pos (len buf) = Ok (Some (t, pos')) →
  pos < pos' ∧ pos < len buf.
Proof.
  intros Hpos. unfold _parse_message_next.
  destruct (Z.ltb_spec pos (len buf)) as [Hlt|]; [|done].
  destruct (_read_varint buf pos) as [[tag p1]|] eqn:Htag; [|done]. simpl.
  apply _read_varint_advances in Htag; [|done].
  repeat match goal with |- context [if ?c then _ else _] => destruct c end;
    try done.
  - destruct (_read_varint buf p1) as [[v p2]|] eqn:Hv; [|done]. simpl.
    apply _read_varint_advances in Hv; [|lia]. intros [= <- <-]. lia.
  - destruct (_read_varint buf p1) as [[v p2]|] eqn:Hv; [|done]. simpl.
    pose proof (_read_varint_nonneg _ _ _ _ Hv) as Hlen.
    apply _read_varint_advances in Hv; [|lia].
    intros [= <- <-]. split; [|done].
    lia.
  - destruct (unpack_from _ _ _ _ _); [|done]. simpl. intros [= <- <-]. lia.
  - destruct (unpack_from _ _ _ _ _); [|done]. simpl. intros [= <- <-]. lia.
Qed.

Section ForFields.
Context {S : Type} (body : S → Z → Z → pyval → Py.result S).

(** Fuel above the number of bytes left is never used up. *)
Lemma for_fields_from_fuel fuel fuel' buf pos s :
  0 ≤ pos →
  (remaining buf pos < fuel)%nat → (remaining buf pos < fuel')%nat →
  for_fields_from fuel buf pos body s = for_fields_from fuel' buf pos body s.
Proof.
  revert fuel' pos s. induction fuel as [|fuel IH]; intros fuel' pos s Hpos Hf Hf'; [lia|].
  destruct fuel' as [|fuel']; [lia|]. simpl.
  destruct (_parse_message_next buf pos (len buf)) as [[[[[f w] v] pos']|]|] eqn:Hn;
    simpl; try done.
  apply _parse_message_next_advances in Hn as [Hadv Hlt]; [|done].
  destruct (body s f w v) as [s'|]; simpl; [|done].
  apply IH; unfold remaining in *; lia.
Qed.

(** A property the body keeps holds of the final state. *)
Lemma for_fields_from_inv (P : S → Prop) fuel buf pos s s' :
  (∀ s f w v s', P s → body s f w v = Ok s' → P s') →
  P s → for_fields_from fuel buf pos body s = Ok s' → P s'.
Proof.
  intros Hbody. revert pos s. induction fuel as [|fuel IH]; intros pos s HP; simpl.
  - by intros [= <-].
  - destruct (_parse_message_next buf pos (len buf)) as [[[[[f w] v] pos']|]|];
      simpl; try done; [|by intros [= <-]].
    destruct (body s f w v) as [s1|] eqn:Hb; simpl; [|done]. eauto.
Qed.

(** A tuple on which the body raises makes the whole loop raise. *)
Lemma for_fields_from_raises fuel buf pos t s :
  yields buf pos t → 0 ≤ pos → (remaining buf pos < fuel)%nat →
  (∀ s, is_ok (body s t.1.1 t.1.2 t.2) = false) →
  is_ok (for_fields_from fuel buf pos body s) = false.
Proof.
  intros Hy. revert fuel s.
  induction Hy as [pos f w v pos' Hn|pos f w v pos' t Hn Hy IH];
    intros fuel s Hpos Hfuel Hbody; (destruct fuel as [|fuel]; [lia|]);
    simpl; rewrite Hn; simpl.
  - specialize (Hbody s). simpl in Hbody. by destruct (body s f w v).
  - apply _parse_message_next_advances in Hn as [Hadv Hlt]; [|done].
    destruct (body s f w v) as [s1|]; simpl; [|done].
    apply IH; [lia| unfold remaining in *; lia | done].
Qed.

(** A property the body establishes at a yielded tuple and keeps afterwards
    holds of the final state. *)
Lemma for_fields_from_records (Q : S → Prop) fuel buf pos t s s' :
  yields buf pos t → 0 ≤ pos → (remaining buf pos < fuel)%nat →
  (∀ s s', body s t.1.1 t.1.2 t.2 = Ok s' → Q s') →
  (∀ s f w v s', Q s → body s f w v = Ok s' → Q s') →
  for_fields_from fuel buf pos body s = Ok s' → Q s'.
Proof.
  intros Hy. revert fuel s.
  induction Hy as [pos f w v pos' Hn|pos f w v pos' t Hn Hy IH];
    intros fuel s Hpos Hfuel Hset Hkeep; (destruct fuel as [|fuel]; [lia|]);
    simpl; rewrite Hn; simpl.
  - destruct (body s f w v) as [s1|] eqn:Hb; simpl; [|done].
    apply for_fields_from_inv with (P := Q); [done|]. eapply Hset, Hb.
  - apply _parse_message_next_advances in Hn as [Hadv Hlt]; [|done].
    destruct (body s f w v) as [s1|]; simpl; [|done].
    apply IH; [lia| unfold remaining in *; lia | done | done].
Qed.

End ForFields.

Lemma remaining_start buf : (remaining buf 0 < Datatypes.S (length buf))%nat.
Proof. unfold remaining, len. lia. Qed.

(** *** Unnamed layers *)

Lemma decode_body_no_empty_name (y_coord_down : bool) (result : gmap str layer)
    (f w : Z) (v : pyval) (result' : gmap str layer) :
  result !! ([] : str) = None →
  decode_body y_coord_down result f w v = Ok result' →
  result' !! ([] : str) = None.
Proof.
  intros Hnone. unfold decode_body. destruct (_ && _); [|by intros [= <-]].
  destruct (_decode_layer _ _) as [[name layer]|]; simpl; [|done].
  destruct name as [|c name]; simpl; intros [= <-]; [done|].
  by rewrite lookup_insert_ne.
Qed.

(** Claim C9.  Whatever the tile bytes, the mapping [decode] returns has no
    entry under the empty string: a Layer message whose name is absent or
    empty is dropped although it decoded; the same holds of what
    [decode_tile] returns. *)
Theorem decode_drops_unnamed_layers (tile_bytes : bytes) (y_coord_down : bool)
    (m : gmap str layer) :
  decode tile_bytes y_coord_down = Ok m →
  m !! ([] : str) = None ∧ tiles.decode_tile tile_bytes !! ([] : str) = None.
Proof.
  assert (∀ y m', decode tile_bytes y = Ok m' → m' !! ([] : str) = None) as Hdec.
  { intros y m'. unfold decode, for_fields.
    apply for_fields_from_inv with (P := λ r, r !! ([] : str) = None); [|done].
    intros s f w v s' Hs Hb. eapply decode_body_no_empty_name; eauto. }
  intros Hm. split; [eauto|].
  unfold tiles.decode_tile. destruct (is_empty tile_bytes); [done|].
  destruct (decode tile_bytes true) eqn:Hd; [eauto|done].
Qed.

(** The tile with an unnamed layer and layer "b" decodes to layer "b"
    alone. *)
Lemma decode_drops_unnamed_layers_witness :
  decode (examples.B examples.half_named_tile) true
    = Ok {[ lit "b" := mk_layer 4096 [examples.point_feature] ]} ∧
  ({[ lit "b" := mk_layer 4096 [examples.point_feature] ]} : gmap str layer)
    !! ([] : str) = None ∧
  tiles.decode_tile (examples.B examples.half_named_tile) !! ([] : str) = None.
Proof.
  assert (decode (examples.B examples.half_named_tile) true
          = Ok {[ lit "b" := mk_layer 4096 [examples.point_feature] ]}) as Hd
    by (vm_compute; reflexivity).
  split; [exact Hd|].
  exact (decode_drops_unnamed_layers _ _ _ Hd).
Defined.

(** *** A failing feature *)

Lemma decode_features_raises fds fd keys values extent y :
  fd ∈ fds →
  is_ok (_decode_feature fd keys values extent y) = false →
  is_ok (decode_features fds keys values extent y) = false.
Proof.
  induction fds as [|fd0 fds IH]; [set_solver|].
  intros [->|Hin]%elem_of_cons Hbad; simpl.
  - by destruct (_decode_feature _ keys values extent y).
  - destruct (_decode_feature fd0 keys values extent y); simpl; [|done].
    specialize (IH Hin Hbad). by destruct (decode_features fds keys values extent y).
Qed.

(** With [y_coord_down] set, whether a feature decodes does not depend on
    the layer's keys, values and extent. *)
Lemma _decode_geometry_ok_extent geom_data geom_type extent extent' :
  is_ok (_decode_geometry geom_data geom_type extent true)
  = is_ok (_decode_geometry geom_data geom_type extent' true).
Proof. done. Qed.

Lemma _decode_feature_ok_tables fd keys values extent keys' values' extent' :
  is_ok (_decode_feature fd keys values extent true)
  = is_ok (_decode_feature fd keys' values' extent' true).
Proof.
  unfold _decode_feature.
  destruct (for_fields fd _ _) as [[[geom_type geom_data] tags_raw]|]; simpl; [|done].
  pose proof (_decode_geometry_ok_extent geom_data geom_type extent extent') as Hg.
  destruct (is_empty tags_raw); simpl;
    [|destruct (_decode_packed_uint32 tags_raw); simpl; [|done]];
    destruct (_decode_geometry geom_data geom_type extent true);
    destruct (_decode_geometry geom_data geom_type extent' true); done.
Qed.

Lemma _decode_layer_body_keeps_feature fd st f w v st' :
  fd ∈ ls_feature_datas st →
  _decode_layer_body st f w v = Ok st' →
  fd ∈ ls_feature_datas st'.
Proof.
  intros Hin. unfold _decode_layer_body. destruct st as [name keys values extent fds].
  simpl in *.
  repeat match goal with |- context [if ?c then _ else _] => destruct c end;
    try (intros [= <-]; simpl; set_solver).
  destruct (_decode_value _); simpl; [|done]. intros [= <-]. done.
Qed.

Lemma _decode_layer_raises data fd keys values extent :
  yields data 0 (_LAYER_FEATURE, 2, PyBytes fd) →
  is_ok (_decode_feature fd keys values extent true) = false →
  is_ok (_decode_layer data true) = false.
Proof.
  intros Hy Hbad. unfold _decode_layer.
  destruct (for_fields data _ _) as [st|] eqn:Hst; simpl; [|done].
  assert (fd ∈ ls_feature_datas st) as Hin.
  { unfold for_fields in Hst.
    eapply (for_fields_from_records _ (λ st, fd ∈ ls_feature_datas st)) in Hst;
      [done|exact Hy|done|apply remaining_start| |].
    - intros [name ks vs ext fds] s'. simpl. intros [= <-]. simpl. set_solver.
    - intros. by eapply _decode_layer_body_keeps_feature. }
  rewrite (_decode_feature_ok_tables fd _ _ _ (ls_keys st) (ls_values st) (ls_extent st))
    in Hbad.
  pose proof (decode_features_raises _ _ _ _ _ _ Hin Hbad) as Hf.
  by destruct (decode_features _ _ _ _ _).
Qed.

(** Claim C1, amended.  When a feature of a layer of the tile fails to
    decode, nothing skips it: the exception leaves [_decode_layer] and
    [decode], and [decode_tile] returns the empty layer map. *)
Theorem feature_failure_empties_tile tile data fd keys values extent :
  yields tile 0 (_TILE_LAYER, 2, PyBytes data) →
  yields data 0 (_LAYER_FEATURE, 2, PyBytes fd) →
  is_ok (_decode_feature fd keys values extent true) = false →
  is_ok (decode tile true) = false ∧ tiles.decode_tile tile = ∅.
Proof.
  intros Hlayer Hfeature Hbad.
  assert (is_ok (decode tile true) = false) as Hdec.
  { unfold decode, for_fields.
    apply for_fields_from_raises with (t := (_TILE_LAYER, 2, PyBytes data));
      [done|done|apply remaining_start|].
    intros s. simpl. unfold decode_body. simpl.
    pose proof (_decode_layer_raises _ _ _ _ _ Hfeature Hbad) as Hl.
    by destruct (_decode_layer data true). }
  split; [done|]. unfold tiles.decode_tile.
  destruct (is_empty tile); [done|]. by destruct (decode tile true).
Qed.

Lemma bad_tile_yields_layer_a :
  yields (examples.B examples.bad_tile) 0
         (_TILE_LAYER, 2, PyBytes (examples.B examples.layer_a)).
Proof. eapply yields_now. vm_compute. reflexivity. Defined.

Lemma bad_tile_yields_layer_b :
  yields (examples.B examples.bad_tile) 0
         (_TILE_LAYER, 2, PyBytes (examples.B examples.layer_b)).
Proof.
  eapply yields_later; [vm_compute; reflexivity|].
  eapply yields_now. vm_compute. reflexivity.
Defined.

Lemma layer_a_yields_bad_feature :
  yields (examples.B examples.layer_a) 0
         (_LAYER_FEATURE, 2, PyBytes (examples.B examples.bad_feature)).
Proof.
  eapply yields_later; [vm_compute; reflexivity|].
  eapply yields_later; [vm_compute; reflexivity|].
  eapply yields_now. vm_compute. reflexivity.
Defined.

Lemma feature_failure_empties_tile_witness :
  is_ok (_decode_feature (examples.B examples.bad_feature) [] [] 4096 true) = false ∧
  is_ok (decode (examples.B examples.bad_tile) true) = false ∧
  tiles.decode_tile (examples.B examples.bad_tile) = ∅.
Proof.
  split; [vm_compute; reflexivity|].
  apply (feature_failure_empties_tile _ _ _ [] [] 4096
           bad_tile_yields_layer_a layer_a_yields_bad_feature).
  vm_compute. reflexivity.
Defined.

(** Claim C1 as worded fails: layer "b" decodes on its own, but the
    truncated feature of layer "a" empties the whole tile. *)
Lemma feature_failure_is_not_isolated : ¬ isolates_feature_failures.
Proof.
  intros Hclaim.
  assert (is_Some (tiles.decode_tile (examples.B examples.bad_tile) !! lit "b")) as [l Hl].
  { apply (Hclaim _ _ _ (examples.B examples.layer_b) (lit "b")
             (mk_layer 4096 [examples.point_feature])
             bad_tile_yields_layer_a layer_a_yields_bad_feature);
      [vm_compute; reflexivity|apply bad_tile_yields_layer_b
      |vm_compute; reflexivity|done]. }
  vm_compute in Hl. discriminate Hl.
Qed.

(** *** The other loops never use up their fuel *)

Lemma _decode_packed_uint32_loop_fuel fuel fuel' buf pos values :
  0 ≤ pos →
  (remaining buf pos < fuel)%nat → (remaining buf pos < fuel')%nat →
  _decode_packed_uint32_loop fuel buf pos values
  = _decode_packed_uint32_loop fuel' buf pos values.
Proof.
  revert fuel' pos values.
  induction fuel as [|fuel IH]; intros fuel' pos values Hpos Hf Hf'; [lia|].
  destruct fuel' as [|fuel']; [lia|]. simpl.
  destruct (Z.ltb_spec pos (len buf)) as [Hlt|]; [|done].
  destruct (_read_varint buf pos) as [[v pos']|] eqn:Hv; simpl; [|done].
  apply _read_varint_advances in Hv; [|done].
  apply IH; unfold remaining in *; lia.
Qed.

Lemma _decode_value_loop_fuel fuel fuel' data pos :
  0 ≤ pos →
  (remaining data pos < fuel)%nat → (remaining data pos < fuel')%nat →
  _decode_value_loop fuel data pos = _decode_value_loop fuel' data pos.
Proof.
  revert fuel' pos. induction fuel as [|fuel IH]; intros fuel' pos Hpos Hf Hf'; [lia|].
  destruct fuel' as [|fuel']; [lia|]. simpl.
  destruct (_parse_message_next data pos (len data)) as [[[[[f w] v] pos']|]|] eqn:Hn;
    simpl; try done.
  apply _parse_message_next_advances in Hn as [Hadv Hlt]; [|done].
  repeat match goal with |- context [if ?c then _ else _] => destruct c end; try done.
  apply IH; unfold remaining in *; lia.
Qed.

Lemma for_range_idx n body st :
  (∀ s s', body s = Continue s' ∨ body s = Break s' → g_idx s ≤ g_idx s') →
  g_idx st ≤ g_idx (for_range n body st).
Proof.
  intros Hbody. revert st. induction n as [|n IH]; intros st; simpl; [lia|].
  destruct (body st) as [s'|s'] eqn:Hb.
  - etrans; [|apply IH]. apply (Hbody st s'). auto.
  - apply (Hbody st s'). auto.
Qed.

Lemma move_to_body_idx commands s s' :
  move_to_body commands s = Continue s' ∨ move_to_body commands s = Break s' →
  g_idx s ≤ g_idx s'.
Proof.
  unfold move_to_body. destruct (_ <=? _); intros [[= <-]|[= <-]]; simpl; lia.
Qed.

Lemma line_to_body_idx commands s s' :
  line_to_body commands s = Continue s' ∨ line_to_body commands s = Break s' →
  g_idx s ≤ g_idx s'.
Proof.
  unfold line_to_body. destruct (_ <=? _); intros [[= <-]|[= <-]]; simpl; lia.
Qed.

Lemma _decode_geometry_loop_fuel fuel fuel' commands st :
  (Z.to_nat (len commands - g_idx st) ≤ fuel)%nat →
  (Z.to_nat (len commands - g_idx st) ≤ fuel')%nat →
  _decode_geometry_loop fuel commands st = _decode_geometry_loop fuel' commands st.
Proof.
  revert fuel' st. induction fuel as [|fuel IH]; intros fuel' st Hf Hf'.
  - destruct fuel' as [|fuel']; [done|]. simpl.
    destruct (Z.ltb_spec (g_idx st) (len commands)); [lia|done].
  - destruct fuel' as [|fuel'].
    { simpl. destruct (Z.ltb_spec (g_idx st) (len commands)); [lia|done]. }
    simpl. destruct (Z.ltb_spec (g_idx st) (len commands)) as [Hlt|]; [|done].
    match goal with |- _decode_geometry_loop fuel commands ?s = _ =>
      assert (g_idx st + 1 ≤ g_idx s) as Hidx end.
    { repeat match goal with |- context [if ?c then _ else _] => destruct c end.
      - etrans; [|apply for_range_idx, move_to_body_idx]. simpl. lia.
      - etrans; [|apply for_range_idx, line_to_body_idx]. simpl. lia.
      - unfold close_path. simpl. destruct (is_empty _); simpl; lia.
      - simpl. lia. }
    apply IH; lia.
Qed.

(** What the generator yields as [val]: an int for wire type 0, bytes for
    wire type 2. *)
Lemma _parse_message_next_val buf pos end_ field wtype val pos' :
  _parse_message_next buf pos end_ = Ok (Some (field, wtype, val, pos')) →
  (wtype = 0 → ∃ n, val = PyInt n) ∧ (wtype = 2 → ∃ b, val = PyBytes b).
Proof.
  unfold _parse_message_next. destruct (pos <? end_); [|done].
  destruct (_read_varint buf pos) as [[tag p1]|]; simpl; [|done].
  destruct (Z.eqb_spec (Z.land tag 7) 0) as [H0|H0].
  { destruct (_read_varint buf p1) as [[v p2]|]; simpl; [|done].
    intros [= <- <- <- <-]. split; [eauto|]. rewrite H0. done. }
  destruct (Z.eqb_spec (Z.land tag 7) 2) as [H2|H2].
  { destruct (_read_varint buf p1) as [[v p2]|]; simpl; [|done].
    intros [= <- <- <- <-]. split; [|eauto]. rewrite H2. done. }
  destruct (Z.land tag 7 =? 5).
  { destruct (unpack_from _ _ _ _ _); simpl; [|done]. intros [= <- <- <- <-]. done. }
  destruct (Z.land tag 7 =? 1); [|done].
  destruct (unpack_from _ _ _ _ _); simpl; [|done]. intros [= <- <- <- <-]. done.
Qed.

End wire.


Module grouping.
Import mvt_decoder render cache view ascii_map props.

(** *** Rounding never produces a NaN *)

Lemma shr_1_nonneg mrs : 0 ≤ shr_m mrs → 0 ≤ shr_m (shr_1 mrs).
Proof. destruct mrs as [[|[p|p|]|p] r s]; simpl; lia. Qed.

Lemma iter_pos_shr_1_nonneg p mrs :
  0 ≤ shr_m mrs → 0 ≤ shr_m (SpecFloat.iter_pos shr_1 p mrs).
Proof.
  revert mrs. induction p as [p IH|p IH|]; intros mrs Hm; simpl.
  - apply IH, IH. by apply shr_1_nonneg.
  - by apply IH, IH.
  - by apply shr_1_nonneg.
Qed.

Lemma shr_fexp_nonneg m e l :
  0 ≤ m → 0 ≤ shr_m (shr_fexp prec emax m e l).1.
Proof.
  intros Hm. unfold shr_fexp, shr.
  assert (0 ≤ shr_m (shr_record_of_loc m l)) as Hr
    by (destruct l as [|[]]; done).
  destruct (_ - e) as [|p|p]; simpl; try done.
  by apply iter_pos_shr_1_nonneg.
Qed.

Lemma round_nearest_even_nonneg m l : 0 ≤ m → 0 ≤ round_nearest_even m l.
Proof. intros Hm. destruct l as [|[]]; simpl; try done; [destruct (Z.even m)|]; lia. Qed.

Lemma binary_round_aux_not_nan s m e l :
  0 ≤ m → binary_round_aux prec emax s m e l ≠ S754_nan.
Proof.
  intros Hm. unfold binary_round_aux.
  pose proof (shr_fexp_nonneg m e l Hm) as H1.
  destruct (shr_fexp prec emax m e l) as [mrs' e']. simpl in H1.
  pose proof (shr_fexp_nonneg _ e' loc_Exact
                (round_nearest_even_nonneg _ (loc_of_shr_record mrs') H1)) as H2.
  destruct (shr_fexp prec emax _ e' loc_Exact) as [mrs'' e'']. simpl in H2.
  destruct (shr_m mrs'') as [|p|p]; [done| |lia].
  by destruct (_ <=? _).
Qed.

Lemma float_of_int_finite n f :
  float_of_int n = Ok f → ∃ s, f = S754_zero s ∨ ∃ m e, f = S754_finite s m e.
Proof.
  unfold float_of_int. destruct (round_m2e n 0) as [s|s| |s m e]; simpl; try done;
    intros [= <-]; exists s; eauto.
Qed.

Lemma signed_area_not_nan r area : _signed_area r = Ok area → area ≠ S754_nan.
Proof.
  unfold _signed_area. destruct (float_of_int (shoelace r)) as [f|] eqn:Hf; [|done].
  simpl. apply float_of_int_finite in Hf as (s & [->|(m & e & ->)]).
  - unfold fdiv. intros [= <-]. done.
  - unfold fdiv. simpl. intros [= <-]. unfold fdiv_ieee, SFdiv, ftwo. simpl.
    match goal with |- context [SFdiv_core_binary ?p ?e ?a ?b ?c ?d] =>
      pose proof (eq_refl (SFdiv_core_binary p e a b c d)) as Hq;
      unfold SFdiv_core_binary at 2 in Hq;
      destruct (SFdiv_core_binary p e a b c d) as [[mz ez] lz] end.
    apply binary_round_aux_not_nan.
    cbv zeta in Hq.
    match type of Hq with context [Z.div_eucl ?a ?b] =>
      pose proof (Z_div_mod a b ltac:(done)) as Hd;
      assert (0 ≤ a) as Ha;
      [|destruct (Z.div_eucl a b) as [q rr]; injection Hq as <- _ _; nia] end.
    match goal with |- 0 ≤ match ?s with _ => _ end => destruct s end; try done.
    apply Z.shiftl_nonneg. done.
Qed.

Lemma area_sign r area :
  _signed_area r = Ok area → fle fzero area = false → flt area fzero = true.
Proof.
  intros Ha Hle. pose proof (signed_area_not_nan r area Ha) as Hn.
  destruct area as [s|[]| |[] m e]; try (by destruct Hn);
    cbv in Hle |- *; congruence.
Qed.

Lemma exterior_not_hole r : exterior r → hole r → False.
Proof.
  intros (a & Ha & Hle) (a' & Ha' & Hlt).
  rewrite Ha in Ha'. injection Ha' as <-.
  destruct a as [s|[]| |[] m e]; cbv in Hle, Hlt; congruence.
Qed.

(** *** The grouping loop *)

Lemma grouped_nil : grouped [].
Proof. split; constructor. Qed.

Lemma grouped_open polygons r :
  grouped polygons → exterior r ∨ polygons = [] → grouped (polygons ++ [[r]]).
Proof.
  intros [H1 H2] Hr. split.
  - apply Forall_app. split; [done|]. repeat constructor. done.
  - destruct polygons as [|p polygons]; simpl in *; [constructor|].
    apply Forall_app. split; [done|]. repeat constructor.
    destruct Hr as [Hr|]; [|done]. exists r. done.
Qed.

Lemma grouped_extend polygons p r :
  grouped (polygons ++ [p]) → hole r → grouped (polygons ++ [p ++ [r]]).
Proof.
  intros [H1 H2] Hr.
  apply Forall_app in H1 as [H1 [[Hp Hh] _]%Forall_cons].
  destruct p as [|r0 p]; [done|]. split.
  - apply Forall_app. split; [done|]. repeat constructor; [done|].
    simpl in *. apply Forall_app. split; [done|]. by repeat constructor.
  - destruct polygons as [|q polygons]; simpl in *; [constructor|].
    apply Forall_app in H2 as [H2 [H3 _]%Forall_cons].
    apply Forall_app. split; [done|]. repeat constructor. done.
Qed.

Lemma group_rings_spec rings polygons current polygons' current' :
  group_rings rings polygons current = Ok (polygons', current') →
  (current = None → polygons = []) →
  grouped (groups polygons current) →
  grouped (groups polygons' current') ∧
  concat (groups polygons' current') = concat (groups polygons current) ++ rings.
Proof.
  revert polygons current.
  induction rings as [|r rings IH]; intros polygons current Hrun Hnone Hg.
  - simpl in Hrun. injection Hrun as <- <-. rewrite app_nil_r. auto.
  - simpl in Hrun. destruct (_signed_area r) as [area|] eqn:Ha; [|done].
    simpl in Hrun. destruct (fle fzero area) eqn:Hle.
    + apply IH in Hrun as (Hg' & Hc).
      * split; [done|].
        rewrite Hc. destruct current as [p|]; unfold groups; simpl.
        -- rewrite !concat_app. simpl. rewrite !app_nil_r, <- !(assoc (++)). done.
        -- rewrite (Hnone eq_refl). done.
      * done.
      * assert (exterior r) as Hext by (exists area; done).
        destruct current as [p|]; unfold groups in *; simpl in *.
        -- apply grouped_open; auto.
        -- rewrite app_nil_r in Hg. apply grouped_open; auto.
    + assert (hole r) as Hh by (exists area; eauto using area_sign).
      destruct current as [p|].
      * apply IH in Hrun as (Hg' & Hc).
        -- split; [done|].
           rewrite Hc. unfold groups; simpl. rewrite !concat_app. simpl.
           rewrite !app_nil_r, <- !(assoc (++)). done.
        -- done.
        -- unfold groups in *. simpl in *. by apply grouped_extend.
      * rewrite (Hnone eq_refl) in *. apply IH in Hrun as (Hg' & Hc).
        -- split; [done|]. rewrite Hc. done.
        -- done.
        -- apply (grouped_open [] r); auto.
Qed.

Lemma polygons_of_rings_spec rings polygons :
  polygons_of_rings rings = Ok polygons →
  grouped polygons ∧ concat polygons = rings.
Proof.
  unfold polygons_of_rings. intros Hrun.
  destruct (group_rings rings [] None) as [[ps cur]|] eqn:Hg; [|done].
  simpl in Hrun. injection Hrun as <-.
  apply group_rings_spec in Hg as (Hg & Hc); [|done|apply grouped_nil].
  unfold groups in *. simpl in Hc. destruct cur; rewrite ?app_nil_r in *; done.
Qed.

(** The grouping fails only when a signed area does. *)
Lemma group_rings_ok rings polygons current :
  Forall (λ r, is_ok (_signed_area r) = true) rings →
  is_ok (group_rings rings polygons current) = true.
Proof.
  revert polygons current. induction rings as [|r rings IH]; intros ps cur Hall; [done|].
  apply Forall_cons in Hall as [Hr Hall]. simpl.
  destruct (_signed_area r) as [area|]; [|done]. simpl.
  destruct (fle fzero area); [by apply IH|]. destruct cur; by apply IH.
Qed.

(** The geometry type 3 groups the rings that the type 2 returns as
    lines. *)
Lemma _decode_geometry_polygon geom_data extent y_coord_down rings :
  rings_of geom_data extent y_coord_down = Ok rings →
  _decode_geometry geom_data _GEOM_POLYGON extent y_coord_down
  = (polygons ← polygons_of_rings rings; Ok (polygon_geometry polygons)).
Proof.
  unfold rings_of, _decode_geometry.
  destruct (_decode_packed_uint32 geom_data) as [commands|]; [|done]. simpl.
  match goal with |- context [polygons_of_rings ?r] => generalize r end.
  intros rings0 Hr.
  assert (rings0 = rings) as ->; [|done].
  destruct rings0 as [|r [|r' rings0]]; simpl in Hr; by injection Hr as <-.
Qed.

Lemma polygons_of_rings_ok rings :
  Forall (λ r, exterior r ∨ hole r) rings →
  ∃ polygons, polygons_of_rings rings = Ok polygons.
Proof.
  intros Hall. unfold polygons_of_rings.
  pose proof (group_rings_ok rings [] None) as Hok.
  destruct (group_rings rings [] None) as [[ps cur]|]; simpl; [eauto|].
  discriminate Hok. eapply Forall_impl; [exact Hall|].
  intros r [(a & -> & _)|(a & -> & _)]; done.
Qed.

Lemma polygon_geometry_emitted polygons :
  polygon_geometry polygons
  = match polygons with [p] => Polygon p | _ => MultiPolygon polygons end.
Proof. by destruct polygons as [|p [|q polygons]]. Qed.

(** Holes followed by nothing or by an exterior ring can be read off a
    list of rings in one way only. *)
Lemma leading_holes_unique (l1 l2 r1 r2 : list ring) :
  l1 ++ r1 = l2 ++ r2 →
  Forall hole l1 → Forall hole l2 →
  (∀ r, head r1 = Some r → exterior r) →
  (∀ r, head r2 = Some r → exterior r) →
  l1 = l2 ∧ r1 = r2.
Proof.
  revert l2. induction l1 as [|a l1 IH]; intros [|b l2] Heq H1 H2 Hr1 Hr2;
    simpl in Heq.
  - done.
  - subst r1. apply Forall_cons in H2 as [Hb _].
    destruct (exterior_not_hole b); [by apply Hr1|done].
  - subst r2. apply Forall_cons in H1 as [Ha _].
    destruct (exterior_not_hole a); [by apply Hr2|done].
  - injection Heq as <- Heq.
    apply Forall_cons in H1 as [_ H1]. apply Forall_cons in H2 as [_ H2].
    destruct (IH l2 Heq H1 H2 Hr1 Hr2) as [-> ->]. done.
Qed.

(** Claim C6.  When the signed area of every ring of a geometry is
    computed, [_decode_geometry] for the type 3 returns the rings in order,
    cut into polygons before every ring of area >= 0 (but not before the
    first ring): each polygon is a first ring followed by rings of
    area < 0, each polygon after the first starts with a ring of
    area >= 0, every ring of area >= 0 starts a polygon; one polygon comes
    as [Polygon], any other number as [MultiPolygon]. *)
Theorem polygon_grouping_by_area_sign geom_data extent y_coord_down rings :
  rings_of geom_data extent y_coord_down = Ok rings →
  Forall (λ r, exterior r ∨ hole r) rings →
  ∃ polygons,
    _decode_geometry geom_data _GEOM_POLYGON extent y_coord_down
    = Ok (match polygons with [p] => Polygon p | _ => MultiPolygon polygons end) ∧
    concat polygons = rings ∧
    Forall (λ p, p ≠ [] ∧ Forall hole (tail p)) polygons ∧
    Forall (λ p, ∃ r, head p = Some r ∧ exterior r) (tail polygons) ∧
    (∀ r, r ∈ rings → exterior r → ∃ p, p ∈ polygons ∧ head p = Some r).
Proof.
  intros Hrings Hall.
  destruct (polygons_of_rings_ok rings Hall) as [polygons Hrun].
  exists polygons.
  rewrite (_decode_geometry_polygon _ _ _ _ Hrings), Hrun. simpl.
  rewrite polygon_geometry_emitted.
  apply polygons_of_rings_spec in Hrun as [[H1 H2] Hc].
  split_and!; try done.
  intros r Hin Hext. rewrite <- Hc in Hin.
  apply list_elem_of_In, in_concat in Hin as (p & Hp & Hrp).
  apply list_elem_of_In in Hp, Hrp.
  exists p. split; [done|].
  rewrite Forall_forall in H1. destruct (H1 p Hp) as [Hne Hholes].
  destruct p as [|r0 p]; [done|]. simpl in *.
  apply elem_of_cons in Hrp as [->|Hrp]; [done|].
  rewrite Forall_forall in Hholes. destruct (exterior_not_hole r); auto.
Qed.

Lemma outer_square_exterior : exterior examples.outer_square.
Proof. eexists. split; vm_compute; reflexivity. Defined.

Lemma other_square_exterior : exterior examples.other_square.
Proof. eexists. split; vm_compute; reflexivity. Defined.

Lemma inner_square_hole : hole examples.inner_square.
Proof. eexists. split; vm_compute; reflexivity. Defined.

Lemma second_hole_hole : hole examples.second_hole.
Proof. eexists. split; vm_compute; reflexivity. Defined.

(** An exterior square, a hole and a second exterior square come as the
    two polygons of a [MultiPolygon], the hole in the first. *)
Lemma polygon_grouping_by_area_sign_witness :
  rings_of (examples.B examples.outer_inner_other) 4096 true
    = Ok [examples.outer_square; examples.inner_square; examples.other_square] ∧
  Forall (λ r, exterior r ∨ hole r)
    [examples.outer_square; examples.inner_square; examples.other_square] ∧
  _decode_geometry (examples.B examples.outer_inner_other) _GEOM_POLYGON 4096 true
    = Ok (MultiPolygon [[examples.outer_square; examples.inner_square];
                        [examples.other_square]]) ∧
  ∃ polygons,
    _decode_geometry (examples.B examples.outer_inner_other) _GEOM_POLYGON 4096 true
    = Ok (match polygons with [p] => Polygon p | _ => MultiPolygon polygons end) ∧
    concat polygons
    = [examples.outer_square; examples.inner_square; examples.other_square] ∧
    Forall (λ p, p ≠ [] ∧ Forall hole (tail p)) polygons ∧
    Forall (λ p, ∃ r, head p = Some r ∧ exterior r) (tail polygons) ∧
    (∀ r, r ∈ [examples.outer_square; examples.inner_square; examples.other_square] →
          exterior r → ∃ p, p ∈ polygons ∧ head p = Some r).
Proof.
  assert (rings_of (examples.B examples.outer_inner_other) 4096 true
          = Ok [examples.outer_square; examples.inner_square; examples.other_square])
    as Hrings by (vm_compute; reflexivity).
  assert (Forall (λ r, exterior r ∨ hole r)
            [examples.outer_square; examples.inner_square; examples.other_square])
    as Hall.
  { apply Forall_cons. split; [left; exact outer_square_exterior|].
    apply Forall_cons. split; [right; exact inner_square_hole|].
    apply Forall_cons. split; [left; exact other_square_exterior|].
    apply Forall_nil_2. }
  split; [exact Hrings|]. split; [exact Hall|].
  split; [vm_compute; reflexivity|].
  exact (polygon_grouping_by_area_sign _ _ _ _ Hrings Hall).
Defined.

(** Claim C10, amended.  The holes that arrive before any exterior ring
    are not discarded: the first of them opens a polygon, the others are
    appended to it, and that polygon -- these holes, in their order -- is
    the [Polygon] returned when no ring follows them, and the first polygon
    of the [MultiPolygon] returned otherwise. *)
Theorem leading_holes_form_first_polygon geom_data extent y_coord_down h holes rest :
  rings_of geom_data extent y_coord_down = Ok (h :: holes ++ rest) →
  Forall hole (h :: holes) →
  (∀ r, head rest = Some r → exterior r) →
  Forall (λ r, exterior r ∨ hole r) rest →
  ∃ polygons,
    _decode_geometry geom_data _GEOM_POLYGON extent y_coord_down
    = Ok (match polygons with
          | [] => Polygon (h :: holes)
          | _ => MultiPolygon ((h :: holes) :: polygons)
          end) ∧
    concat polygons = rest.
Proof.
  intros Hrings Hholes Hrest Hall.
  assert (Forall (λ r, exterior r ∨ hole r) (h :: holes ++ rest)) as Hall'.
  { rewrite app_comm_cons. apply Forall_app. split; [|done].
    eapply Forall_impl; [exact Hholes|]. auto. }
  destruct (polygons_of_rings_ok _ Hall') as [polygons Hrun].
  rewrite (_decode_geometry_polygon _ _ _ _ Hrings), Hrun. simpl.
  rewrite polygon_geometry_emitted.
  apply polygons_of_rings_spec in Hrun as [[H1 H2] Hc].
  destruct polygons as [|p polygons]; [done|].
  apply Forall_cons in H1 as [[Hne Hp] H1].
  destruct p as [|r p]; [done|]. simpl in Hc, Hp, H2. injection Hc as -> Hc.
  apply Forall_cons in Hholes as [Hh Hholes].
  destruct (leading_holes_unique p holes (concat polygons) rest) as [-> Hc'];
    [done|done|done| |done|].
  { intros r Hr. destruct polygons as [|q polygons]; [done|].
    apply Forall_cons in H2 as [(r0 & Hq & Hext) _].
    destruct q as [|r1 q]; [done|]. simpl in Hq, Hr. congruence. }
  exists polygons. split; [|done]. by destruct polygons.
Qed.

(** Two holes and an exterior square: the holes are the first polygon. *)
Lemma leading_holes_form_first_polygon_witness :
  rings_of (examples.B examples.two_holes_outer) 4096 true
    = Ok (examples.inner_square :: [examples.second_hole] ++ [examples.outer_square]) ∧
  Forall hole [examples.inner_square; examples.second_hole] ∧
  _decode_geometry (examples.B examples.two_holes_outer) _GEOM_POLYGON 4096 true
    = Ok (MultiPolygon [[examples.inner_square; examples.second_hole];
                        [examples.outer_square]]) ∧
  ∃ polygons,
    _decode_geometry (examples.B examples.two_holes_outer) _GEOM_POLYGON 4096 true
    = Ok (match polygons with
          | [] => Polygon [examples.inner_square; examples.second_hole]
          | _ => MultiPolygon ([examples.inner_square; examples.second_hole] :: polygons)
          end) ∧
    concat polygons = [examples.outer_square].
Proof.
  assert (rings_of (examples.B examples.two_holes_outer) 4096 true
          = Ok (examples.inner_square :: [examples.second_hole] ++ [examples.outer_square]))
    as Hrings by (vm_compute; reflexivity).
  assert (Forall hole [examples.inner_square; examples.second_hole]) as Hholes.
  { apply Forall_cons. split; [exact inner_square_hole|].
    apply Forall_cons. split; [exact second_hole_hole|]. apply Forall_nil_2. }
  split; [exact Hrings|]. split; [exact Hholes|].
  split; [vm_compute; reflexivity|].
  apply (leading_holes_form_first_polygon _ _ _ _ _ _ Hrings Hholes).
  - intros r [= <-]. exact outer_square_exterior.
  - apply Forall_cons. split; [left; exact outer_square_exterior|]. apply Forall_nil_2.
Defined.

(** Claim C10 as worded fails: of two holes that arrive before the first
    exterior ring, the second opens no polygon; it is the second ring of
    the polygon that the first has opened. *)
Lemma second_leading_hole_opens_no_polygon : ¬ leading_holes_open_polygons.
Proof.
  intros Hclaim.
  destruct (Hclaim (examples.B examples.two_holes_outer) 4096 true
              [examples.inner_square] examples.second_hole [examples.outer_square]
              (MultiPolygon [[examples.inner_square; examples.second_hole];
                             [examples.outer_square]]))
    as (p & Hp & Hhead).
  - vm_compute. reflexivity.
  - apply Forall_cons. split; [exact inner_square_hole|]. apply Forall_nil_2.
  - exact second_hole_hole.
  - vm_compute. reflexivity.
  - simpl in Hp. set_solver.
Qed.

End grouping.

Module raster.
Import mvt_decoder render cache view ascii_map props.

Lemma elem_of_range lo hi y : y ∈ range lo hi ↔ lo ≤ y < hi.
Proof.
  unfold range. rewrite list_elem_of_fmap. split.
  - intros (i & -> & Hi%elem_of_seq). lia.
  - intros Hy. exists (Z.to_nat (y - lo)). split; [lia|]. apply elem_of_seq. lia.
Qed.

Lemma NoDup_range lo hi : NoDup (range lo hi).
Proof.
  unfold range. apply (NoDup_fmap_2_strong _); [|apply NoDup_seq].
  intros i j _ _ Heq. lia.
Qed.

(** *** Writing one cell *)

Lemma grid_shape_assign {A} w h (grid : list (list A)) x y v :
  grid_shape w h grid → grid_shape w h (assign grid x y v).
Proof.
  intros [Hlen Hrows]. split; unfold assign.
  - by rewrite length_alter.
  - apply Forall_alter; [done|]. intros row _ Hrow. by rewrite length_insert.
Qed.

Lemma fb_shape_put w h fb x y c color :
  fb_shape w h fb → fb_shape w h (put fb x y c color).
Proof.
  intros (Hw & Hh & Hb & Hc). unfold put, fb_shape. simpl.
  split_and!; try done; by apply grid_shape_assign.
Qed.

Lemma cell_put w h fb x y c color x' y' :
  fb_shape w h fb → 0 ≤ x < w → 0 ≤ y < h → 0 ≤ x' → 0 ≤ y' →
  is_Some (cell fb x' y') →
  cell (put fb x y c color) x' y'
  = if bool_decide (x' = x ∧ y' = y) then Some c else cell fb x' y'.
Proof.
  intros (Hw & Hh & [Hlen Hrows] & _) Hx Hy Hx' Hy' Hsome.
  unfold cell, put, assign in *. simpl.
  destruct (decide (y' = y)) as [->|Hne].
  - rewrite list_lookup_alter_eq.
    destruct (buffer fb !! Z.to_nat y) as [row|] eqn:Hrow; simpl in *; [|by destruct Hsome].
    destruct (decide (x' = x)) as [->|Hnx].
    + rewrite bool_decide_eq_true_2 by done.
      apply list_lookup_insert_eq. apply lookup_lt_is_Some. done.
    + rewrite bool_decide_eq_false_2 by tauto.
      apply list_lookup_insert_ne. lia.
  - rewrite bool_decide_eq_false_2 by tauto.
    rewrite list_lookup_alter_ne by lia. done.
Qed.

Lemma cell_in_range w h fb x y :
  fb_shape w h fb → 0 ≤ x < w → 0 ≤ y < h → is_Some (cell fb x y).
Proof.
  intros (Hw & Hh & [Hlen Hrows] & _) Hx Hy. unfold cell.
  destruct (lookup_lt_is_Some_2 (buffer fb) (Z.to_nat y)) as [row Hrow]; [lia|].
  rewrite Hrow. simpl. apply lookup_lt_is_Some_2.
  rewrite Forall_forall in Hrows. rewrite (Hrows row); [lia|].
  by eapply list_elem_of_lookup_2.
Qed.

(** *** One span, one row *)

Lemma fill_span_spec w h fb y a b c color :
  fb_shape w h fb → 0 ≤ y < h → 0 ≤ a → b < w →
  fb_shape w h (fill_span fb y a b c color) ∧
  ∀ x' y', 0 ≤ x' < w → 0 ≤ y' < h →
    cell (fill_span fb y a b c color) x' y'
    = if bool_decide (y' = y ∧ a ≤ x' ≤ b) then Some c else cell fb x' y'.
Proof.
  intros Hs Hy Ha Hb. unfold fill_span.
  assert (∀ xs fb, fb_shape w h fb → Forall (λ x, a ≤ x ≤ b) xs →
            fb_shape w h (fold_left (λ fb x, put fb x y c color) xs fb) ∧
            ∀ x' y', 0 ≤ x' < w → 0 ≤ y' < h →
              cell (fold_left (λ fb x, put fb x y c color) xs fb) x' y'
              = if bool_decide (y' = y ∧ x' ∈ xs) then Some c else cell fb x' y') as Hgen.
  { induction xs as [|x xs IH]; intros fb0 Hs0 Hxs; simpl.
    - split; [done|]. intros x' y' _ _. rewrite bool_decide_eq_false_2; [done|set_solver].
    - apply Forall_cons in Hxs as [Hx Hxs].
      destruct (IH (put fb0 x y c color)) as [Hs1 Hc1]; [by apply fb_shape_put|done|].
      split; [done|]. intros x' y' Hx' Hy'. rewrite Hc1 by done.
      rewrite (cell_put w h) by (try lia; try done; by apply (cell_in_range w h)).
      repeat case_bool_decide; try done; set_solver. }
  destruct (Hgen (range a (b + 1)) fb) as [Hs1 Hc1]; [done| |].
  { apply Forall_forall. intros x Hx%elem_of_range. lia. }
  split; [done|]. intros x' y' Hx' Hy'. rewrite Hc1 by done.
  rewrite (bool_decide_ext _ (y' = y ∧ a ≤ x' ≤ b)); [done|].
  rewrite elem_of_range. lia.
Qed.

Lemma fill_pairs_spec w h fb y nodes c color :
  fb_shape w h fb → 0 ≤ y < h →
  fb_shape w h (fill_pairs fb y nodes c color) ∧
  ∀ x' y', 0 ≤ x' < w → 0 ≤ y' < h →
    cell (fill_pairs fb y nodes c color) x' y'
    = if bool_decide (y' = y) && covered w nodes x' then Some c else cell fb x' y'.
Proof.
  intros Hs Hy. revert fb Hs.
  induction nodes as [nodes IH] using (induction_ltof1 _ length). unfold ltof in IH.
  intros fb Hs. destruct nodes as [|a [|b nodes]]; simpl.
  - split; [done|]. intros. by rewrite andb_false_r.
  - split; [done|]. intros. by rewrite andb_false_r.
  - pose proof Hs as (Hw & _).
    destruct (fill_span_spec w h fb y (Z.max 0 a) (Z.min (width fb - 1) b) c color)
      as [Hs1 Hc1]; [done|done|lia|lia|].
    destruct (IH nodes ltac:(simpl; lia) _ Hs1) as [Hs2 Hc2].
    split; [done|]. intros x' y' Hx' Hy'.
    rewrite Hc2, Hc1 by done. rewrite Hw.
    destruct (decide (y' = y)) as [->|Hne];
      repeat case_bool_decide; simpl; try done; try lia;
      destruct (covered w nodes x'); simpl; try done;
      rewrite ?orb_true_r, ?orb_false_r; try done;
      destruct (Z.leb_spec (Z.max 0 a) x'), (Z.leb_spec x' (Z.min (w - 1) b));
      simpl; try done; lia.
Qed.

(** *** The nodes of a scan line *)

Lemma crossings_app y es1 es2 :
  crossings y (es1 ++ es2)
  = (xs ← crossings y es1; ys ← crossings y es2; Ok (xs ++ ys)).
Proof.
  induction es1 as [|e es1 IH]; simpl.
  - by destruct (crossings y es2).
  - destruct (crosses y e); [|done].
    destruct (edge_crossing y e); simpl; [|done]. rewrite IH.
    destruct (crossings y es1); simpl; [|done]. by destruct (crossings y es2).
Qed.

Lemma int_of_float_truncated x : int_of_float x = truncated x.
Proof.
  destruct x as [s|s| |s m e]; try done. simpl. f_equal.
  destruct (Z.leb_spec 0 e) as [He|He].
  - rewrite Z.shiftl_mul_pow2 by done. destruct s; lia.
  - rewrite Z.shiftr_div_pow2 by lia.
    assert (0 < 2 ^ (- e)) by (apply Z.pow_pos_nonneg; lia).
    destruct s.
    + change (Z.neg m) with (- Z.pos m). rewrite Z.quot_opp_l by lia.
      rewrite Z.quot_div_nonneg by lia. done.
    + rewrite Z.quot_div_nonneg by lia. done.
Qed.

Lemma crossing_spec xi yi xj yj y :
  crossing xi yi xj yj y = edge_crossing y ((xi, yi), (xj, yj)).
Proof.
  unfold crossing, edge_crossing.
  destruct (int_truediv _ _) as [q|]; simpl; [|done].
  destruct (float_of_int (xj - xi)) as [d|]; simpl; [|done].
  destruct (float_of_int xi) as [a|]; simpl; [|done].
  apply int_of_float_truncated.
Qed.

#[local] Arguments edge_crossing : simpl never.

Lemma ring_nodes_spec pts pj y nodes :
  ring_nodes pts pj y nodes
  = (xs ← crossings y (zip pts (pj :: pts)); Ok (nodes ++ xs)).
Proof.
  revert pj nodes. induction pts as [|[xi yi] pts IH]; intros [xj yj] nodes; simpl.
  - by rewrite app_nil_r.
  - destruct (_ || _); simpl.
    + rewrite crossing_spec.
      destruct (edge_crossing y _) as [x|]; simpl; [|done]. rewrite IH.
      destruct (crossings y _); simpl; [|done]. by rewrite <- (assoc (++)).
    + apply IH.
Qed.

Lemma scan_nodes_spec valid_rings y nodes :
  scan_nodes valid_rings y nodes
  = (xs ← crossings y (concat (map edges valid_rings)); Ok (nodes ++ xs)).
Proof.
  revert nodes. induction valid_rings as [|ring rings IH]; intros nodes; simpl.
  - by rewrite app_nil_r.
  - rewrite ring_nodes_spec, crossings_app. fold (edges ring).
    destruct (crossings y (edges ring)) as [xs|]; simpl; [|done]. rewrite IH.
    destruct (crossings y _); simpl; [|done]. by rewrite <- (assoc (++)).
Qed.

Lemma fill_rows_spec w h valid_rings c color ys fb fb' :
  fb_shape w h fb → Forall (λ y, 0 ≤ y < h) ys → NoDup ys →
  fill_rows fb valid_rings ys c color = Ok fb' →
  fb_shape w h fb' ∧
  ∀ x y, 0 ≤ x < w → 0 ≤ y < h →
    if bool_decide (y ∈ ys)
    then ∃ xs, scan_nodes valid_rings y [] = Ok xs ∧
               cell fb' x y = if covered w (sort_ints xs) x then Some c else cell fb x y
    else cell fb' x y = cell fb x y.
Proof.
  revert fb. induction ys as [|y0 ys IH]; intros fb Hs Hys Hnd; simpl.
  - intros [= <-]. split; [done|]. intros. done.
  - apply Forall_cons in Hys as [Hy0 Hys]. apply NoDup_cons in Hnd as [Hnin Hnd].
    destruct (scan_nodes valid_rings y0 []) as [xs0|] eqn:Hscan; simpl; [|done].
    intros Hrun.
    destruct (fill_pairs_spec w h fb y0 (sort_ints xs0) c color Hs Hy0) as [Hs1 Hc1].
    destruct (IH _ Hs1 Hys Hnd Hrun) as [Hs2 Hc2].
    split; [done|]. intros x y Hx Hy. specialize (Hc2 x y Hx Hy).
    rewrite Hc1 in Hc2 by done.
    destruct (decide (y = y0)) as [->|Hne].
    + rewrite bool_decide_eq_true_2 by set_solver.
      rewrite bool_decide_eq_false_2 in Hc2 by done.
      rewrite bool_decide_eq_true_2 in Hc2 by done. simpl in Hc2. eauto.
    + rewrite (bool_decide_eq_false_2 (y = y0)) in Hc2 by done. simpl in Hc2.
      destruct (decide (y ∈ ys)).
      * rewrite bool_decide_eq_true_2 by set_solver.
        rewrite bool_decide_eq_true_2 in Hc2 by done. done.
      * rewrite bool_decide_eq_false_2 by set_solver.
        rewrite bool_decide_eq_false_2 in Hc2 by done. done.
Qed.

Lemma min_list_le d ys y :
  ys ≠ [] → min_list d ys ≤ y ↔ Exists (λ y', y' ≤ y) ys.
Proof.
  destruct ys as [|a ys]; [done|]. intros _. simpl. revert a.
  induction ys as [|b ys IH]; intros a; simpl.
  - rewrite Exists_cons, Exists_nil. tauto.
  - rewrite IH, !Exists_cons, Z.min_le_iff. tauto.
Qed.

Lemma max_list_ge d ys y :
  ys ≠ [] → y ≤ max_list d ys ↔ Exists (λ y', y ≤ y') ys.
Proof.
  destruct ys as [|a ys]; [done|]. intros _. simpl. revert a.
  induction ys as [|b ys IH]; intros a; simpl.
  - rewrite Exists_cons, Exists_nil. tauto.
  - rewrite IH, !Exists_cons, Z.max_le_iff. tauto.
Qed.

(** Claim C3, amended.  After [draw_polygon_filled], a cell of a scan line
    [y] that has a vertex of the rings of at least three points on or
    above it and one on or below it holds the character exactly when it
    lies in a span [max(0, a) .. min(w - 1, b)] for a pair
    [(a, b) = (nodes[2k], nodes[2k + 1])] of the nodes of [y]: the
    abscissas [xi + (y - yi) / (yj - yi) * (xj - xi)], computed in binary64
    and truncated toward zero, of the edges with [yi < y <= yj] or
    [yj < y <= yi], sorted ascending.  Every other cell is as before. *)
Theorem scanline_fill_cells w h fb rings c color fb' :
  fb_shape w h fb →
  draw_polygon_filled fb rings c color = Ok fb' →
  let valid_rings := filter (λ ring : list point, 3 ≤ len ring) rings in
  let ys := map snd (concat valid_rings) in
  ∀ x y, 0 ≤ x < w → 0 ≤ y < h →
    if bool_decide (Exists (λ y', y' ≤ y) ys ∧ Exists (λ y', y ≤ y') ys)
    then ∃ xs nodes,
           crossings y (concat (map edges valid_rings)) = Ok xs ∧
           Sorted Z.le nodes ∧ nodes ≡ₚ xs ∧
           cell fb' x y = if covered w nodes x then Some c else cell fb x y
    else cell fb' x y = cell fb x y.
Proof.
  intros Hs Hrun valid_rings ys x y Hx Hy.
  assert (valid_rings = [] → ys = []) as Hnil by (by unfold ys; intros ->).
  rewrite (bool_decide_ext _ (valid_rings ≠ [] ∧ min_list 0 ys ≤ y ≤ max_list 0 ys)).
  2:{ destruct (decide (ys = [])) as [Hys|Hys].
      - rewrite Hys, Exists_nil. split; [tauto|].
        intros [Hne _]. destruct Hne.
        destruct valid_rings as [|ring valid_rings'] eqn:Hv; [done|].
        assert (ring ∈ valid_rings) as Hin by (rewrite Hv; set_solver).
        apply list_elem_of_filter in Hin as [Hlen _].
        unfold ys in Hys. simpl in Hys. destruct ring; [|done].
        unfold len in Hlen. simpl in Hlen. lia.
      - rewrite <- (min_list_le 0), <- (max_list_ge 0) by done.
        split; [|tauto]. intros [? ?]. split; [|lia]. intros Hv. auto. }
  assert ((if is_empty valid_rings then Ok fb
           else fill_rows fb valid_rings
                  (range (Z.max 0 (min_list 0 ys))
                         (Z.min (height fb - 1) (max_list 0 ys) + 1)) c color)
          = Ok fb') as Hrun'.
  { unfold draw_polygon_filled in Hrun. destruct rings; [|exact Hrun]. exact Hrun. }
  clear Hrun. rename Hrun' into Hrun.
  destruct (is_empty valid_rings) eqn:Hempty.
  { injection Hrun as <-. case_bool_decide as Hd; [|done].
    destruct Hd as [Hne _]. by destruct valid_rings. }
  assert (valid_rings ≠ []) as Hvalid by (by destruct valid_rings).
  pose proof Hs as (Hw & Hh & _).
  apply (fill_rows_spec w h) in Hrun as [Hs' Hc];
    [|done| |apply NoDup_range].
  2:{ apply Forall_forall. intros y' Hy'%elem_of_range. lia. }
  specialize (Hc x y Hx Hy). revert Hc.
  case_bool_decide as Hd; case_bool_decide as Hd2;
    rewrite elem_of_range in Hd; try lia; try done;
    [|exfalso; apply Hd2; split; [done|lia]].
  intros (xs & Hscan & Hcell).
  rewrite scan_nodes_spec in Hscan.
  destruct (crossings y _) as [xs'|] eqn:Hxs; simpl in Hscan; [|done].
  injection Hscan as <-.
  exists xs', (sort_ints xs'). split_and!; [done| | |done].
  - apply Sorted_merge_sort. intros a b. lia.
  - apply merge_sort_Permutation.
Qed.

Lemma new_shape w h : fb_shape w h (render.new w h).
Proof.
  unfold fb_shape, grid_shape, render.new. simpl. rewrite !length_replicate.
  split_and!; try done; apply Forall_replicate; by rewrite length_replicate.
Defined.

Lemma scanline_fill_cells_witness :
  fb_shape 6 5 (render.new 6 5) ∧
  draw_polygon_filled (render.new 6 5) [examples.triangle] examples.hash 0
    = Ok examples.filled_triangle ∧
  crossings 1 (concat (map edges [examples.triangle])) = Ok [0; 0] ∧
  crossings 3 (concat (map edges [examples.triangle])) = Ok [0; 2] ∧
  ∃ xs nodes,
    crossings 1 (concat (map edges [examples.triangle])) = Ok xs ∧
    Sorted Z.le nodes ∧ nodes ≡ₚ xs ∧
    cell examples.filled_triangle 1 1
      = if covered 6 nodes 1 then Some examples.hash else cell (render.new 6 5) 1 1.
Proof.
  assert (draw_polygon_filled (render.new 6 5) [examples.triangle] examples.hash 0
          = Ok examples.filled_triangle) as Hrun by (vm_compute; reflexivity).
  split; [apply new_shape|]. split; [exact Hrun|].
  split; [vm_compute; reflexivity|]. split; [vm_compute; reflexivity|].
  exact (scanline_fill_cells 6 5 _ _ _ _ _ (new_shape 6 5) Hrun 1 1
           ltac:(lia) ltac:(lia)).
Defined.

(** Claim C3 as worded fails, whether "rounded" means to the nearest
    integer or toward zero.  On the triangle the crossing 3/4 of the
    scan line 1 is made 0, not 1, and the cell (1, 1) stays blank; on the
    square no edge strictly crosses the scan line 3, which is filled all
    the same. *)
Lemma scanline_fill_not_as_claimed :
  ¬ fills_as_claimed nearest ∧ ¬ fills_as_claimed toward_zero.
Proof.
  split; intros Hclaim.
  - assert (cell examples.filled_triangle 1 1
            = Some (if covered 6 (claimed_nodes nearest 1 [examples.triangle]) 1
                    then examples.hash else SPACE)) as Hc.
    { unfold fills_as_claimed in Hclaim. apply (Hclaim 6 5).
      - repeat constructor. vm_compute. discriminate.
      - done.
      - lia.
      - lia.
      - vm_compute. split; discriminate.
      - vm_compute. reflexivity. }
    vm_compute in Hc. discriminate Hc.
  - destruct (draw_polygon_filled (render.new 6 5) [examples.square] examples.hash 0)
      as [fb'|] eqn:Hrun; [|vm_compute in Hrun; discriminate Hrun].
    assert (cell fb' 1 3
            = Some (if covered 6 (claimed_nodes toward_zero 3 [examples.square]) 1
                    then examples.hash else SPACE)) as Hc.
    { unfold fills_as_claimed in Hclaim. apply (Hclaim 6 5).
      - repeat constructor. vm_compute. discriminate.
      - done.
      - lia.
      - lia.
      - vm_compute. split; discriminate.
      - exact Hrun. }
    vm_compute in Hrun. injection Hrun as <-. vm_compute in Hc. discriminate Hc.
Qed.

End raster.


Module bresenham.
Import mvt_decoder render cache view ascii_map props.

Lemma draw_line_loop_fuel fuel fuel' fb x y x1 y1 dx dy sx sy err c color rx ry :
  on_track x1 y1 dx dy sx sy x y err rx ry →
  (Z.to_nat (rx + ry) < fuel)%nat → (Z.to_nat (rx + ry) < fuel')%nat →
  draw_line_loop fuel fb x y x1 y1 dx dy sx sy err c color
  = draw_line_loop fuel' fb x y x1 y1 dx dy sx sy err c color.
Proof.
  revert fuel' fb x y err rx ry.
  induction fuel as [|fuel IH]; intros fuel' fb x y err rx ry Ht Hf Hf'; [lia|].
  destruct fuel' as [|fuel']; [lia|]. simpl.
  destruct ((x =? x1) && (y =? y1)) eqn:Hend; [done|].
  destruct Ht as (Hrx & Hry & Hsx & Hsy & Hx & Hy & Herr).
  assert (0 < rx + ry) as Hpos.
  { apply andb_false_iff in Hend. destruct Hend as [Hne%Z.eqb_neq|Hne%Z.eqb_neq]; nia. }
  destruct (Z.ltb_spec (- dy) (2 * err)) as [Hxs|Hxs];
    destruct (Z.ltb_spec (2 * err) dx) as [Hys|Hys].
  - apply (IH _ _ _ _ _ (rx - 1) (ry - 1)); [|nia|nia].
    assert (0 < rx) by nia. assert (0 < ry) by nia.
    unfold on_track. split_and!; try done; nia.
  - apply (IH _ _ _ _ _ (rx - 1) ry); [|nia|nia].
    assert (0 < rx) by nia. unfold on_track. split_and!; try done; nia.
  - apply (IH _ _ _ _ _ rx (ry - 1)); [|nia|nia].
    assert (0 < ry) by nia. unfold on_track. split_and!; try done; nia.
  - exfalso. nia.
Qed.

Lemma on_track_start x0 y0 x1 y1 :
  on_track x1 y1 (Z.abs (x1 - x0)) (Z.abs (y1 - y0)) (sign_to x0 x1) (sign_to y0 y1)
           x0 y0 (Z.abs (x1 - x0) - Z.abs (y1 - y0))
           (Z.abs (x1 - x0)) (Z.abs (y1 - y0)).
Proof.
  unfold on_track, sign_to.
  destruct (Z.ltb_spec x0 x1), (Z.ltb_spec y0 y1); split_and!; auto; lia.
Qed.

(** The fuel [draw_line] gives its loop is never used up: any larger
    amount draws the same line. *)
Lemma draw_line_loop_ends fuel fb x0 y0 x1 y1 c color :
  (Z.to_nat (Z.abs (x1 - x0) + Z.abs (y1 - y0)) < fuel)%nat →
  draw_line_loop fuel fb x0 y0 x1 y1 (Z.abs (x1 - x0)) (Z.abs (y1 - y0))
    (sign_to x0 x1) (sign_to y0 y1) (Z.abs (x1 - x0) - Z.abs (y1 - y0)) c color
  = draw_line fb x0 y0 x1 y1 c color.
Proof.
  intros Hf. unfold draw_line.
  eapply draw_line_loop_fuel; [apply on_track_start|done|lia].
Qed.

End bresenham.


Module shape.
Import mvt_decoder render cache view ascii_map props raster.

Lemma new_ok w h : fb_ok w h (render.new w h).
Proof.
  unfold fb_ok, fb_shape, grid_shape, render.new. simpl.
  rewrite !length_replicate. split_and!; try done.
  - apply Forall_replicate. by rewrite length_replicate.
  - apply Forall_replicate. by rewrite length_replicate.
  - apply Forall_replicate, Forall_replicate. done.
Qed.

Lemma put_ok w h fb x y c color : clean c → fb_ok w h fb → fb_ok w h (put fb x y c color).
Proof.
  intros Hc [Hs Hcl]. split; [by apply fb_shape_put|].
  unfold put, assign. simpl. apply Forall_alter; [done|].
  intros row _ Hrow. by apply Forall_insert.
Qed.

Lemma set_char_ok w h fb x y c color :
  clean c → fb_ok w h fb → fb_ok w h (set_char fb x y c color).
Proof. intros. unfold set_char. destruct (_ && _); [by apply put_ok|done]. Qed.

Lemma draw_line_loop_ok w h fuel fb x0 y0 x1 y1 dx dy sx sy err c color :
  clean c → fb_ok w h fb →
  fb_ok w h (draw_line_loop fuel fb x0 y0 x1 y1 dx dy sx sy err c color).
Proof.
  intros Hc. revert fb x0 y0 err.
  induction fuel as [|fuel IH]; intros fb x0 y0 err Hok; simpl; [done|].
  destruct (_ && _); [by apply set_char_ok|].
  destruct (- dy <? 2 * err); destruct (2 * err <? dx); apply IH; by apply set_char_ok.
Qed.

Lemma draw_line_ok w h fb x0 y0 x1 y1 c color :
  clean c → fb_ok w h fb → fb_ok w h (draw_line fb x0 y0 x1 y1 c color).
Proof. intros. by apply draw_line_loop_ok. Qed.

Lemma draw_poly_outline_ok w h fb points c color :
  clean c → fb_ok w h fb → fb_ok w h (draw_poly_outline fb points c color).
Proof.
  intros Hc. revert fb. induction points as [|p0 points IH]; intros fb Hok; [done|].
  simpl. destruct points as [|p1 points]; [done|]. apply IH. by apply draw_line_ok.
Qed.

Lemma fill_span_ok w h fb y a b c color :
  clean c → fb_ok w h fb → fb_ok w h (fill_span fb y a b c color).
Proof.
  intros Hc. unfold fill_span. generalize (range a (b + 1)). intros xs. revert fb.
  induction xs as [|x xs IH]; intros fb Hok; simpl; [done|]. apply IH. by apply put_ok.
Qed.

Lemma fill_pairs_ok w h fb y nodes c color :
  clean c → fb_ok w h fb → fb_ok w h (fill_pairs fb y nodes c color).
Proof.
  intros Hc. revert fb.
  induction nodes as [nodes IH] using (induction_ltof1 _ length). unfold ltof in IH.
  intros fb Hok. destruct nodes as [|a [|b nodes]]; simpl; try done.
  apply IH; [simpl; lia|]. by apply fill_span_ok.
Qed.

Lemma fill_rows_ok w h fb valid_rings ys c color fb' :
  clean c → fb_ok w h fb →
  fill_rows fb valid_rings ys c color = Ok fb' → fb_ok w h fb'.
Proof.
  intros Hc. revert fb. induction ys as [|y ys IH]; intros fb Hok; simpl.
  - by intros [= <-].
  - destruct (scan_nodes valid_rings y []); simpl; [|done].
    apply IH. by apply fill_pairs_ok.
Qed.

Lemma draw_polygon_filled_ok w h fb rings c color fb' :
  clean c → fb_ok w h fb →
  draw_polygon_filled fb rings c color = Ok fb' → fb_ok w h fb'.
Proof.
  intros Hc Hok. unfold draw_polygon_filled.
  destruct (is_empty rings); [by intros [= <-]|].
  destruct (is_empty _); [by intros [= <-]|]. by apply fill_rows_ok.
Qed.

(** *** Loops that may raise *)

Lemma bind_Ok {A B} (m : Py.result A) (k : A → Py.result B) b :
  m ≫= k = Ok b → ∃ a, m = Ok a ∧ k a = Ok b.
Proof. destruct m as [a|]; [|done]. simpl. eauto. Qed.

Lemma foldM_inv {A S} (P : S → Prop) (f : S → A → Py.result S) l s s' :
  (∀ s x s', P s → f s x = Ok s' → P s') →
  P s → foldM f l s = Ok s' → P s'.
Proof.
  intros Hf. revert s. induction l as [|x l IH]; intros s HP; simpl.
  - by intros [= <-].
  - destruct (f s x) as [s1|] eqn:Hfx; simpl; [|done]. eauto.
Qed.

Lemma fold_left_inv {A S} (P : S → Prop) (f : S → A → S) l s :
  (∀ s x, P s → P (f s x)) → P s → P (fold_left f l s).
Proof. intros Hf. revert s. induction l; simpl; eauto. Qed.

(** *** Label text *)

Lemma not_space_clean c : is_space c = false → clean c.
Proof. intros Hc ->. done. Qed.

Lemma split_loop_no_space s word words :
  Forall (λ c, is_space c = false) word →
  Forall (Forall (λ c, is_space c = false)) words →
  Forall (Forall (λ c, is_space c = false)) (split_loop s word words).
Proof.
  revert word words. induction s as [|c s IH]; intros word words Hw Hws; simpl.
  - destruct (is_empty word); [done|]. apply Forall_app. split; [done|]. by constructor.
  - destruct (is_space c) eqn:Hc.
    + apply IH; [done|]. destruct (is_empty word); [done|].
      apply Forall_app. split; [done|]. by constructor.
    + apply IH; [|done]. apply Forall_app. split; [done|]. by constructor.
Qed.

Lemma join_clean sep words :
  clean_text sep → Forall clean_text words → clean_text (join sep words).
Proof.
  intros Hsep. induction words as [|w words IH]; intros Hws; simpl; [constructor|].
  apply Forall_cons in Hws as [Hw Hws]. destruct words as [|w' words]; [done|].
  apply Forall_app. split; [done|]. apply Forall_app. split; [done|]. by apply IH.
Qed.

Section WithHost.
Context {H : Host}.

Lemma normalize_label_text_clean raw : clean_text (normalize_label_text raw).
Proof.
  assert (clean_text (ascii_only (join (lit " ") (split (py_str raw))))) as Hc.
  { unfold ascii_only. apply Forall_forall. intros c Hin.
    apply list_elem_of_In, filter_In in Hin as [Hin _]. apply list_elem_of_In in Hin.
    revert c Hin. apply Forall_forall. apply join_clean.
    - by repeat constructor.
    - eapply Forall_impl; [apply split_loop_no_space; constructor|].
      intros w Hw. eapply Forall_impl; [exact Hw|]. apply not_space_clean. }
  unfold normalize_label_text. destruct raw; try constructor;
    (destruct (is_empty _); [constructor|]);
    (destruct (_ <? _); [|done]);
    (apply Forall_app; split; [by apply Forall_take|by repeat constructor]).
Qed.

(** *** The layers *)

Lemma draw_polygons_ok w h zoom tl_wx tl_wy ca tx ty extent c filled fb polygons fb' :
  clean c → fb_ok w h fb →
  draw_polygons zoom tl_wx tl_wy ca tx ty extent c filled fb polygons = Ok fb' →
  fb_ok w h fb'.
Proof.
  intros Hc Hok. unfold draw_polygons. apply foldM_inv; [|done].
  intros fb0 polygon fb1 Hok0.
  destruct (screen_rings _ _ _ _ _ _ _ _) as [rings|]; simpl; [|done].
  destruct (is_empty rings); [by intros [= <-]|].
  destruct filled; [by apply draw_polygon_filled_ok|].
  intros [= <-]. apply fold_left_inv; [|done]. intros. by apply draw_poly_outline_ok.
Qed.

Lemma draw_polygon_layer_ok w h zoom tl_wx tl_wy ca tx ty fb tile_data name c filled fb' :
  clean c → fb_ok w h fb →
  draw_polygon_layer zoom tl_wx tl_wy ca tx ty fb tile_data name c filled = Ok fb' →
  fb_ok w h fb'.
Proof.
  intros Hc Hok. unfold draw_polygon_layer.
  destruct (tile_data !! name) as [layer|]; [|by intros [= <-]].
  apply foldM_inv; [|done]. intros fb0 feature fb1 Hok0.
  destruct (polygons_of _); [|by intros [= <-]]. by apply draw_polygons_ok.
Qed.

Lemma draw_green_layer_ok w h zoom tl_wx tl_wy ca tx ty fb tile_data fb' :
  fb_ok w h fb →
  draw_green_layer zoom tl_wx tl_wy ca tx ty fb tile_data = Ok fb' →
  fb_ok w h fb'.
Proof.
  intros Hok. unfold draw_green_layer.
  destruct (layer_or _ _ _) as [layer|]; [|by intros [= <-]].
  apply foldM_inv; [|done]. intros fb0 feature fb1 Hok0.
  destruct (negb _); [by intros [= <-]|].
  destruct (polygons_of _); [|by intros [= <-]]. by apply draw_polygons_ok.
Qed.

Lemma dict_get_clean (d : list (str * char)) k default :
  Forall (λ e, clean e.2) d → clean default → clean (dict_get d k default).
Proof.
  intros Hd Hdef. unfold dict_get. destruct k; try done.
  destruct (List.find _ d) as [e|] eqn:Hf; [|done].
  apply find_some in Hf as [Hin _]. rewrite Forall_forall in Hd.
  apply Hd. by apply list_elem_of_In.
Qed.

Lemma draw_line_layer_ok w h zoom tl_wx tl_wy ca tx ty fb layer d default fb' :
  Forall (λ e, clean e.2) d → clean default → fb_ok w h fb →
  draw_line_layer zoom tl_wx tl_wy ca tx ty fb layer d default = Ok fb' →
  fb_ok w h fb'.
Proof.
  intros Hd Hdef Hok. unfold draw_line_layer.
  apply foldM_inv; [|done]. intros fb0 feature fb1 Hok0.
  destruct (bool_decide _); [by intros [= <-]|].
  destruct (lines_of _); [|by intros [= <-]].
  apply foldM_inv; [|done]. intros fb2 line fb3 Hok2.
  destruct (screen_points _ _ _ _ _ _ _ _) as [points|]; simpl; [|done].
  destruct (_ <=? _); intros [= <-]; [|done].
  apply draw_poly_outline_ok; [|done]. by apply dict_get_clean.
Qed.

(** *** The label candidates *)

Lemma collect_lines_clean zoom width height tl_wx tl_wy ca tx ty extent priority
    text lines out r :
  clean_text text → clean_candidates out →
  collect_lines zoom width height tl_wx tl_wy ca tx ty extent priority text lines out
    = Ok r →
  clean_step r.
Proof.
  intros Ht. revert out. induction lines as [|line lines IH]; intros out Hout; simpl.
  - by intros [= <-].
  - destruct (len line <? 2); [by apply IH|].
    destruct (simplify_points zoom line) as [simplified|]; simpl; [|done].
    destruct (is_empty _); [by apply IH|].
    destruct (tile_point_to_screen _ _ _ _ _ _ _) as [[sx sy]|]; simpl; [|done].
    destruct (_ || _); [by apply IH|].
    assert (clean_candidates (out ++ [(priority, sy, sx, text)])) as Hout'
      by (apply Forall_app; split; [done|by repeat constructor]).
    destruct (_ <=? _); [by intros [= <-]|by apply IH].
Qed.

Lemma collect_features_clean zoom width height tl_wx tl_wy ca tx ty extent
    features out r :
  clean_candidates out →
  collect_features zoom width height tl_wx tl_wy ca tx ty extent features out = Ok r →
  clean_step r.
Proof.
  revert out. induction features as [|feature features IH]; intros out Hout; simpl.
  - by intros [= <-].
  - destruct (negb _); [by apply IH|].
    destruct (is_empty _); [by apply IH|].
    destruct (lines_of _); [|by apply IH].
    destruct (collect_lines _ _ _ _ _ _ _ _ _ _ _ _ _) as [r1|] eqn:Hl; simpl; [|done].
    apply collect_lines_clean in Hl; [|apply normalize_label_text_clean|done].
    destruct r1; [by apply IH|by intros [= <-]].
Qed.

Lemma collect_street_label_candidates_clean zoom width height tl_wx tl_wy ca tx ty
    tile_data out out' :
  clean_candidates out →
  collect_street_label_candidates zoom width height tl_wx tl_wy ca tx ty tile_data out
    = Ok out' →
  clean_candidates out'.
Proof.
  intros Hout. unfold collect_street_label_candidates.
  destruct (_ <? _); [by intros [= <-]|].
  destruct (tile_data !! _) as [layer|]; [|by intros [= <-]].
  destruct (_ =? 0); [by intros [= <-]|].
  destruct (collect_features _ _ _ _ _ _ _ _ _ _ _) as [r|] eqn:Hf; simpl; [|done].
  apply collect_features_clean in Hf; [|done]. intros [= <-]. by destruct r.
Qed.

Lemma insert_sorted_clean c l :
  clean_text c.2 → clean_candidates l → clean_candidates (insert_sorted c l).
Proof.
  intros Hc. induction l as [|d l IH]; intros Hl; simpl; [by repeat constructor|].
  apply Forall_cons in Hl as [Hd Hl].
  destruct (key_le d c); constructor; try done; [by apply IH|by constructor].
Qed.

Lemma sorted_candidates_clean l : clean_candidates l → clean_candidates (sorted_candidates l).
Proof.
  unfold sorted_candidates. intros Hl.
  assert (∀ acc, clean_candidates acc →
            clean_candidates (fold_left (λ acc c, insert_sorted c acc) l acc)) as Hgen.
  { induction l as [|c l IH]; intros acc Hacc; simpl; [done|].
    apply Forall_cons in Hl as [Hc Hl]. apply IH; [done|]. by apply insert_sorted_clean. }
  apply Hgen. constructor.
Qed.

Lemma place_label_ok w h width height st y x text :
  clean_text text → fb_ok w h (lb_fb st) →
  fb_ok w h (lb_fb (place_label width height st y x text)).
Proof.
  intros Ht Hok. unfold place_label. simpl.
  assert (fb_ok w h (fold_left
            (λ fb '(i, ch), set_char fb (x - len text / 2 + Z.of_nat i) y ch 0)
            (imap pair text) (lb_fb st))) as Hfb.
  { assert (Forall (λ p : nat * char, clean p.2) (imap pair text)) as Hp.
    { apply Forall_forall. intros [i ch] Hin. apply elem_of_lookup_imap in Hin
        as (i' & ch' & [= -> ->] & Hl). simpl. unfold clean_text in Ht.
      rewrite Forall_forall in Ht. apply Ht. by eapply list_elem_of_lookup_2. }
    revert Hp Hok. generalize (lb_fb st). generalize (imap pair text).
    intros l. induction l as [|[i ch] l IH]; intros fb Hp Hok; simpl; [done|].
    apply Forall_cons in Hp as [Hch Hp]. apply IH; [done|]. by apply set_char_ok. }
  repeat match goal with |- context [if ?c then _ else _] => destruct c end;
    repeat apply set_char_ok; done.
Qed.

Lemma place_labels_ok w h width height max_labels candidates st :
  clean_candidates candidates → fb_ok w h (lb_fb st) →
  fb_ok w h (lb_fb (place_labels width height max_labels candidates st)).
Proof.
  revert st. induction candidates as [|[[[p y] x] text] candidates IH];
    intros st Hc Hok; simpl; [done|].
  apply Forall_cons in Hc as [Ht Hc]. simpl in Ht.
  destruct (bool_decide _); [by apply IH|].
  destruct (_ || _); [by apply IH|].
  destruct (existsb _ _); [by apply IH|].
  pose proof (place_label_ok w h width height st y x text Ht Hok) as Hok'.
  destruct (_ <=? _); [done|by apply IH].
Qed.

Lemma draw_street_labels_ok w h width height fb candidates :
  clean_candidates candidates → fb_ok w h fb →
  fb_ok w h (draw_street_labels width height fb candidates).
Proof.
  intros Hc Hok. unfold draw_street_labels. destruct (is_empty candidates); [done|].
  apply place_labels_ok; [by apply sorted_candidates_clean|done].
Qed.

(** *** The tiles *)

Lemma render_tile_ok w h zoom width height tl_wx tl_wy ca world_tiles tx ty st st' :
  state_ok w h st →
  render_tile zoom width height tl_wx tl_wy ca world_tiles tx ty st = Ok st' →
  state_ok w h st'.
Proof.
  intros [Hfb Hc]. unfold render_tile.
  destruct (_ || _); [by intros [= <-]|].
  destruct (get_decoded_tile _ _ _ _) as [tile_data store]. simpl.
  destruct (bool_decide _); [by intros [= <-]|].
  intros Hrun.
  apply bind_Ok in Hrun as (fb1 & H1 & Hrun).
  apply bind_Ok in Hrun as (fb2 & H2 & Hrun).
  apply bind_Ok in Hrun as (fb3 & H3 & Hrun).
  apply bind_Ok in Hrun as (fb4 & H4 & Hrun).
  apply bind_Ok in Hrun as (fb5 & H5 & Hrun).
  apply bind_Ok in Hrun as (cands & H6 & Hrun).
  injection Hrun as <-. unfold state_ok. simpl.
  assert (fb_ok w h fb1) as Hok1.
  { destruct (zoom <=? TERRAIN_FILL_MAX_ZOOM); [|by injection H1 as <-].
    apply bind_Ok in H1 as (fbg & Hg & H1).
    apply draw_green_layer_ok with (w := w) (h := h) in Hg; [|done].
    by apply draw_polygon_layer_ok with (w := w) (h := h) in H1. }
  apply draw_polygon_layer_ok with (w := w) (h := h) in H2; [|done|done].
  apply draw_polygon_layer_ok with (w := w) (h := h) in H3; [|done|done].
  assert (fb_ok w h fb4) as Hok4.
  { destruct (layer_or _ _ _); [|by injection H4 as <-].
    apply draw_line_layer_ok with (w := w) (h := h) in H4; try done.
    by repeat constructor. }
  assert (fb_ok w h fb5) as Hok5.
  { destruct (tile_data !! _); [|by injection H5 as <-].
    apply draw_line_layer_ok with (w := w) (h := h) in H5; try done. }
  split; [done|]. simpl in *.
  destruct (rs_candidates st) as [out|]; [|by injection H6 as <-].
  apply bind_Ok in H6 as (out' & H6 & [= <-]).
  by apply collect_street_label_candidates_clean in H6.
Qed.

Lemma get_rows fb w h :
  fb_shape w h fb → 0 ≤ h → map (get_row fb) (range 0 h) = buffer fb.
Proof.
  intros (_ & _ & [Hlen _] & _) Hh. apply list_eq. intros i.
  unfold range. rewrite !list_lookup_fmap, Z.sub_0_r.
  destruct (decide (i < Z.to_nat h)%nat) as [Hi|Hi].
  - rewrite lookup_seq_lt by done. simpl. unfold get_row.
    replace (Z.to_nat (0 + Z.of_nat i)) with i by lia. destruct (lookup_lt_is_Some_2 (buffer fb) i) as [row Hrow]; [lia|].
    rewrite (nth_lookup_Some _ _ [] _ Hrow). done.
  - rewrite lookup_seq_ge by lia. simpl. symmetry. apply lookup_ge_None_2.
    change (@length str (buffer fb) = Z.to_nat h) in Hlen. lia.
Qed.

(** A text made of lines without line breaks, joined by line breaks,
    has these lines. *)
Lemma text_lines_clean line : line_break ∉ line → text_lines line = [line].
Proof.
  induction line as [|c line IH]; intros Hnin; simpl; [done|].
  rewrite bool_decide_eq_false_2 by set_solver.
  rewrite IH by set_solver. done.
Qed.

Lemma text_lines_app line s :
  line_break ∉ line → text_lines (line ++ line_break :: s) = line :: text_lines s.
Proof.
  induction line as [|c line IH]; intros Hnin; simpl.
  - done.
  - rewrite bool_decide_eq_false_2 by set_solver.
    rewrite IH by set_solver. done.
Qed.

Lemma text_lines_join lines :
  lines ≠ [] → Forall (λ line, line_break ∉ line) lines →
  text_lines (join [NEWLINE] lines) = lines.
Proof.
  induction lines as [|line lines IH]; intros Hne Hall; [done|].
  apply Forall_cons in Hall as [Hline Hall].
  destruct lines as [|line' lines]; [by apply text_lines_clean|].
  change (join [NEWLINE] (line :: line' :: lines))
    with (line ++ line_break :: join [NEWLINE] (line' :: lines)).
  rewrite text_lines_app by done. f_equal. by apply IH.
Qed.

(** The lines of the text are the rows of the framebuffer that the loop
    over the tiles leaves, once the labels and the center marker are drawn
    on it; an invariant of [render_tile] holds of what the loop leaves. *)
Lemma render_ascii_rows_inv (P : render_state → Prop) st lat lon zoom width height
    cell_aspect (show_street_names : bool) r st' :
  let w := Z.max 20 (Z.min width 320) in
  let h := Z.max 10 (Z.min height 140) in
  P (mk_render_state (render.new w h) st (if show_street_names then Some [] else None)) →
  (∀ zoom tl_wx tl_wy ca world_tiles tx ty s s',
     P s → render_tile zoom w h tl_wx tl_wy ca world_tiles tx ty s = Ok s' → P s') →
  render_ascii st lat lon zoom width height cell_aspect show_street_names = Ok (r, st') →
  rr_width r = w ∧ rr_height r = h ∧
  ∃ rs, P rs ∧ state_ok w h rs ∧
        text_lines (rr_text r)
        = buffer (set_char
                    match rs_candidates rs with
                    | Some candidates => draw_street_labels w h (rs_fb rs) candidates
                    | None => rs_fb rs
                    end (w / 2) (h / 2) GLYPH_CENTER 0).
Proof.
  unfold render_ascii. cbv zeta.
  set (w := Z.max 20 (Z.min width 320)) in *.
  set (h := Z.max 10 (Z.min height 140)) in *.
  intros HP0 HP Hrun.
  apply bind_Ok in Hrun as ([[[[[lat' lon'] zoom'] cam_wx] cam_wy] ws] & _ & Hrun).
  apply bind_Ok in Hrun as (view_world_w & _ & Hrun).
  apply bind_Ok in Hrun as (view_world_h & _ & Hrun).
  apply bind_Ok in Hrun as (tl_wx & _ & Hrun).
  apply bind_Ok in Hrun as (tl_wy & _ & Hrun).
  apply bind_Ok in Hrun as (min_tx & _ & Hrun).
  apply bind_Ok in Hrun as (max_tx & _ & Hrun).
  apply bind_Ok in Hrun as (min_ty & _ & Hrun).
  apply bind_Ok in Hrun as (max_ty & _ & Hrun).
  apply bind_Ok in Hrun as (rs & Hloop & Hrun).
  injection Hrun as <- <-. simpl.
  assert (P rs ∧ state_ok w h rs) as [HPrs [Hfb Hc]].
  { revert Hloop. apply (foldM_inv (λ rs, P rs ∧ state_ok w h rs)).
    - intros s tx s' Hs. apply (foldM_inv (λ rs, P rs ∧ state_ok w h rs)); [|done].
      intros s1 ty s2 [HP1 Hs1] Hstep. split; [by eapply HP|by eapply render_tile_ok].
    - split; [done|]. split; [apply new_ok|]. simpl.
      destruct show_street_names; [constructor|done]. }
  split; [done|]. split; [done|]. exists rs. split; [done|]. split; [done|].
  match goal with |- context [map (get_row ?fb) _] => assert (fb_ok w h fb) as [Hs Hcl] end.
  { apply set_char_ok; [done|]. destruct (rs_candidates rs); [|done].
    by apply draw_street_labels_ok. }
  rewrite (get_rows _ w h) by (done || lia).
  destruct Hs as (_ & _ & [Hlen Hrows] & _).
  apply text_lines_join.
  - intros Hnil. rewrite Hnil in Hlen. simpl in Hlen. lia.
  - eapply Forall_impl; [exact Hcl|].
    intros row Hrow Hnl. rewrite Forall_forall in Hrow. by apply (Hrow NEWLINE).
Qed.

Lemma render_ascii_rows st lat lon zoom width height cell_aspect
    show_street_names r st' :
  render_ascii st lat lon zoom width height cell_aspect show_street_names = Ok (r, st') →
  let w := Z.max 20 (Z.min width 320) in
  let h := Z.max 10 (Z.min height 140) in
  rr_width r = w ∧ rr_height r = h ∧
  ∃ fb, fb_ok w h fb ∧
        text_lines (rr_text r) = buffer (set_char fb (w / 2) (h / 2) GLYPH_CENTER 0).
Proof.
  intros Hrun w h.
  destruct (render_ascii_rows_inv (λ _, True) _ _ _ _ _ _ _ _ _ _ I ltac:(done) Hrun)
    as (Hw & Hh & rs & _ & [Hfb Hc] & Hlines).
  split; [done|]. split; [done|]. eexists. split; [|exact Hlines].
  destruct (rs_candidates rs); [|done]. by apply draw_street_labels_ok.
Qed.

(** Claim C2.  The text [render_ascii] returns has [height] lines -- the
    pieces between its line breaks -- and each is [width] characters long,
    where [width] and [height] are the clamped values of the result
    ([width] within 20..320, [height] within 10..140). *)
Theorem render_ascii_text_shape st lat lon zoom width height cell_aspect
    show_street_names r st' :
  render_ascii st lat lon zoom width height cell_aspect show_street_names = Ok (r, st') →
  rr_width r = Z.max 20 (Z.min width 320) ∧
  rr_height r = Z.max 10 (Z.min height 140) ∧
  len (text_lines (rr_text r)) = rr_height r ∧
  Forall (λ line, len line = rr_width r) (text_lines (rr_text r)).
Proof.
  intros (Hw & Hh & fb & Hok & Hlines)%render_ascii_rows.
  split; [done|]. split; [done|]. rewrite Hlines, Hw, Hh.
  assert (fb_ok (Z.max 20 (Z.min width 320)) (Z.max 10 (Z.min height 140))
            (set_char fb (Z.max 20 (Z.min width 320) / 2)
                      (Z.max 10 (Z.min height 140) / 2) GLYPH_CENTER 0))
    as [(_ & _ & [Hlen Hrows] & _) _] by (by apply set_char_ok).
  split; [unfold len, str, char in *; lia|].
  eapply Forall_impl; [exact Hrows|].
  intros row Hrow. unfold len, str, char in *. lia.
Qed.

End WithHost.

(** A render of 30 x 12 cells at the origin, zoom 13, every tile being
    water under a motorway: twelve lines of thirty characters, the
    motorway on the ninth, the center marker on the seventh. *)
Lemma render_ascii_text_shape_witness :
  render_ascii (H := examples.water_host) examples.water_store zero zero 13 30 12
               (literal 6 1) false
    = Ok (examples.water_result.1, examples.water_result.2) ∧
  text_lines (rr_text examples.water_result.1) !! 8%nat = Some (replicate 30 (chr "=")) ∧
  text_lines (rr_text examples.water_result.1) !! 6%nat
    = Some (replicate 15 (chr "~") ++ chr "@" :: replicate 14 (chr "~")) ∧
  rr_width examples.water_result.1 = Z.max 20 (Z.min 30 320) ∧
  rr_height examples.water_result.1 = Z.max 10 (Z.min 12 140) ∧
  len (text_lines (rr_text examples.water_result.1)) = rr_height examples.water_result.1 ∧
  Forall (λ line, len line = rr_width examples.water_result.1)
         (text_lines (rr_text examples.water_result.1)).
Proof.
  assert (render_ascii (H := examples.water_host) examples.water_store zero zero 13 30 12
                       (literal 6 1) false
          = Ok (examples.water_result.1, examples.water_result.2)) as Hrun
    by (vm_compute; reflexivity).
  split; [exact Hrun|].
  split; [vm_compute; reflexivity|]. split; [vm_compute; reflexivity|].
  exact (render_ascii_text_shape _ _ _ _ _ _ _ _ _ _ Hrun).
Defined.

End shape.


Module lru.
Import mvt_decoder render cache view ascii_map props.

Lemma contains_keys c k : contains c k = bool_decide (k ∈ keys c).
Proof.
  induction c as [|[k' v] c IH]; simpl.
  - done.
  - rewrite IH. destruct (decide (k' = k)) as [->|Hne].
    + rewrite bool_decide_eq_true_2 by done. simpl. symmetry.
      apply bool_decide_eq_true. set_solver.
    + rewrite (bool_decide_eq_false_2 (k' = k)) by done. simpl.
      apply bool_decide_ext. set_solver.
Qed.

Lemma lookup_is_Some c k : k ∈ keys c → is_Some (lookup c k).
Proof.
  unfold lookup. induction c as [|[k' v] c IH]; simpl; [set_solver|].
  intros Hin. destruct (decide (k' = k)) as [->|Hne].
  - rewrite bool_decide_eq_true_2 by done. simpl. eauto.
  - rewrite bool_decide_eq_false_2 by done. apply IH. set_solver.
Qed.

Lemma keys_filter_ne c k :
  keys (List.filter (λ e, negb (bool_decide (e.1 = k))) c) = filter (λ x, x ≠ k) (keys c).
Proof.
  induction c as [|[k' v] c IH]; simpl; [done|].
  destruct (decide (k' = k)) as [->|Hne].
  - rewrite bool_decide_eq_true_2 by done. simpl.
    rewrite filter_cons_False by (simpl; tauto). done.
  - rewrite bool_decide_eq_false_2 by done. simpl.
    rewrite filter_cons_True by done. simpl. by rewrite IH.
Qed.

Lemma keys_move_to_end c k :
  k ∈ keys c → keys (move_to_end c k) = touch (keys c) k.
Proof.
  intros Hin. unfold move_to_end, touch.
  destruct (lookup_is_Some c k Hin) as [v ->].
  unfold keys at 1. rewrite map_app. simpl. f_equal. apply keys_filter_ne.
Qed.

Lemma keys_setitem_new c k v : k ∉ keys c → keys (setitem c k v) = keys c ++ [k].
Proof.
  induction c as [|[k' v'] c IH]; simpl; [done|].
  intros Hnin. rewrite bool_decide_eq_false_2 by set_solver.
  simpl. f_equal. apply IH. set_solver.
Qed.

Lemma filter_ne_notin (l : list key) k : k ∉ l → filter (λ x, x ≠ k) l = l.
Proof.
  induction l as [|a l IH]; [done|]. intros Hnin.
  rewrite filter_cons_True by set_solver. f_equal. apply IH. set_solver.
Qed.

Lemma filter_ne_length (l : list key) k :
  NoDup l → k ∈ l → S (length (filter (λ x, x ≠ k) l)) = length l.
Proof.
  induction l as [|a l IH]; [set_solver|].
  intros [Hna Hnd]%NoDup_cons Hin.
  destruct (decide (a = k)) as [->|Hne].
  - rewrite filter_cons_False by (simpl; tauto).
    rewrite filter_ne_notin by done. done.
  - rewrite filter_cons_True by done. simpl. f_equal. apply IH; set_solver.
Qed.

Lemma NoDup_touch l k : NoDup l → NoDup (touch l k).
Proof.
  intros Hnd. unfold touch. apply NoDup_app. split_and!.
  - by apply NoDup_filter.
  - intros x [Hx _]%list_elem_of_filter ->%list_elem_of_singleton. done.
  - apply NoDup_singleton.
Qed.

Lemma last_n_app_exact {A} n (a x : list A) :
  length x = n → last_n n (a ++ x) = x.
Proof.
  intros <-. unfold last_n. rewrite length_app.
  replace (length a + length x - length x)%nat with (length a + 0)%nat by lia.
  rewrite drop_app_add. done.
Qed.

Lemma last_n_short {A} n (x : list A) : (length x ≤ n)%nat → last_n n x = x.
Proof.
  intros Hle. unfold last_n. replace (length x - n)%nat with 0%nat by lia. done.
Qed.

Lemma last_n_length {A} n (l : list A) : length (last_n n l) = (length l `min` n)%nat.
Proof. unfold last_n. rewrite length_drop. lia. Qed.

Lemma last_n_split {A} n (l : list A) : take (length l - n) l ++ last_n n l = l.
Proof. apply take_drop. Qed.

(** A hit: the key moves to the end of what is held. *)
Lemma last_n_touch_hit n (R : list key) k :
  NoDup R → k ∈ last_n n R →
  last_n n (touch R k) = touch (last_n n R) k.
Proof.
  intros Hnd Hin. pose proof (last_n_split n R) as Hs.
  pose proof (last_n_length n R) as Hlen.
  set (A := take (length R - n) R) in *. set (B := last_n n R) in *.
  rewrite <- Hs in Hnd. apply NoDup_app in Hnd as (HA & Hdisj & HB).
  assert (k ∉ A) as HkA by (intros ?; eapply Hdisj; eauto).
  unfold touch. rewrite <- Hs at 1. rewrite filter_app, filter_ne_notin by done.
  rewrite <- (assoc (++)).
  pose proof (filter_ne_length B k HB Hin) as Hf.
  destruct (decide (length R ≤ n)%nat) as [Hle|Hgt].
  - assert (A = []) as -> by (subst A; replace (length R - n)%nat with 0%nat by lia; done).
    simpl. apply last_n_short. rewrite length_app. simpl. lia.
  - apply last_n_app_exact. rewrite length_app. simpl. lia.
Qed.

(** A miss: the key is appended, and the oldest key leaves when the
    capacity is exceeded. *)
Lemma last_n_touch_miss n (R : list key) k :
  (0 < n)%nat → NoDup R → k ∉ last_n n R →
  last_n n (touch R k) =
    let l := last_n n R ++ [k] in
    if decide (n < length l)%nat then tail l else l.
Proof.
  intros Hn Hnd Hnin. pose proof (last_n_split n R) as Hs.
  pose proof (last_n_length n R) as Hlen.
  set (A := take (length R - n) R) in *. set (B := last_n n R) in *.
  assert (length A = length R - n)%nat as HlenA by (subst A; rewrite length_take; lia).
  unfold touch. rewrite <- Hs at 1. rewrite filter_app, (filter_ne_notin B) by done.
  rewrite <- (assoc (++)). simpl. rewrite length_app. simpl.
  destruct (decide (n < length B + 1)%nat) as [Hfull|Hroom].
  - assert (length B = n) as HB by lia.
    destruct B as [|b B']; [simpl in *; lia|]. simpl.
    replace (filter (λ x, x ≠ k) A ++ b :: B' ++ [k])
      with ((filter (λ x, x ≠ k) A ++ [b]) ++ (B' ++ [k]))
      by (rewrite <- (assoc (++)); done).
    apply last_n_app_exact. rewrite length_app. simpl in *. lia.
  - assert (A = []) as -> by (destruct A; [done|simpl in *; lia]).
    simpl. apply last_n_short. rewrite length_app. simpl. lia.
Qed.

Lemma keys_cache_put_new c k v :
  k ∉ keys c →
  keys (_cache_put c k v) =
    let l := keys c ++ [k] in
    if decide (cap < length l)%nat then tail l else l.
Proof.
  intros Hnin. unfold _cache_put.
  assert (k ∈ keys (setitem c k v)) as Hin
    by (rewrite keys_setitem_new by done; set_solver).
  assert (keys (move_to_end (setitem c k v) k) = keys c ++ [k]) as Hk.
  { rewrite keys_move_to_end by done. rewrite keys_setitem_new by done.
    unfold touch. rewrite filter_app, filter_ne_notin by done.
    rewrite filter_cons_False by (simpl; tauto). rewrite filter_nil.
    by rewrite app_nil_r. }
  assert (len (move_to_end (setitem c k v) k) = Z.of_nat (length (keys c ++ [k]))) as Hl.
  { unfold len. rewrite <- Hk. unfold keys. by rewrite length_map. }
  simpl. rewrite Hl. unfold cap, MAX_TILE_CACHE.
  destruct (Z.ltb_spec 512 (Z.of_nat (length (keys c ++ [k])))) as [Hlt|Hge].
  - rewrite decide_True by lia. unfold popitem_first.
    rewrite <- Hk. unfold keys. by destruct (move_to_end _ _).
  - rewrite decide_False by lia. done.
Qed.

Section WithHost.
Context {H : Host}.

Lemma keys_get st z x y R :
  NoDup R → keys (_tile_cache st) = last_n cap R →
  keys (_tile_cache (get_decoded_tile st z x y).2) = last_n cap (touch R (z, x, y)).
Proof.
  intros Hnd Hinv. unfold get_decoded_tile. rewrite contains_keys.
  destruct (decide ((z, x, y) ∈ keys (_tile_cache st))) as [Hin|Hnin].
  - rewrite bool_decide_eq_true_2 by done. simpl.
    rewrite keys_move_to_end by done. rewrite Hinv in *.
    by rewrite last_n_touch_hit.
  - rewrite bool_decide_eq_false_2 by done.
    destruct (fetch_tile _ _) as [raw w]. simpl.
    rewrite keys_cache_put_new by done. rewrite Hinv in *.
    rewrite last_n_touch_miss; [done|unfold cap, MAX_TILE_CACHE; lia|done|done].
Qed.

Lemma keys_gets ks st R :
  NoDup R → keys (_tile_cache st) = last_n cap R →
  keys (_tile_cache (gets ks st)) = last_n cap (fold_left touch ks R).
Proof.
  revert st R. induction ks as [|[[z x] y] ks IH]; intros st R Hnd Hinv; [done|].
  simpl. apply IH; [by apply NoDup_touch|by apply keys_get].
Qed.

(** Claim C7.  After any sequence of calls of [get_decoded_tile] from an
    empty cache that names more than 512 distinct keys, the cache holds 512
    entries, and its keys are the 512 most recently used ones, least
    recent first: every call, hit or miss, makes its key the most recent,
    and what is evicted is the least recently used. *)
Theorem lru_holds_most_recent (w : world) (ks : list key) :
  MAX_TILE_CACHE < len (recency_order ks) →
  let c := _tile_cache (gets ks (mk_store [] w)) in
  tile_cache_size c = MAX_TILE_CACHE ∧ keys c = last_n cap (recency_order ks).
Proof.
  intros HN c.
  assert (keys c = last_n cap (recency_order ks)) as Hk.
  { apply (keys_gets ks (mk_store [] w) []); [apply NoDup_nil_2|done]. }
  split; [|exact Hk].
  unfold tile_cache_size, len. replace (length c) with (length (keys c))
    by (unfold keys; by rewrite length_map).
  rewrite Hk, last_n_length. unfold len, MAX_TILE_CACHE, cap, MAX_TILE_CACHE in *. lia.
Qed.

End WithHost.

(** 520 misses and one hit: the cache is full, the first eight keys are
    gone and the key asked for again is the most recent one. *)
Lemma lru_holds_most_recent_witness :
  MAX_TILE_CACHE < len (recency_order examples.many_keys) ∧
  let c := _tile_cache (gets (H := examples.offline_host) examples.many_keys
                             (mk_store [] (tt : @world examples.offline_host))) in
  tile_cache_size c = MAX_TILE_CACHE ∧ keys c = last_n cap (recency_order examples.many_keys).
Proof.
  assert (MAX_TILE_CACHE < len (recency_order examples.many_keys)) as Hmany
    by (vm_compute; reflexivity).
  split; [exact Hmany|].
  exact (lru_holds_most_recent (H := examples.offline_host) (tt : @world examples.offline_host)
           examples.many_keys Hmany).
Defined.

End lru.


Module annexf.
Import mvt_decoder render cache view ascii_map props.

Section WithLibm.
Context {L : Libm} {F : AnnexF L}.

Lemma math_sin_zero : math.sin zero = Ok zero.
Proof. unfold math.sin, math.math_1, zero. by rewrite sin_zero. Qed.

Lemma math_log_one : math.log one = Ok zero.
Proof.
  unfold math.log, one. f_equal. change (S754_finite false 4503599627370496 (-52)) with (round_m2e 1 0).
  apply log_one.
Qed.

Lemma math_exp_zero s : math.exp (S754_zero s) = Ok one.
Proof. unfold math.exp, math.math_1. by rewrite exp_zero. Qed.

Lemma math_atan_zero : math.atan zero = Ok zero.
Proof. unfold math.atan, math.math_1, zero. by rewrite atan_zero. Qed.

End WithLibm.

Lemma bind_ok {A B} (k : A → Py.result B) (v : A) : mbind k (Ok v) = k v.
Proof. reflexivity. Qed.

(** The expression being evaluated next: the innermost first operand of
    the nested binds. *)
Ltac head_of t :=
  lazymatch t with
  | mbind _ ?m => head_of m
  | _ => t
  end.

Ltac eval_to x v :=
  first [ constr_eq x v | replace x with v by (vm_compute; reflexivity) ].

(** One step of the evaluation: a libm call at an Annex F point is rewritten
    with its exact value, everything else is computed. *)
Ltac step :=
  lazymatch goal with
  | |- ?lhs = _ =>
      let m := head_of lhs in
      lazymatch m with
      | Ok _ => rewrite bind_ok; cbv beta iota zeta
      | math.sin ?x => eval_to x zero; rewrite math_sin_zero
      | math.log ?x => eval_to x one; rewrite math_log_one
      | math.exp ?x =>
          let v := eval vm_compute in x in eval_to x v; rewrite math_exp_zero
      | math.atan ?x => eval_to x zero; rewrite math_atan_zero
      | _ => let v := eval vm_compute in m in progress eval_to m v
      end
  end.

Ltac decide_direction :=
  repeat match goal with
    | |- context [bool_decide ?P] =>
        let v := eval vm_compute in (bool_decide P) in
        replace (bool_decide P) with v by (vm_compute; reflexivity)
    end;
  cbv beta iota zeta.

(** [normalize_view], [pan] and the conversions they call, opened up to
    their arithmetic. *)
Ltac open_view :=
  unfold pan, normalize_view, clamp_wy, coords.latlon_to_world_pixel,
    coords.world_pixel_to_latlon, coords.int_mul, coords.fmul_num,
    coords.fdiv_num, coords.fmul_int, coords.fdiv_int.

End annexf.

Module panning.
Import mvt_decoder render cache view ascii_map props annexf.

Section WithLibm.
Context {L : Libm} {F : AnnexF L}.

(** Claim C8.  With a C library that is exact at the Annex F points,
    [pan(0, 0, 0, "right", 10, 0.6)] returns latitude 0 and longitude
    8.4375, positive and below 9 degrees, and [pan(0, 0, 0, "left", 10, 0.6)]
    returns latitude 0 and longitude -8.4375. *)
Theorem pan_right_left_at_origin :
  pan zero zero 0 (lit "right") 10 (literal 6 1) = Ok (zero, lon_step) ∧
  pan zero zero 0 (lit "left") 10 (literal 6 1) = Ok (zero, fneg lon_step) ∧
  flt zero lon_step = true ∧ flt lon_step (round_m2e 9 0) = true.
Proof.
  split_and!; [| |vm_compute; reflexivity|vm_compute; reflexivity];
    open_view; decide_direction; repeat step; vm_compute; reflexivity.
Qed.

End WithLibm.

Lemma toy_libm_annex_f : AnnexF examples.toy_libm.
Proof. split; try intros []; reflexivity. Defined.

Lemma pan_right_left_at_origin_witness :
  AnnexF examples.toy_libm ∧
  pan (L := examples.toy_libm) zero zero 0 (lit "right") 10 (literal 6 1)
    = Ok (zero, lon_step) ∧
  pan (L := examples.toy_libm) zero zero 0 (lit "left") 10 (literal 6 1)
    = Ok (zero, fneg lon_step) ∧
  flt zero lon_step = true ∧ flt lon_step (round_m2e 9 0) = true.
Proof.
  split; [exact toy_libm_annex_f|].
  exact (pan_right_left_at_origin (L := examples.toy_libm) (F := toy_libm_annex_f)).
Defined.

End panning.

Module normalizing.
Import mvt_decoder render cache view ascii_map props annexf.

Section WithLibm.
Context {L : Libm}.

Lemma pow2_clamped zoom :
  math.pow2 (Z.max MIN_ZOOM (Z.min zoom MAX_ZOOM))
  = Ok (NInt (2 ^ Z.max MIN_ZOOM (Z.min zoom MAX_ZOOM))).
Proof.
  unfold math.pow2, MIN_ZOOM. by rewrite (proj2 (Z.leb_le _ _)) by lia.
Qed.

Lemma normalize_view_zoom lat lon zoom lat' lon' zoom' wx wy world_size :
  normalize_view lat lon zoom = Ok (lat', lon', zoom', wx, wy, world_size) →
  zoom' = Z.max 0 (Z.min zoom 14) ∧ world_size = 256 * 2 ^ zoom'.
Proof.
  unfold normalize_view.
  destruct (coords.latlon_to_world_pixel _ _ _ _) as [[wx0 wy0]|]; simpl; [|done].
  destruct (fmod _ _); simpl; [|done].
  destruct (clamp_wy _ _); simpl; [|done].
  destruct (coords.world_pixel_to_latlon _ _ _ _) as [[lat0 lon0]|]; simpl; [|done].
  by intros [= _ _ <- _ _ <-].
Qed.


Context {F : AnnexF L}.

(** With a C library that is exact at the Annex F points, the view
    (0, 200, 0) normalizes to longitude -160 at [wx = 14.222...], and
    normalizing that again moves [wx] by four units in the last place:
    [270.22... % 256] keeps the rounding of the larger number, which the
    second pass does not see. *)
Lemma normalize_view_twice :
  normalize_view zero (round_m2e 200 0) 0
    = Ok (zero, fneg (round_m2e 160 0), 0, examples.wx_first, round_m2e 128 0, 256) ∧
  normalize_view zero (fneg (round_m2e 160 0)) 0
    = Ok (zero, fneg (round_m2e 160 0), 0, examples.wx_second, round_m2e 128 0, 256).
Proof.
  split; open_view; repeat step; vm_compute; reflexivity.
Qed.

End WithLibm.



End normalizing.

Module varint.
Import mvt_decoder props.

Lemma byte_val_range b : 0 ≤ byte_val b < 256.
Proof. pose proof (Byte.to_N_bounded b). unfold byte_val. lia. Qed.

Lemma land_127 b : Z.land (byte_val b) 127 = byte_val b mod 128.
Proof. change 127 with (Z.ones 7). by rewrite Z.land_ones. Qed.

Lemma land_128 b : (Z.land (byte_val b) 128 =? 0) = bool_decide (byte_val b < 128).
Proof. by destruct b. Qed.

(** Bits set in disjoint places add up. *)
Lemma lor_shiftl_add r d s :
  0 ≤ s → 0 ≤ r < 2 ^ s → Z.lor r (Z.shiftl d s) = r + d * 2 ^ s.
Proof.
  intros Hs Hr. rewrite <- Z.shiftl_mul_pow2 by done.
  rewrite <- Z.lxor_lor, <- Z.add_nocarry_lxor; try done;
    apply Z.bits_inj'; intros n Hn; rewrite Z.land_spec, Z.bits_0;
    (destruct (Z.lt_ge_cases n s) as [Hlt|Hge];
     [rewrite Z.shiftl_spec_low by done; apply andb_false_r|]);
    (destruct (decide (r = 0)) as [->|Hne]; [by rewrite Z.bits_0|]);
    rewrite (Z.bits_above_log2 r n); try done; try lia;
    (apply Z.lt_le_trans with s; [|done]); apply Z.log2_lt_pow2; lia.
Qed.

Lemma _read_varint_loop_value rest pos result shift v pos' :
  0 ≤ shift → 0 ≤ result < 2 ^ shift →
  _read_varint_loop rest pos result shift = Ok (v, pos') →
  ∃ bs b tl, rest = bs ++ b :: tl ∧ Forall more_follows bs ∧ ends_varint b ∧
    pos' = pos + len bs + 1 ∧ v = result + 2 ^ shift * base128 (bs ++ [b]).
Proof.
  revert pos result shift.
  induction rest as [|a rest IH]; intros pos result shift Hs Hr; simpl; [done|].
  pose proof (Z.mod_pos_bound (byte_val a) 128 ltac:(done)) as Hd.
  rewrite land_127, land_128, lor_shiftl_add by done.
  case_bool_decide as Ha.
  - intros [= <- <-]. exists [], a, rest.
    split_and!; try done; unfold ends_varint, len; simpl; lia.
  - intros Hrun. apply IH in Hrun as (bs & b & tl & -> & Hbs & Hb & -> & ->).
    + exists (a :: bs), b, tl. split_and!; try done.
      * constructor; [unfold more_follows; lia|done].
      * unfold len. simpl. lia.
      * simpl. rewrite Z.pow_add_r by lia. lia.
    + lia.
    + rewrite Z.pow_add_r by lia. nia.
Qed.

Lemma slice_app_exact {A} (buf bs tl : list A) pos :
  0 ≤ pos → drop (Z.to_nat pos) buf = bs ++ tl → bs ≠ [] →
  slice buf pos (len bs) = bs.
Proof.
  intros Hpos Hdrop Hne. unfold slice.
  assert (length (drop (Z.to_nat pos) buf) = (length bs + length tl)%nat) as Hlen
    by (by rewrite Hdrop, length_app).
  rewrite length_drop in Hlen.
  assert (0 < length bs)%nat by (destruct bs; [done|simpl; lia]).
  destruct (Z.leb_spec (Z.of_nat (length buf)) pos); [lia|].
  rewrite Hdrop. unfold len.
  replace (Z.to_nat (Z.of_nat (length bs) `min` (Z.of_nat (length buf) - pos)))
    with (length bs) by lia.
  by rewrite take_app_length.
Qed.

(** X1.  When [_read_varint(buf, pos)] returns [(v, pos')], the bytes
    [buf[pos:pos']] are a complete varint -- every byte but the last is 128
    or more, the last is below 128 -- and [v] is the number they write in
    base 128, least significant digit first; at least one byte is read and
    none past the end of the buffer. *)
Theorem read_varint_value buf pos v pos' :
  0 ≤ pos → _read_varint buf pos = Ok (v, pos') →
  pos < pos' ≤ len buf ∧
  ∃ bs b, slice buf pos (pos' - pos) = bs ++ [b] ∧
          Forall more_follows bs ∧ ends_varint b ∧ v = base128 (bs ++ [b]).
Proof.
  intros Hpos Hrun. split; [by eapply wire._read_varint_advances|].
  unfold _read_varint in Hrun. destruct (_ <=? _); [done|].
  apply _read_varint_loop_value in Hrun as (bs & b & tl & Hdrop & Hbs & Hb & -> & ->);
    [|done|simpl; lia].
  exists bs, b. split_and!; try done; [|simpl; lia].
  replace (pos + len bs + 1 - pos) with (len (bs ++ [b]))
    by (unfold len; rewrite length_app; simpl; lia).
  apply slice_app_exact with tl; [done| |by destruct bs].
  by rewrite <- (assoc (++)).
Qed.

Lemma read_varint_value_witness :
  0 ≤ 1 ∧ _read_varint (examples.B [0x08; 0xAC; 0x02; 0x07]%N) 1 = Ok (300, 3) ∧
  1 < 3 ≤ len (examples.B [0x08; 0xAC; 0x02; 0x07]%N) ∧
  ∃ bs b, slice (examples.B [0x08; 0xAC; 0x02; 0x07]%N) 1 (3 - 1) = bs ++ [b] ∧
          Forall more_follows bs ∧ ends_varint b ∧ 300 = base128 (bs ++ [b]).
Proof.
  assert (0 ≤ 1) as Hpos by lia.
  assert (_read_varint (examples.B [0x08; 0xAC; 0x02; 0x07]%N) 1 = Ok (300, 3)) as Hrun
    by (vm_compute; reflexivity).
  split; [exact Hpos|]. split; [exact Hrun|].
  exact (read_varint_value _ _ _ _ Hpos Hrun).
Defined.

Lemma _read_varint_loop_raises rest pos result shift :
  _read_varint_loop rest pos result shift = Raise ValueError ↔ Forall more_follows rest.
Proof.
  revert pos result shift.
  induction rest as [|a rest IH]; intros pos result shift; simpl; [done|].
  rewrite land_128. case_bool_decide as Ha.
  - split; [done|]. intros [Hm _]%Forall_cons. unfold more_follows in Hm. lia.
  - rewrite IH. split; [|by intros [_ ?]%Forall_cons].
    intros Hrest. constructor; [unfold more_follows; lia|done].
Qed.

(** X2.  [_read_varint(buf, pos)] raises, and then [ValueError], exactly
    when no byte from [pos] on ends a varint: every byte of [buf[pos:]] is
    128 or more (in particular when [pos] is at or past the end). *)
Theorem read_varint_truncated buf pos :
  0 ≤ pos →
  (is_ok (_read_varint buf pos) = false ↔ Forall more_follows (drop (Z.to_nat pos) buf)) ∧
  (is_ok (_read_varint buf pos) = false → _read_varint buf pos = Raise ValueError).
Proof.
  intros Hpos. unfold _read_varint.
  destruct (Z.leb_spec (len buf) pos) as [Hge|Hlt].
  - split; [|done]. split; [|done]. intros _.
    rewrite drop_ge by (unfold len in Hge; lia). done.
  - rewrite <- _read_varint_loop_raises with (pos := pos) (result := 0) (shift := 0).
    assert (∀ r : Py.result (Z * Z), is_ok r = false →
            (∀ e, r = Raise e → e = ValueError) → r = Raise ValueError) as Hcase.
    { intros [?|e] Hr He; [done|]. by rewrite (He e). }
    assert (∀ rest p r s e, _read_varint_loop rest p r s = Raise e → e = ValueError) as Hexn.
    { induction rest as [|a rest IH]; intros p r s e; simpl; [congruence|].
      destruct (_ =? 0); [done|]. apply IH. }
    split.
    + split; [|by intros ->]. intros Hr. apply Hcase; [done|]. apply Hexn.
    + intros Hr. apply Hcase; [done|]. apply Hexn.
Qed.

Lemma read_varint_truncated_witness :
  0 ≤ 1 ∧
  (is_ok (_read_varint (examples.B [0x08; 0xAC; 0x82]%N) 1) = false
   ↔ Forall more_follows (drop (Z.to_nat 1) (examples.B [0x08; 0xAC; 0x82]%N))) ∧
  (is_ok (_read_varint (examples.B [0x08; 0xAC; 0x82]%N) 1) = false →
   _read_varint (examples.B [0x08; 0xAC; 0x82]%N) 1 = Raise ValueError).
Proof.
  assert (0 ≤ 1) as Hpos by lia.
  split; [exact Hpos|].
  exact (read_varint_truncated (examples.B [0x08; 0xAC; 0x82]%N) 1 Hpos).
Defined.

(** X3.  The bit pattern [(v >> 1) ^ -(v & 1)] that undoes the zigzag
    encoding is [v / 2] for an even [v] and [-(v + 1) / 2] for an odd
    one. *)
Theorem zigzag_halves v :
  zigzag v = if Z.even v then v / 2 else - ((v + 1) / 2).
Proof.
  unfold zigzag. rewrite Z.shiftr_div_pow2 by done. change (2 ^ 1) with 2.
  change 1 with (Z.ones 1) at 1. rewrite Z.land_ones by done. change (2 ^ 1) with 2.
  rewrite Zmod_even. destruct (Z.even v) eqn:Hev.
  - simpl. apply Z.lxor_0_r.
  - change (- (1)) with (-1). rewrite Z.lxor_m1_r. unfold Z.lnot.
    pose proof (Z.div_mod v 2 ltac:(done)) as Hv. rewrite Zmod_even, Hev in Hv.
    replace (v + 1) with ((v / 2 + 1) * 2) by lia.
    rewrite Z.div_mul by done. lia.
Qed.

End varint.

Module packed.
Import mvt_decoder props varint.

Lemma _read_varint_loop_exn rest p r s e :
  _read_varint_loop rest p r s = Raise e → e = ValueError.
Proof.
  revert p r s. induction rest as [|a rest IH]; intros p r s; simpl; [congruence|].
  destruct (_ =? 0); [done|]. apply IH.
Qed.

Lemma _read_varint_exn buf pos e : _read_varint buf pos = Raise e → e = ValueError.
Proof.
  unfold _read_varint. destruct (_ <=? _); [congruence|]. apply _read_varint_loop_exn.
Qed.

Lemma filter_more_follows bs :
  Forall more_follows bs → filter (λ b, byte_val b < 128) bs = [].
Proof.
  induction 1 as [|b bs Hb _ IH]; [done|].
  rewrite filter_cons_False by (unfold more_follows in Hb; lia). done.
Qed.

Lemma _decode_packed_uint32_loop_spec fuel buf pos values :
  0 ≤ pos → (remaining buf pos < fuel)%nat →
  match last (drop (Z.to_nat pos) buf) with
  | None => _decode_packed_uint32_loop fuel buf pos values = Ok values
  | Some b =>
      if bool_decide (byte_val b < 128) then
        ∃ vs, _decode_packed_uint32_loop fuel buf pos values = Ok (values ++ vs) ∧
              length vs = length (filter (λ b, byte_val b < 128) (drop (Z.to_nat pos) buf)) ∧
              Forall (λ v, 0 ≤ v) vs
      else _decode_packed_uint32_loop fuel buf pos values = Raise ValueError
  end.
Proof.
  revert pos values. induction fuel as [|fuel IH]; intros pos values Hpos Hfuel; [lia|].
  simpl. destruct (Z.ltb_spec pos (len buf)) as [Hlt|Hge].
  2:{ rewrite drop_ge by (unfold len in Hge; lia). done. }
  destruct (_read_varint buf pos) as [[v pos']|e] eqn:Hv; simpl.
  - pose proof (wire._read_varint_nonneg _ _ _ _ Hv) as Hnn.
    pose proof (wire._read_varint_advances _ _ _ _ Hpos Hv) as Hadv.
    unfold _read_varint in Hv. destruct (_ <=? _); [done|].
    apply _read_varint_loop_value in Hv as (bs & b0 & tl & Hdrop & Hbs & Hb0 & Hpos' & _);
      [|done|simpl; lia].
    assert (drop (Z.to_nat pos') buf = tl) as Htl.
    { replace (Z.to_nat pos') with (Z.to_nat pos + (length bs + 1))%nat
        by (unfold len in Hpos'; lia).
      rewrite <- drop_drop, Hdrop.
      replace (bs ++ b0 :: tl) with ((bs ++ [b0]) ++ tl) by (by rewrite <- (assoc (++))).
      rewrite drop_app_length'; [done|]. rewrite length_app. simpl. lia. }
    specialize (IH pos' (values ++ [v]) ltac:(lia) ltac:(unfold remaining in *; lia)).
    rewrite Htl in IH. rewrite Hdrop.
    rewrite filter_app, filter_more_follows by done. simpl.
    rewrite filter_cons_True by done.
    destruct (last tl) as [b|] eqn:Hlast.
    + replace (last (bs ++ b0 :: tl)) with (Some b).
      2:{ apply last_Some in Hlast as [l' ->]. symmetry. apply last_Some.
          exists (bs ++ b0 :: l'). by rewrite <- (assoc (++)). }
      case_bool_decide; [|done].
      destruct IH as (vs & -> & Hlen & Hvs). exists (v :: vs).
      rewrite <- (assoc (++)). split_and!; [done|simpl; lia|by constructor].
    + apply last_None in Hlast as ->. rewrite last_snoc.
      rewrite bool_decide_eq_true_2 by done.
      exists [v]. split_and!; [done|done|by repeat constructor].
  - pose proof (_read_varint_exn _ _ _ Hv) as ->.
    assert (Forall more_follows (drop (Z.to_nat pos) buf)) as Hr.
    { unfold _read_varint in Hv. destruct (Z.leb_spec (len buf) pos); [lia|].
      by apply _read_varint_loop_raises in Hv. }
    destruct (last (drop (Z.to_nat pos) buf)) as [b|] eqn:Hlast.
    + apply last_Some in Hlast as [l' Hl]. rewrite Hl in Hr.
      apply Forall_app in Hr as [_ [Hb _]%Forall_cons].
      rewrite bool_decide_eq_false_2 by (unfold more_follows in Hb; lia). done.
    + apply last_None in Hlast.
      assert (length (drop (Z.to_nat pos) buf) = 0%nat) as Hl by (by rewrite Hlast).
      rewrite length_drop in Hl. unfold len in Hlt. lia.
Qed.

(** X4.  [_decode_packed_uint32(buf)] raises [ValueError] when the last
    byte of [buf] is 128 or more: the last varint is cut short. *)
Theorem packed_uint32_truncated buf b :
  last buf = Some b → more_follows b → _decode_packed_uint32 buf = Raise ValueError.
Proof.
  intros Hlast Hb. unfold _decode_packed_uint32.
  pose proof (_decode_packed_uint32_loop_spec (S (length buf)) buf 0 []
                ltac:(done) (wire.remaining_start buf)) as Hspec.
  change (drop (Z.to_nat 0) buf) with buf in Hspec. rewrite Hlast in Hspec.
  rewrite bool_decide_eq_false_2 in Hspec by (unfold more_follows in Hb; lia). done.
Qed.

Lemma packed_uint32_truncated_witness :
  last (examples.B [0x05; 0xAC; 0x02; 0x81]%N) = Some (default x00 (Byte.of_N 0x81)) ∧
  more_follows (default x00 (Byte.of_N 0x81)) ∧
  _decode_packed_uint32 (examples.B [0x05; 0xAC; 0x02; 0x81]%N) = Raise ValueError.
Proof.
  assert (last (examples.B [0x05; 0xAC; 0x02; 0x81]%N) = Some (default x00 (Byte.of_N 0x81)))
    as Hlast by reflexivity.
  assert (more_follows (default x00 (Byte.of_N 0x81))) as Hb by (vm_compute; congruence).
  split; [exact Hlast|]. split; [exact Hb|].
  exact (packed_uint32_truncated _ _ Hlast Hb).
Defined.

(** X5.  In every other case -- [buf] is empty or its last byte is below
    128 -- [_decode_packed_uint32(buf)] returns a list with one value for
    each byte below 128 in [buf], and no value is negative. *)
Theorem packed_uint32_count buf :
  (∀ b, last buf = Some b → ends_varint b) →
  ∃ vs, _decode_packed_uint32 buf = Ok vs ∧
        length vs = length (filter (λ b, byte_val b < 128) buf) ∧
        Forall (λ v, 0 ≤ v) vs.
Proof.
  intros Hlast. unfold _decode_packed_uint32.
  pose proof (_decode_packed_uint32_loop_spec (S (length buf)) buf 0 []
                ltac:(done) (wire.remaining_start buf)) as Hspec.
  change (drop (Z.to_nat 0) buf) with buf in Hspec. destruct (last buf) as [b|] eqn:Hl.
  - rewrite bool_decide_eq_true_2 in Hspec by (by apply Hlast). done.
  - apply last_None in Hl as ->. exists []. done.
Qed.

Lemma packed_uint32_count_witness :
  (∀ b, last (examples.B [0x05; 0xAC; 0x02; 0x01]%N) = Some b → ends_varint b) ∧
  ∃ vs, _decode_packed_uint32 (examples.B [0x05; 0xAC; 0x02; 0x01]%N) = Ok vs ∧
        length vs = length (filter (λ b, byte_val b < 128)
                                   (examples.B [0x05; 0xAC; 0x02; 0x01]%N)) ∧
        Forall (λ v, 0 ≤ v) vs.
Proof.
  assert (∀ b, last (examples.B [0x05; 0xAC; 0x02; 0x01]%N) = Some b → ends_varint b)
    as Hlast by (intros b [= <-]; vm_compute; reflexivity).
  split; [exact Hlast|].
  exact (packed_uint32_count _ Hlast).
Defined.

End packed.

Module decoding.
Import mvt_decoder props varint packed.

(** The Python type of what the generator yields follows the wire type. *)
Lemma _parse_message_next_type buf pos end_ field wtype val pos' :
  _parse_message_next buf pos end_ = Ok (Some (field, wtype, val, pos')) →
  match val with
  | PyInt _ => wtype = 0
  | PyBytes _ => wtype = 2
  | PyFloat _ => wtype = 5 ∨ wtype = 1
  | _ => False
  end.
Proof.
  unfold _parse_message_next. destruct (pos <? end_); [|done].
  destruct (_read_varint buf pos) as [[tag p1]|]; simpl; [|done].
  destruct (Z.eqb_spec (Z.land tag 7) 0) as [H0|H0].
  { destruct (_read_varint buf p1) as [[v p2]|]; simpl; [|done].
    by intros [= <- <- <- <-]. }
  destruct (Z.eqb_spec (Z.land tag 7) 2) as [H2|H2].
  { destruct (_read_varint buf p1) as [[v p2]|]; simpl; [|done].
    by intros [= <- <- <- <-]. }
  destruct (Z.eqb_spec (Z.land tag 7) 5) as [H5|H5].
  { destruct (unpack_from _ _ _ _ _); simpl; [|done]. intros [= <- <- <- <-]. auto. }
  destruct (Z.eqb_spec (Z.land tag 7) 1) as [H1|H1]; [|done].
  destruct (unpack_from _ _ _ _ _); simpl; [|done]. intros [= <- <- <- <-]. auto.
Qed.

(** X6.  [_decode_value] selects on the field number alone.  When the
    first field of the message has number 1 (string) but is not
    length-delimited, [val.decode] raises [AttributeError]; when it has
    number 6 (sint) but is not a varint, [val >> 1] raises [TypeError]. *)
Theorem decode_value_wrong_wire_type data field wtype val pos' :
  _parse_message_next data 0 (len data) = Ok (Some (field, wtype, val, pos')) →
  (field = _VALUE_STRING → wtype ≠ 2 → _decode_value data = Raise AttributeError) ∧
  (field = _VALUE_SINT → wtype ≠ 0 → _decode_value data = Raise TypeError).
Proof.
  intros Hn. pose proof (_parse_message_next_type _ _ _ _ _ _ _ Hn) as Hty.
  unfold _decode_value. simpl. rewrite Hn. simpl.
  split; intros -> Hw; simpl; by destruct val.
Qed.

Lemma decode_value_wrong_wire_type_witness :
  _parse_message_next (examples.B [0x08; 0x05]%N) 0 (len (examples.B [0x08; 0x05]%N))
    = Ok (Some (1, 0, PyInt 5, 2)) ∧
  (1 = _VALUE_STRING → 0 ≠ 2 →
   _decode_value (examples.B [0x08; 0x05]%N) = Raise AttributeError) ∧
  (1 = _VALUE_SINT → 0 ≠ 0 →
   _decode_value (examples.B [0x08; 0x05]%N) = Raise TypeError).
Proof.
  assert (_parse_message_next (examples.B [0x08; 0x05]%N) 0 (len (examples.B [0x08; 0x05]%N))
          = Ok (Some (1, 0, PyInt 5, 2))) as Hn by (vm_compute; reflexivity).
  split; [exact Hn|].
  exact (decode_value_wrong_wire_type _ _ _ _ _ Hn).
Defined.

(** *** Properties of a feature *)

Lemma _decode_packed_uint32_nonneg buf vs :
  _decode_packed_uint32 buf = Ok vs → Forall (λ v, 0 ≤ v) vs.
Proof.
  unfold _decode_packed_uint32.
  pose proof (_decode_packed_uint32_loop_spec (S (length buf)) buf 0 []
                ltac:(done) (wire.remaining_start buf)) as Hspec.
  destruct (last _) as [b|].
  - case_bool_decide.
    + destruct Hspec as (vs' & -> & _ & Hvs). by intros [= <-].
    + by rewrite Hspec.
  - rewrite Hspec. by intros [= <-].
Qed.

Lemma item_elem_of {A} (d : A) l i : 0 ≤ i < len l → item d l i ∈ l.
Proof.
  intros Hi. unfold item, len in *. apply list_elem_of_In, nth_In. lia.
Qed.

Lemma tag_properties_from tag_indices keys values properties k v :
  Forall (λ i, 0 ≤ i) tag_indices →
  tag_properties tag_indices keys values properties !! k = Some v →
  properties !! k = Some v ∨ (k ∈ keys ∧ v ∈ values).
Proof.
  enough (∀ l,
    (∀ properties, Forall (λ i, 0 ≤ i) l →
       tag_properties l keys values properties !! k = Some v →
       properties !! k = Some v ∨ (k ∈ keys ∧ v ∈ values)) ∧
    (∀ x properties, Forall (λ i, 0 ≤ i) (x :: l) →
       tag_properties (x :: l) keys values properties !! k = Some v →
       properties !! k = Some v ∨ (k ∈ keys ∧ v ∈ values))) as Hboth
    by (apply Hboth).
  clear properties.
  induction l as [|vi l [IH1 IH2]]; (split; [|intros ki]); intros properties Hall; simpl; auto.
  - by apply IH2.
  - apply Forall_cons in Hall as [Hki [Hvi Hall]%Forall_cons].
    intros Hk. apply IH1 in Hk; [|done].
    destruct Hk as [Hk|Hk]; [|by right].
    destruct (Z.ltb_spec ki (len keys)), (Z.ltb_spec vi (len values)); simpl in Hk; auto.
    destruct (decide (item [] keys ki = k)) as [<-|Hne].
    + rewrite lookup_insert_eq in Hk. injection Hk as <-.
      right. split; by apply item_elem_of.
    + rewrite lookup_insert_ne in Hk by done. auto.
Qed.

(** X7.  Every property of a decoded feature pairs a key of the layer's
    key table with a value of its value table: tag indices outside the
    tables are skipped, never defaulted. *)
Theorem feature_properties_from_tables fd keys values extent y_coord_down f k v :
  _decode_feature fd keys values extent y_coord_down = Ok f →
  f_properties f !! k = Some v →
  k ∈ keys ∧ v ∈ values.
Proof.
  unfold _decode_feature. intros Hrun Hk.
  apply shape.bind_Ok in Hrun as ([[geom_type geom_data] tags_raw] & _ & Hrun).
  apply shape.bind_Ok in Hrun as (properties & Hp & Hrun).
  apply shape.bind_Ok in Hrun as (geometry & _ & [= <-]). simpl in Hk.
  destruct (is_empty tags_raw).
  - injection Hp as <-. by rewrite lookup_empty in Hk.
  - apply shape.bind_Ok in Hp as (tag_indices & Hidx & [= <-]).
    apply _decode_packed_uint32_nonneg in Hidx.
    apply tag_properties_from in Hk as [Hk|Hk]; [|done|done].
    by rewrite lookup_empty in Hk.
Qed.

Lemma feature_properties_from_tables_witness :
  _decode_feature (examples.B [0x12; 0x02; 0x00; 0x00]%N) [view.lit "k"] [PyInt 1] 4096 true
    = Ok (mk_feature (MultiPoint []) (<[view.lit "k" := PyInt 1]> ∅)) ∧
  f_properties (mk_feature (MultiPoint []) (<[view.lit "k" := PyInt 1]> ∅)) !! view.lit "k"
    = Some (PyInt 1) ∧
  view.lit "k" ∈ [view.lit "k"] ∧ PyInt 1 ∈ [PyInt 1].
Proof.
  assert (_decode_feature (examples.B [0x12; 0x02; 0x00; 0x00]%N) [view.lit "k"] [PyInt 1]
            4096 true
          = Ok (mk_feature (MultiPoint []) (<[view.lit "k" := PyInt 1]> ∅))) as Hrun
    by (vm_compute; reflexivity).
  assert (f_properties (mk_feature (MultiPoint []) (<[view.lit "k" := PyInt 1]> ∅))
            !! view.lit "k" = Some (PyInt 1)) as Hk by (vm_compute; reflexivity).
  split; [exact Hrun|]. split; [exact Hk|].
  exact (feature_properties_from_tables _ _ _ _ _ _ _ _ Hrun Hk).
Defined.

End decoding.

Module rings.
Import mvt_decoder props.

Lemma for_range_inv {S} (P : S → Prop) n (body : S → step S) s :
  (∀ s s', P s → body s = Continue s' ∨ body s = Break s' → P s') →
  P s → P (for_range n body s).
Proof.
  intros Hbody. revert s. induction n as [|n IH]; intros s HP; simpl; [done|].
  destruct (body s) as [s'|s'] eqn:Hb; [apply IH|]; eapply Hbody; eauto.
Qed.

Lemma move_to_body_rings commands s s' :
  rings_ok s →
  move_to_body commands s = Continue s' ∨ move_to_body commands s = Break s' →
  rings_ok s'.
Proof.
  unfold move_to_body, rings_ok. intros Hs.
  destruct (_ <=? _); intros [[= <-]|[= <-]]; simpl; try done.
  destruct (g_current_ring s) eqn:Hc; simpl; [done|].
  apply Forall_app. split; [done|]. by repeat constructor.
Qed.

Lemma line_to_body_rings commands s s' :
  rings_ok s →
  line_to_body commands s = Continue s' ∨ line_to_body commands s = Break s' →
  rings_ok s'.
Proof.
  unfold line_to_body, rings_ok. intros Hs.
  destruct (_ <=? _); intros [[= <-]|[= <-]]; simpl; done.
Qed.

Lemma close_path_rings s : rings_ok s → rings_ok (close_path s).
Proof.
  unfold close_path, rings_ok. intros Hs.
  destruct (is_empty _) eqn:He; simpl; [done|].
  apply Forall_app. split; [done|]. repeat constructor. by intros Heq; rewrite Heq in He.
Qed.

Lemma _decode_geometry_loop_rings fuel commands st :
  rings_ok st → rings_ok (_decode_geometry_loop fuel commands st).
Proof.
  revert st. induction fuel as [|fuel IH]; intros st Hst; simpl; [done|].
  destruct (_ <? _); [|done]. apply IH.
  repeat match goal with |- context [if ?c then _ else _] => destruct c end.
  - apply for_range_inv; [apply move_to_body_rings|done].
  - apply for_range_inv; [apply line_to_body_rings|done].
  - by apply close_path_rings.
  - done.
Qed.

(** X8.  [_decode_geometry] never emits an empty ring: every line of a
    (Multi)LineString and every ring of a (Multi)Polygon it returns holds
    at least one point. *)
Theorem decoded_rings_nonempty geom_data geom_type extent y_coord_down g :
  _decode_geometry geom_data geom_type extent y_coord_down = Ok g →
  Forall (λ r : ring, r ≠ []) (geometry_rings g).
Proof.
  unfold _decode_geometry. intros Hrun.
  apply shape.bind_Ok in Hrun as (commands & _ & Hrun).
  pose proof (_decode_geometry_loop_rings (length commands) commands
                (mk_geom_state 0 0 0 [] []) ltac:(constructor)) as Hloop.
  revert Hrun. set (st := _decode_geometry_loop _ _ _) in *.
  match goal with |- context [polygons_of_rings ?r] => set (rings := r) end.
  assert (Forall (λ r : ring, r ≠ []) rings) as Hrings.
  { assert (Forall (λ r : ring, r ≠ [])
              (if is_empty (g_current_ring st) then g_rings st
               else g_rings st ++ [g_current_ring st])) as H0.
    { destruct (is_empty _) eqn:He; [done|]. apply Forall_app. split; [done|].
      repeat constructor. by intros Heq; rewrite Heq in He. }
    subst rings. destruct y_coord_down; [done|].
    apply Forall_fmap. eapply Forall_impl; [exact H0|].
    intros r Hr. simpl. by destruct r. }
  clearbody rings. clear Hloop.
  destruct (geom_type =? _GEOM_POINT).
  { destruct (concat rings) as [|p [|? ?]]; intros [= <-]; constructor. }
  destruct (geom_type =? _GEOM_LINESTRING).
  { destruct rings as [|r [|? ?]]; intros [= <-]; simpl; done. }
  destruct (geom_type =? _GEOM_POLYGON); [|intros [= <-]; constructor].
  intros Hrun. apply shape.bind_Ok in Hrun as (polygons & Hp & [= <-]).
  apply grouping.polygons_of_rings_spec in Hp as [_ Hc].
  unfold polygon_geometry. destruct polygons as [|p [|? ?]]; unfold geometry_rings.
  - constructor.
  - simpl in Hc. rewrite app_nil_r in Hc. by subst.
  - by rewrite Hc.
Qed.

Lemma decoded_rings_nonempty_witness :
  _decode_geometry (examples.B [9; 2; 2; 10; 2; 2]%N) 2 4096 true
    = Ok (LineString [(1, 1); (2, 2)]) ∧
  Forall (λ r : ring, r ≠ []) (geometry_rings (LineString [(1, 1); (2, 2)])).
Proof.
  assert (_decode_geometry (examples.B [9; 2; 2; 10; 2; 2]%N) 2 4096 true
          = Ok (LineString [(1, 1); (2, 2)])) as Hrun by (vm_compute; reflexivity).
  split; [exact Hrun|].
  exact (decoded_rings_nonempty _ _ _ _ _ Hrun).
Defined.

End rings.

Module area.
Import mvt_decoder props grouping.

(** The sign bit a float carries; a NaN has none. *)
Lemma binary_round_aux_sign s m e l :
  0 ≤ m →
  match binary_round_aux prec emax s m e l with
  | S754_zero s' | S754_infinity s' | S754_finite s' _ _ => s' = s
  | S754_nan => False
  end.
Proof.
  intros Hm. unfold binary_round_aux.
  pose proof (shr_fexp_nonneg m e l Hm) as H1.
  destruct (shr_fexp prec emax m e l) as [mrs' e']. simpl in H1.
  pose proof (shr_fexp_nonneg _ e' loc_Exact
                (round_nearest_even_nonneg _ (loc_of_shr_record mrs') H1)) as H2.
  destruct (shr_fexp prec emax _ e' loc_Exact) as [mrs'' e'']. simpl in H2.
  destruct (shr_m mrs'') as [|p|p]; [done| |lia].
  by destruct (_ <=? _).
Qed.

Lemma float_of_int_sign n f :
  0 ≤ n → float_of_int n = Ok f → f = S754_zero false ∨ ∃ m e, f = S754_finite false m e.
Proof.
  intros Hn. unfold float_of_int, round_m2e, binary_normalize.
  destruct n as [|p|p]; [|clear Hn|lia].
  { simpl. intros [= <-]. auto. }
  unfold binary_round. destruct (shl_align _ _ _) as [mz ez].
  pose proof (binary_round_aux_sign false (Z.pos mz) ez loc_Exact ltac:(done)) as Hs.
  destruct (binary_round_aux _ _ _ _ _ _) as [s|s| |s m e]; simpl; try done;
    intros [= <-]; subst s; eauto.
Qed.

(** X9.  A ring whose shoelace sum -- an exact int -- is not negative is
    never taken for a hole: the conversion to float and the division by
    2.0 in [_signed_area] keep [area >= 0] true, whatever the rounding. *)
Theorem nonnegative_sum_is_exterior r area :
  0 ≤ shoelace r → _signed_area r = Ok area → fle fzero area = true.
Proof.
  intros Hsum. unfold _signed_area. intros Hrun.
  apply shape.bind_Ok in Hrun as (f & Hf & Hrun).
  apply float_of_int_sign in Hf as [->|(m & e & ->)]; [| |done].
  - vm_compute in Hrun. by injection Hrun as <-.
  - unfold fdiv in Hrun. change (is_zero ftwo) with false in Hrun.
    injection Hrun as <-.
    unfold fdiv_ieee, SFdiv, ftwo. simpl.
    match goal with |- context [SFdiv_core_binary ?p ?e ?a ?b ?c ?d] =>
      pose proof (eq_refl (SFdiv_core_binary p e a b c d)) as Hq;
      unfold SFdiv_core_binary at 2 in Hq;
      destruct (SFdiv_core_binary p e a b c d) as [[mz ez] lz] end.
    assert (0 ≤ mz) as Hmz.
    { cbv zeta in Hq.
      match type of Hq with context [Z.div_eucl ?a ?b] =>
        pose proof (Z_div_mod a b ltac:(done)) as Hd;
        assert (0 ≤ a) as Ha;
        [|destruct (Z.div_eucl a b) as [q rr]; injection Hq as <- _ _; nia] end.
      match goal with |- 0 ≤ match ?s with _ => _ end => destruct s end; try done.
      apply Z.shiftl_nonneg. done. }
    pose proof (binary_round_aux_sign false mz ez lz Hmz) as Hs.
    destruct (binary_round_aux _ _ _ _ _ _) as [s|s| |s m' e']; try done; by subst s.
Qed.

Lemma nonnegative_sum_is_exterior_witness :
  0 ≤ shoelace examples.outer_square ∧
  _signed_area examples.outer_square = Ok (round_m2e 64 0) ∧
  fle fzero (round_m2e 64 0) = true.
Proof.
  assert (0 ≤ shoelace examples.outer_square) as Hsum by (vm_compute; congruence).
  assert (_signed_area examples.outer_square = Ok (round_m2e 64 0)) as Hrun
    by (vm_compute; reflexivity).
  split; [exact Hsum|]. split; [exact Hrun|].
  exact (nonnegative_sum_is_exterior _ _ Hsum Hrun).
Defined.

End area.

Module lines.
Import mvt_decoder render props raster.

Lemma set_char_shape w h fb x y c color :
  fb_shape w h fb → fb_shape w h (set_char fb x y c color).
Proof. intros. unfold set_char. destruct (_ && _); [by apply fb_shape_put|done]. Qed.

Lemma set_char_cell w h fb x y c color x' y' :
  fb_shape w h fb → 0 ≤ x' < w → 0 ≤ y' < h →
  cell (set_char fb x y c color) x' y'
  = if bool_decide (x' = x ∧ y' = y) then Some c else cell fb x' y'.
Proof.
  intros Hs Hx' Hy'. pose proof Hs as (Hw & Hh & _). unfold set_char. rewrite Hw, Hh.
  destruct (Z.leb_spec 0 x), (Z.ltb_spec x w), (Z.leb_spec 0 y), (Z.ltb_spec y h); simpl;
    try (rewrite bool_decide_eq_false_2 by lia; done).
  apply cell_put with w h; try done; try lia. by apply cell_in_range with w h.
Qed.

(** X10.  [set_char(x, y, char)] writes the cell at column [x] of row [y]
    when that cell is inside the framebuffer and changes no other cell;
    for a position outside -- negative coordinates included, which do not
    wrap around -- it changes nothing.  The size is kept. *)
Theorem set_char_writes_one_cell w h fb x y c color x' y' :
  fb_shape w h fb → 0 ≤ x' < w → 0 ≤ y' < h →
  fb_shape w h (set_char fb x y c color) ∧
  cell (set_char fb x y c color) x' y'
  = if bool_decide (x' = x ∧ y' = y) then Some c else cell fb x' y'.
Proof.
  intros Hs Hx' Hy'. split; [by apply set_char_shape|by apply set_char_cell with w h].
Qed.

Lemma set_char_writes_one_cell_witness :
  fb_shape 6 5 (render.new 6 5) ∧ 0 ≤ 2 < 6 ∧ 0 ≤ 3 < 5 ∧
  fb_shape 6 5 (set_char (render.new 6 5) (-1) 3 examples.hash 0) ∧
  cell (set_char (render.new 6 5) (-1) 3 examples.hash 0) 2 3
  = if bool_decide (2 = -1 ∧ 3 = 3) then Some examples.hash
    else cell (render.new 6 5) 2 3.
Proof.
  assert (0 ≤ 2 < 6) as Hx by lia. assert (0 ≤ 3 < 5) as Hy by lia.
  split; [exact (new_shape 6 5)|]. split; [exact Hx|]. split; [exact Hy|].
  exact (set_char_writes_one_cell 6 5 _ (-1) 3 examples.hash 0 2 3 (new_shape 6 5) Hx Hy).
Defined.

(** *** The line *)

(** What a drawing step may do to the cells: paint [c] inside the box
    spanned by two points, nothing else. *)
Lemma draw_line_loop_cells w h fuel fb x y x1 y1 dx dy sx sy err c color rx ry :
  fb_shape w h fb → on_track x1 y1 dx dy sx sy x y err rx ry →
  (Z.to_nat (rx + ry) < fuel)%nat →
  let fb' := draw_line_loop fuel fb x y x1 y1 dx dy sx sy err c color in
  fb_shape w h fb' ∧
  (∀ x' y', 0 ≤ x' < w → 0 ≤ y' < h →
     cell fb' x' y' = Some c ∨ cell fb' x' y' = cell fb x' y') ∧
  (∀ x' y', 0 ≤ x' < w → 0 ≤ y' < h → cell fb' x' y' ≠ cell fb x' y' →
     Z.min x x1 ≤ x' ≤ Z.max x x1 ∧ Z.min y y1 ≤ y' ≤ Z.max y y1) ∧
  (0 ≤ x < w → 0 ≤ y < h → cell fb' x y = Some c) ∧
  (0 ≤ x1 < w → 0 ≤ y1 < h → cell fb' x1 y1 = Some c).
Proof.
  revert fb x y err rx ry.
  induction fuel as [|fuel IH]; intros fb x y err rx ry Hs Ht Hf; [lia|].
  simpl.
  pose proof (set_char_shape w h fb x y c color Hs) as Hs1.
  assert (∀ x' y', 0 ≤ x' < w → 0 ≤ y' < h →
            cell (set_char fb x y c color) x' y'
            = if bool_decide (x' = x ∧ y' = y) then Some c else cell fb x' y') as Hset
    by (intros; by apply set_char_cell with w h).
  destruct ((x =? x1) && (y =? y1)) eqn:Hend.
  { apply andb_true_iff in Hend as [->%Z.eqb_eq ->%Z.eqb_eq].
    split_and!; try done.
    - intros x' y' Hx' Hy'. rewrite Hset by done. case_bool_decide; auto.
    - intros x' y' Hx' Hy'. rewrite Hset by done. case_bool_decide; [lia|done].
    - intros Hx Hy. rewrite Hset by done. by rewrite bool_decide_eq_true_2.
    - intros Hx Hy. rewrite Hset by done. by rewrite bool_decide_eq_true_2. }
  destruct Ht as (Hrx & Hry & Hsx & Hsy & Hx & Hy & Herr).
  assert (0 < rx + ry) as Hpos.
  { apply andb_false_iff in Hend. destruct Hend as [Hne%Z.eqb_neq|Hne%Z.eqb_neq]; nia. }
  assert (∀ xn yn errn rxn ryn,
            on_track x1 y1 dx dy sx sy xn yn errn rxn ryn →
            (Z.to_nat (rxn + ryn) < fuel)%nat →
            Z.min x x1 ≤ Z.min xn x1 → Z.max xn x1 ≤ Z.max x x1 →
            Z.min y y1 ≤ Z.min yn y1 → Z.max yn y1 ≤ Z.max y y1 →
            let fb' := draw_line_loop fuel (set_char fb x y c color)
                         xn yn x1 y1 dx dy sx sy errn c color in
            fb_shape w h fb' ∧
            (∀ x' y', 0 ≤ x' < w → 0 ≤ y' < h →
               cell fb' x' y' = Some c ∨ cell fb' x' y' = cell fb x' y') ∧
            (∀ x' y', 0 ≤ x' < w → 0 ≤ y' < h → cell fb' x' y' ≠ cell fb x' y' →
               Z.min x x1 ≤ x' ≤ Z.max x x1 ∧ Z.min y y1 ≤ y' ≤ Z.max y y1) ∧
            (0 ≤ x < w → 0 ≤ y < h → cell fb' x y = Some c) ∧
            (0 ≤ x1 < w → 0 ≤ y1 < h → cell fb' x1 y1 = Some c)) as Hnext.
  { intros xn yn errn rxn ryn Htn Hfn Hx1 Hx2 Hy1 Hy2.
    destruct (IH (set_char fb x y c color) xn yn errn rxn ryn Hs1 Htn Hfn)
      as (Hsh & Hor & Hbox & _ & Hlast).
    split_and!; try done.
    - intros x' y' Hx' Hy'. destruct (Hor x' y' Hx' Hy') as [Hc|Hc]; [by left|].
      rewrite Hc, Hset by done. case_bool_decide; auto.
    - intros x' y' Hx' Hy' Hne.
      destruct (decide (x' = x ∧ y' = y)) as [[-> ->]|Hxy]; [lia|].
      assert (cell (set_char fb x y c color) x' y' = cell fb x' y') as Heq
        by (rewrite Hset by done; by rewrite bool_decide_eq_false_2).
      rewrite <- Heq in Hne. apply Hbox in Hne; [|done|done]. lia.
    - intros Hxb Hyb. destruct (Hor x y Hxb Hyb) as [Hc|Hc]; [done|].
      rewrite Hc, Hset by done. by rewrite bool_decide_eq_true_2. }
  destruct (Z.ltb_spec (- dy) (2 * err)) as [Hxs|Hxs];
    destruct (Z.ltb_spec (2 * err) dx) as [Hys|Hys].
  - assert (0 < rx) by nia. assert (0 < ry) by nia.
    apply (Hnext _ _ _ (rx - 1) (ry - 1)); try nia.
    unfold on_track. split_and!; try done; nia.
  - assert (0 < rx) by nia.
    apply (Hnext _ _ _ (rx - 1) ry); try nia.
    unfold on_track. split_and!; try done; nia.
  - assert (0 < ry) by nia.
    apply (Hnext _ _ _ rx (ry - 1)); try nia.
    unfold on_track. split_and!; try done; nia.
  - exfalso. nia.
Qed.

Lemma draw_line_spec w h fb x0 y0 x1 y1 c color :
  fb_shape w h fb →
  let fb' := draw_line fb x0 y0 x1 y1 c color in
  fb_shape w h fb' ∧
  (∀ x y, 0 ≤ x < w → 0 ≤ y < h → cell fb' x y = Some c ∨ cell fb' x y = cell fb x y) ∧
  (∀ x y, 0 ≤ x < w → 0 ≤ y < h → cell fb' x y ≠ cell fb x y →
     Z.min x0 x1 ≤ x ≤ Z.max x0 x1 ∧ Z.min y0 y1 ≤ y ≤ Z.max y0 y1) ∧
  (0 ≤ x0 < w → 0 ≤ y0 < h → cell fb' x0 y0 = Some c) ∧
  (0 ≤ x1 < w → 0 ≤ y1 < h → cell fb' x1 y1 = Some c).
Proof.
  intros Hs. unfold draw_line.
  apply draw_line_loop_cells with (Z.abs (x1 - x0)) (Z.abs (y1 - y0));
    [done|apply bresenham.on_track_start|lia].
Qed.

(** X11.  [draw_line] paints both end points (those inside the
    framebuffer), writes no character but [char], and changes no cell
    outside the box spanned by the two end points. *)
Theorem draw_line_paints_end_points w h fb x0 y0 x1 y1 c color :
  fb_shape w h fb →
  let fb' := draw_line fb x0 y0 x1 y1 c color in
  (0 ≤ x0 < w → 0 ≤ y0 < h → cell fb' x0 y0 = Some c) ∧
  (0 ≤ x1 < w → 0 ≤ y1 < h → cell fb' x1 y1 = Some c) ∧
  (∀ x y, 0 ≤ x < w → 0 ≤ y < h → cell fb' x y = Some c ∨ cell fb' x y = cell fb x y) ∧
  (∀ x y, 0 ≤ x < w → 0 ≤ y < h → cell fb' x y ≠ cell fb x y →
     Z.min x0 x1 ≤ x ≤ Z.max x0 x1 ∧ Z.min y0 y1 ≤ y ≤ Z.max y0 y1).
Proof.
  intros Hs.
  destruct (draw_line_spec w h fb x0 y0 x1 y1 c color Hs) as (_ & Hor & Hbox & Hfirst & Hlast).
  done.
Qed.

Lemma draw_line_paints_end_points_witness :
  fb_shape 6 5 (render.new 6 5) ∧
  let fb' := draw_line (render.new 6 5) 1 1 4 3 examples.hash 0 in
  (0 ≤ 1 < 6 → 0 ≤ 1 < 5 → cell fb' 1 1 = Some examples.hash) ∧
  (0 ≤ 4 < 6 → 0 ≤ 3 < 5 → cell fb' 4 3 = Some examples.hash) ∧
  (∀ x y, 0 ≤ x < 6 → 0 ≤ y < 5 →
     cell fb' x y = Some examples.hash ∨ cell fb' x y = cell (render.new 6 5) x y) ∧
  (∀ x y, 0 ≤ x < 6 → 0 ≤ y < 5 → cell fb' x y ≠ cell (render.new 6 5) x y →
     Z.min 1 4 ≤ x ≤ Z.max 1 4 ∧ Z.min 1 3 ≤ y ≤ Z.max 1 3).
Proof.
  split; [exact (new_shape 6 5)|].
  exact (draw_line_paints_end_points 6 5 _ 1 1 4 3 examples.hash 0 (new_shape 6 5)).
Defined.

(** *** The outline *)

Lemma draw_poly_outline_spec w h fb points c color :
  fb_shape w h fb →
  fb_shape w h (draw_poly_outline fb points c color) ∧
  (∀ x y, 0 ≤ x < w → 0 ≤ y < h →
     cell (draw_poly_outline fb points c color) x y = Some c ∨
     cell (draw_poly_outline fb points c color) x y = cell fb x y).
Proof.
  revert fb. induction points as [|p0 points IH]; intros fb Hs; [by auto|].
  destruct points as [|p1 points]; [by auto|].
  change (draw_poly_outline fb (p0 :: p1 :: points) c color)
    with (draw_poly_outline (draw_line fb p0.1 p0.2 p1.1 p1.2 c color) (p1 :: points) c color).
  destruct (draw_line_spec w h fb p0.1 p0.2 p1.1 p1.2 c color Hs) as (Hs1 & Hor & _).
  destruct (IH _ Hs1) as [Hs2 Hor2]. split; [done|].
  intros x y Hx Hy. destruct (Hor2 x y Hx Hy) as [Hc|Hc]; [by left|].
  rewrite Hc. by apply Hor.
Qed.

(** X12.  [draw_poly_outline] on two or more points paints every one of
    those points that lies inside the framebuffer, and writes no character
    but [char]. *)
Theorem draw_poly_outline_paints_vertices w h fb points c color :
  fb_shape w h fb → 2 ≤ len points →
  let fb' := draw_poly_outline fb points c color in
  (∀ p, p ∈ points → 0 ≤ p.1 < w → 0 ≤ p.2 < h → cell fb' p.1 p.2 = Some c) ∧
  (∀ x y, 0 ≤ x < w → 0 ≤ y < h → cell fb' x y = Some c ∨ cell fb' x y = cell fb x y).
Proof.
  intros Hs Hlen. split; [|by apply draw_poly_outline_spec].
  revert fb Hs Hlen. induction points as [|p0 points IH]; intros fb Hs Hlen;
    [unfold len in Hlen; simpl in Hlen; lia|].
  destruct points as [|p1 points]; [unfold len in Hlen; simpl in Hlen; lia|].
  change (draw_poly_outline fb (p0 :: p1 :: points) c color)
    with (draw_poly_outline (draw_line fb p0.1 p0.2 p1.1 p1.2 c color) (p1 :: points) c color).
  destruct (draw_line_spec w h fb p0.1 p0.2 p1.1 p1.2 c color Hs)
    as (Hs1 & _ & _ & Hfirst & Hlast).
  destruct (draw_poly_outline_spec w h _ (p1 :: points) c color Hs1) as [_ Hkeep].
  assert (∀ p, (p = p0 ∨ p = p1) → 0 ≤ p.1 < w → 0 ≤ p.2 < h →
            cell (draw_poly_outline (draw_line fb p0.1 p0.2 p1.1 p1.2 c color)
                    (p1 :: points) c color) p.1 p.2 = Some c) as Hends.
  { intros p Hp Hx Hy. destruct (Hkeep p.1 p.2 Hx Hy) as [Hc|Hc]; [done|].
    rewrite Hc. destruct Hp as [->| ->]; auto. }
  intros p Hin Hx Hy. apply elem_of_cons in Hin as [->|Hin]; [by apply Hends; auto|].
  destruct points as [|p2 points].
  - apply list_elem_of_singleton in Hin as ->. apply Hends; auto.
  - apply IH; try done. unfold len. simpl. lia.
Qed.

Lemma draw_poly_outline_paints_vertices_witness :
  fb_shape 6 5 (render.new 6 5) ∧ 2 ≤ len examples.triangle ∧
  let fb' := draw_poly_outline (render.new 6 5) examples.triangle examples.hash 0 in
  (∀ p, p ∈ examples.triangle → 0 ≤ p.1 < 6 → 0 ≤ p.2 < 5 →
     cell fb' p.1 p.2 = Some examples.hash) ∧
  (∀ x y, 0 ≤ x < 6 → 0 ≤ y < 5 →
     cell fb' x y = Some examples.hash ∨ cell fb' x y = cell (render.new 6 5) x y).
Proof.
  assert (2 ≤ len examples.triangle) as Hlen by (vm_compute; congruence).
  split; [exact (new_shape 6 5)|]. split; [exact Hlen|].
  exact (draw_poly_outline_paints_vertices 6 5 _ examples.triangle examples.hash 0
           (new_shape 6 5) Hlen).
Defined.

End lines.

Module hits.
Import mvt_decoder cache props lru.

Lemma lookup_last c k v : k ∉ keys c → lookup (c ++ [(k, v)]) k = Some v.
Proof.
  unfold lookup. induction c as [|[k' v'] c IH]; simpl; intros Hnin.
  - by rewrite bool_decide_eq_true_2.
  - rewrite bool_decide_eq_false_2 by set_solver. apply IH. set_solver.
Qed.

Lemma filter_others_notin c k :
  k ∉ keys c → List.filter (λ e : key * tile, negb (bool_decide (e.1 = k))) c = c.
Proof.
  induction c as [|[k' v'] c IH]; simpl; intros Hnin; [done|].
  rewrite bool_decide_eq_false_2 by set_solver. simpl. f_equal. apply IH. set_solver.
Qed.

Lemma move_to_end_last c k v : k ∉ keys c → move_to_end (c ++ [(k, v)]) k = c ++ [(k, v)].
Proof.
  intros Hnin. unfold move_to_end. rewrite lookup_last by done.
  rewrite List.filter_app, filter_others_notin by done. simpl.
  rewrite bool_decide_eq_true_2 by done. simpl. by rewrite app_nil_r.
Qed.

Lemma contains_last c k v : contains (c ++ [(k, v)]) k = true.
Proof.
  rewrite contains_keys. apply bool_decide_eq_true. unfold keys.
  rewrite map_app. set_solver.
Qed.

Lemma setitem_new c k v : k ∉ keys c → setitem c k v = c ++ [(k, v)].
Proof.
  induction c as [|[k' v'] c IH]; simpl; intros Hnin; [done|].
  rewrite bool_decide_eq_false_2 by set_solver. f_equal. apply IH. set_solver.
Qed.

Lemma others_notin c k :
  k ∉ keys (List.filter (λ e : key * tile, negb (bool_decide (e.1 = k))) c).
Proof. rewrite keys_filter_ne. intros [Hne _]%list_elem_of_filter. by apply Hne. Qed.

Section WithHost.
Context {H : Host}.

(** After a call, the key is the last entry of the cache and holds the
    tile that was returned. *)
Lemma get_decoded_tile_last st z x y :
  ∃ c, _tile_cache (get_decoded_tile st z x y).2
       = c ++ [((z, x, y), (get_decoded_tile st z x y).1)] ∧
       (z, x, y) ∉ keys c.
Proof.
  unfold get_decoded_tile. set (k := (z, x, y)).
  destruct (contains (_tile_cache st) k) eqn:Hc; rewrite contains_keys in Hc.
  - apply bool_decide_eq_true in Hc.
    destruct (lookup_is_Some _ _ Hc) as [v Hv]. simpl.
    unfold move_to_end. rewrite Hv.
    eexists. split; [|apply (others_notin (_tile_cache st) k)].
    by rewrite lookup_last by apply others_notin.
  - apply bool_decide_eq_false in Hc.
    destruct (fetch_tile _ _) as [raw w]. simpl.
    match goal with |- context [_cache_put _ _ ?d] => generalize d; intros decoded end.
    unfold _cache_put. rewrite setitem_new, move_to_end_last by done.
    destruct (MAX_TILE_CACHE <? len _) eqn:Hfull; [|by exists (_tile_cache st)].
    apply Z.ltb_lt in Hfull.
    destruct (_tile_cache st) as [|e c] eqn:Hst.
    { unfold len, MAX_TILE_CACHE in Hfull. simpl in Hfull. lia. }
    exists c. split; [done|]. unfold keys in *. set_solver.
Qed.

(** X13.  Asking [get_decoded_tile] for the key it has just been asked
    for is a hit that changes nothing: the same tile comes back, the cache
    is as it was, and the fetch port is not called. *)
Theorem repeated_request_is_a_hit st z x y :
  let r := get_decoded_tile st z x y in
  get_decoded_tile r.2 z x y = r.
Proof.
  destruct (get_decoded_tile_last st z x y) as (c & Hc & Hnin).
  destruct (get_decoded_tile st z x y) as [t [c1 w1]]. simpl in *. subst c1.
  unfold get_decoded_tile. simpl.
  rewrite contains_last, move_to_end_last, lookup_last by done. done.
Qed.

End WithHost.
End hits.

Module labels.
Import mvt_decoder render cache view ascii_map props.

(** *** Simplifying a line *)

Lemma last_default {A} (l : list A) d : l ≠ [] → last l = Some (List.last l d).
Proof.
  induction l as [|x [|y l] IH]; intros Hne; [done|done|].
  change (last (x :: y :: l)) with (last (y :: l)).
  change (List.last (x :: y :: l) d) with (List.last (y :: l) d). by apply IH.
Qed.

Lemma stride_elem_of {A} (l : list A) skip step p : p ∈ stride l skip step → p ∈ l.
Proof.
  revert skip. induction l as [|x l IH]; intros skip; simpl; [done|].
  destruct skip as [|skip].
  - intros [->|Hin]%elem_of_cons; [left|right; by eapply IH].
  - intros Hin. right. by eapply IH.
Qed.

(** X14.  [simplify_points] returns the points unchanged below zoom 14
    or for at most 220 points; otherwise it returns a selection of them
    that still starts with the first point and ends with the last one. *)
Theorem simplify_points_keeps_ends zoom points s :
  simplify_points zoom points = Ok s →
  head s = head points ∧ last s = last points ∧ (∀ p, p ∈ s → p ∈ points) ∧
  (zoom < GEOM_SIMPLIFY_ZOOM ∨ len points ≤ MAX_GEOM_POINTS → s = points).
Proof.
  unfold simplify_points.
  destruct (Z.ltb_spec zoom GEOM_SIMPLIFY_ZOOM) as [Hz|Hz]; simpl;
    [by intros [= <-]|].
  destruct (Z.leb_spec (len points) MAX_GEOM_POINTS) as [Hn|Hn]; [by intros [= <-]|].
  intros Hrun.
  apply shape.bind_Ok in Hrun as (q & _ & Hrun).
  apply shape.bind_Ok in Hrun as (c & _ & Hrun).
  destruct points as [|p0 pts]; [unfold len, MAX_GEOM_POINTS in Hn; simpl in Hn; lia|].
  assert (∀ (sampled : list point) x s, sampled ≠ [] →
            (if bool_decide (List.last sampled (0, 0) ≠ x)
             then Ok (sampled ++ [x]) else Ok sampled) = Ok s →
            head s = head sampled ∧ last s = Some x ∧
            ∀ p, p ∈ s → p ∈ sampled ∨ p = x) as Haux.
  { intros sampled x s' Hne.
    destruct (decide (List.last sampled (0, 0) ≠ x)) as [Hlast|Hlast];
      [rewrite bool_decide_eq_true_2 by done|rewrite bool_decide_eq_false_2 by done];
      intros Heq; injection Heq as <-.
    - split_and!.
      + by destruct sampled.
      + apply last_snoc.
      + intros p [Hin|Hin%list_elem_of_singleton]%elem_of_app; auto.
    - apply dec_stable in Hlast. split_and!; [done| |auto].
      by rewrite (last_default sampled (0, 0)), Hlast. }
  apply Haux in Hrun as (Hhead & Hlast & Hsub); [|done].
  assert (last (p0 :: pts) = Some (List.last (p0 :: pts) (0, 0))) as Hl
    by (by apply last_default).
  split_and!; [done|by rewrite Hl| |lia].
  intros p [Hin| ->]%Hsub.
  - apply elem_of_cons in Hin as [->|Hin]; [left|right; by eapply stride_elem_of].
  - apply last_Some_elem_of. done.
Qed.

Lemma simplify_points_keeps_ends_witness :
  simplify_points 14 (map (λ i, (Z.of_nat i, 0)) (seq 0 300))
    = Ok (map (λ i, (2 * Z.of_nat i, 0)) (seq 0 150) ++ [(299, 0)]) ∧
  head (map (λ i, (2 * Z.of_nat i, 0)) (seq 0 150) ++ [(299, 0)])
    = head (map (λ i, (Z.of_nat i, 0)) (seq 0 300)) ∧
  last (map (λ i, (2 * Z.of_nat i, 0)) (seq 0 150) ++ [(299, 0)])
    = last (map (λ i, (Z.of_nat i, 0)) (seq 0 300)) ∧
  (∀ p, p ∈ map (λ i, (2 * Z.of_nat i, 0)) (seq 0 150) ++ [(299, 0)] →
        p ∈ map (λ i, (Z.of_nat i, 0)) (seq 0 300)) ∧
  (14 < GEOM_SIMPLIFY_ZOOM ∨ len (map (λ i, (Z.of_nat i, 0)) (seq 0 300)) ≤ MAX_GEOM_POINTS →
   map (λ i, (2 * Z.of_nat i, 0)) (seq 0 150) ++ [(299, 0)]
   = map (λ i, (Z.of_nat i, 0)) (seq 0 300)).
Proof.
  assert (simplify_points 14 (map (λ i, (Z.of_nat i, 0)) (seq 0 300))
          = Ok (map (λ i, (2 * Z.of_nat i, 0)) (seq 0 150) ++ [(299, 0)])) as Hrun
    by (vm_compute; reflexivity).
  split; [exact Hrun|].
  exact (simplify_points_keeps_ends _ _ _ Hrun).
Defined.

(** *** Label text *)

Section WithHost.
Context {H : Host}.

Lemma normalize_label_text_spec raw :
  len (normalize_label_text raw) ≤ MAX_LABEL_LEN ∧
  Forall (λ ch, (ch < 128)%N) (normalize_label_text raw).
Proof.
  assert (∀ s, Forall (λ ch, (ch < 128)%N) (ascii_only s)) as Hascii.
  { intros s. unfold ascii_only. apply Forall_forall. intros c Hin.
    apply list_elem_of_In, filter_In in Hin as [_ Hc]. by apply N.ltb_lt. }
  assert (∀ text : str, Forall (λ ch, (ch < 128)%N) text →
            len (if is_empty text then []
                 else if MAX_LABEL_LEN <? len text
                      then take (Z.to_nat (MAX_LABEL_LEN - 3)) text ++ lit "..."
                      else text) ≤ MAX_LABEL_LEN ∧
            Forall (λ ch, (ch < 128)%N)
              (if is_empty text then []
               else if MAX_LABEL_LEN <? len text
                    then take (Z.to_nat (MAX_LABEL_LEN - 3)) text ++ lit "..."
                    else text)) as Hcut.
  { intros text Ht. destruct (is_empty text); [by split|].
    destruct (Z.ltb_spec MAX_LABEL_LEN (len text)) as [Hlong|Hshort]; [|done].
    split.
    - unfold len, MAX_LABEL_LEN in *. rewrite length_app, length_take.
      change (Z.to_nat (26 - 3)) with 23%nat. change (length (lit "...")) with 3%nat. lia.
    - apply Forall_app. split; [by apply Forall_take|].
      repeat constructor. }
  unfold normalize_label_text. destruct raw; try (by split); apply Hcut, Hascii.
Qed.


(** *** Label candidates *)

Lemma priority_range k : 0 ≤ dict_get ROAD_LABEL_PRIORITY k 0 ≤ 6.
Proof.
  destruct k as [| | | |s|]; simpl; try lia.
  repeat (case_bool_decide; simpl; [lia|]). lia.
Qed.

Lemma collect_lines_spec zoom width height tl_wx tl_wy ca tx ty extent priority
    text lines out r :
  0 ≤ priority ≤ 6 → text ≠ [] → len text ≤ MAX_LABEL_LEN →
  Forall (λ ch, (ch < 128)%N) text →
  collect_lines zoom width height tl_wx tl_wy ca tx ty extent priority text lines out
    = Ok r →
  ∃ new, step_out r = out ++ new ∧ Forall (candidate_ok width height) new ∧
    match r with
    | Continue _ => new = [] ∨ len (out ++ new) < MAX_LABEL_CANDIDATES
    | Break _ => len (out ++ new) ≤ Z.max MAX_LABEL_CANDIDATES (len out + 1)
    end.
Proof.
  intros Hp Hne Hlen Hascii. revert out r.
  induction lines as [|line lines IH]; intros out r; simpl.
  - intros [= <-]. exists []. rewrite app_nil_r. auto.
  - destruct (len line <? 2); [by apply IH|].
    destruct (simplify_points zoom line) as [simplified|]; simpl; [|done].
    destruct (is_empty _); [by apply IH|].
    destruct (tile_point_to_screen _ _ _ _ _ _ _) as [[sx sy]|]; simpl; [|done].
    destruct (Z.ltb_spec sx 0), (Z.leb_spec width sx), (Z.ltb_spec sy 0),
      (Z.leb_spec height sy); simpl; try by apply IH.
    assert (candidate_ok width height (priority, sy, sx, text)) as Hok
      by (unfold candidate_ok; split_and!; done || lia).
    assert (len (out ++ [(priority, sy, sx, text)]) = len out + 1) as Hl
      by (unfold len; rewrite length_app; simpl; lia).
    destruct (MAX_LABEL_CANDIDATES <=? _) eqn:Hfull;
      [apply Z.leb_le in Hfull|apply Z.leb_gt in Hfull; rename Hfull into Hroom].
    + intros [= <-]. exists [(priority, sy, sx, text)]. simpl.
      split_and!; [done|by apply Forall_singleton|lia].
    + intros Hrun. apply IH in Hrun as (new & Hout & Hnew & Hbound).
      exists ((priority, sy, sx, text) :: new).
      rewrite <- (assoc (++)) in Hout. simpl in Hout.
      split_and!; [done|by constructor|].
      clear IH. destruct r; [destruct Hbound as [->|Hbound]; right|];
        unfold len, candidate, str in *; rewrite ?length_app in *; simpl length in *; lia.
Qed.

Lemma collect_features_spec zoom width height tl_wx tl_wy ca tx ty extent
    features out r :
  collect_features zoom width height tl_wx tl_wy ca tx ty extent features out = Ok r →
  ∃ new, step_out r = out ++ new ∧ Forall (candidate_ok width height) new ∧
    match r with
    | Continue _ => new = [] ∨ len (out ++ new) < MAX_LABEL_CANDIDATES
    | Break _ => len (out ++ new) ≤ Z.max MAX_LABEL_CANDIDATES (len out + 1)
    end.
Proof.
  revert out r. induction features as [|feature features IH]; intros out r; simpl.
  - intros [= <-]. exists []. rewrite app_nil_r. auto.
  - destruct (negb _); [by apply IH|].
    destruct (is_empty _) eqn:Hempty; [by apply IH|].
    destruct (lines_of _); [|by apply IH].
    destruct (collect_lines _ _ _ _ _ _ _ _ _ _ _ _ _) as [r1|] eqn:Hl; simpl; [|done].
    apply collect_lines_spec in Hl as (new1 & Hout1 & Hnew1 & Hb1);
      [|apply priority_range|by intros Heq; rewrite Heq in Hempty
       |apply normalize_label_text_spec|apply normalize_label_text_spec].
    destruct r1 as [out1|out1]; simpl in Hout1; subst out1.
    + intros Hrun. apply IH in Hrun as (new2 & Hout2 & Hnew2 & Hb2).
      exists (new1 ++ new2). rewrite (assoc (++)).
      split_and!; [done|by apply Forall_app|].
      clear IH.
      destruct r;
        [destruct Hb2 as [->|Hb2]; [destruct Hb1 as [->|Hb1]; [by left|right]|right]
        |destruct Hb1 as [->|Hb1]];
        unfold len, candidate, str in *; rewrite ?length_app in *; simpl length in *; lia.
    + intros [= <-]. exists new1. done.
Qed.

(** X16.  [collect_street_label_candidates] only appends to the list it
    is given.  Every candidate it appends lies on the screen, carries a
    priority between 0 and 6 and a non-empty ASCII text of at most 26
    characters.  It stops at 600 candidates -- but a list that already
    holds 600 or more still grows by one -- and appends nothing below
    zoom 13. *)
Theorem label_candidates_on_screen zoom width height tl_wx tl_wy ca tx ty
    tile_data out out' :
  collect_street_label_candidates zoom width height tl_wx tl_wy ca tx ty tile_data out
    = Ok out' →
  ∃ new, out' = out ++ new ∧ Forall (candidate_ok width height) new ∧
         len out' ≤ Z.max MAX_LABEL_CANDIDATES (len out + 1) ∧
         (zoom < LABEL_MIN_ZOOM → new = []).
Proof.
  unfold collect_street_label_candidates.
  assert (∃ new, out = out ++ new ∧ Forall (candidate_ok width height) new ∧
            len out ≤ Z.max MAX_LABEL_CANDIDATES (len out + 1) ∧
            (zoom < LABEL_MIN_ZOOM → new = [])) as Hsame
    by (exists []; rewrite app_nil_r; split_and!; auto; lia).
  destruct (Z.ltb_spec zoom LABEL_MIN_ZOOM) as [Hz|Hz]; [by intros [= <-]|].
  destruct (tile_data !! _) as [layer|]; [|by intros [= <-]].
  destruct (_ =? 0); [by intros [= <-]|].
  destruct (collect_features _ _ _ _ _ _ _ _ _ _ _) as [r|] eqn:Hf; simpl; [|done].
  apply collect_features_spec in Hf as (new & Hout & Hnew & Hb). intros [= <-].
  exists new. split_and!; [by destruct r|done| |lia].
  destruct r; simpl in Hout; rewrite Hout; [|done].
  destruct Hb as [->|Hb]; [rewrite app_nil_r|]; lia.
Qed.

End WithHost.

Lemma label_candidates_on_screen_witness :
  collect_street_label_candidates (H := examples.offline_host) 13 30 12 zero zero one 0 0
    examples.named_street_tile [] = Ok [(5, 1, 1, lit "Main St")] ∧
  ∃ new, [(5, 1, 1, lit "Main St")] = [] ++ new ∧ Forall (candidate_ok 30 12) new ∧
         len [(5, 1, 1, lit "Main St")] ≤ Z.max MAX_LABEL_CANDIDATES (len ([] : list candidate) + 1) ∧
         (13 < LABEL_MIN_ZOOM → new = []).
Proof.
  assert (collect_street_label_candidates (H := examples.offline_host) 13 30 12 zero zero one 0 0
            examples.named_street_tile [] = Ok [(5, 1, 1, lit "Main St")]) as Hrun
    by (vm_compute; reflexivity).
  split; [exact Hrun|].
  exact (label_candidates_on_screen (H := examples.offline_host) _ _ _ _ _ _ _ _ _ _ _ Hrun).
Defined.

End labels.

Module kinds.
Import mvt_decoder props.

(** The rings of the commands, as [_decode_geometry] holds them before it
    selects on the geometry type. *)
Lemma rings_of_spec geom_data extent y_coord_down rings :
  rings_of geom_data extent y_coord_down = Ok rings →
  ∃ commands,
    _decode_packed_uint32 geom_data = Ok commands ∧
    let st := _decode_geometry_loop (length commands) commands
                (mk_geom_state 0 0 0 [] []) in
    let rings0 := if is_empty (g_current_ring st) then g_rings st
                  else g_rings st ++ [g_current_ring st] in
    rings = if y_coord_down then rings0
            else map (map (λ p : point, (p.1, extent - p.2))) rings0.
Proof.
  unfold rings_of, _decode_geometry.
  destruct (_decode_packed_uint32 geom_data) as [commands|]; [|done]. simpl.
  intros Hr. exists commands. split; [done|]. simpl.
  match goal with |- _ = ?r => generalize dependent r end.
  intros rings0 Hr.
  destruct rings0 as [|r [|r' rings0]]; simpl in Hr; by injection Hr as <-.
Qed.

(** X17.  For the geometry type 1 [_decode_geometry] returns the points of
    all the rings that the same commands give as lines, in order, in one
    list: a [Point] when there is exactly one, a [MultiPoint] otherwise --
    also for no point at all. *)
Theorem point_geometry_joins_rings geom_data extent y_coord_down rings :
  rings_of geom_data extent y_coord_down = Ok rings →
  _decode_geometry geom_data _GEOM_POINT extent y_coord_down
  = Ok (match concat rings with [p] => Point p | points => MultiPoint points end).
Proof.
  intros (commands & Hc & ->)%rings_of_spec.
  unfold _decode_geometry. rewrite Hc. simpl.
  by destruct (concat _) as [|p [|q points]].
Qed.

Lemma point_geometry_joins_rings_witness :
  rings_of (examples.B examples.two_holes_outer) 4096 true
    = Ok [examples.inner_square; examples.second_hole; examples.outer_square] ∧
  _decode_geometry (examples.B examples.two_holes_outer) _GEOM_POINT 4096 true
  = Ok (match concat [examples.inner_square; examples.second_hole; examples.outer_square]
        with [p] => Point p | points => MultiPoint points end).
Proof.
  assert (rings_of (examples.B examples.two_holes_outer) 4096 true
          = Ok [examples.inner_square; examples.second_hole; examples.outer_square])
    as Hrings by (vm_compute; reflexivity).
  split; [exact Hrings|].
  exact (point_geometry_joins_rings _ _ _ _ Hrings).
Defined.

(** X18.  A geometry type other than 1, 2 and 3 gives [Unknown] whenever
    the commands decode: they are read all the same, and a truncated
    command list still raises. *)
Theorem other_geometry_type_is_unknown geom_data geom_type extent y_coord_down :
  geom_type ≠ _GEOM_POINT → geom_type ≠ _GEOM_LINESTRING → geom_type ≠ _GEOM_POLYGON →
  _decode_geometry geom_data geom_type extent y_coord_down
  = (_ ← _decode_packed_uint32 geom_data; Ok Unknown).
Proof.
  intros H1 H2 H3. unfold _decode_geometry.
  destruct (_decode_packed_uint32 geom_data) as [commands|]; [|done]. simpl.
  rewrite (proj2 (Z.eqb_neq _ _) H1), (proj2 (Z.eqb_neq _ _) H2),
    (proj2 (Z.eqb_neq _ _) H3). done.
Qed.

Lemma other_geometry_type_is_unknown_witness :
  0 ≠ _GEOM_POINT ∧ 0 ≠ _GEOM_LINESTRING ∧ 0 ≠ _GEOM_POLYGON ∧
  _decode_geometry (examples.B examples.two_holes_outer) 0 4096 true
  = (_ ← _decode_packed_uint32 (examples.B examples.two_holes_outer); Ok Unknown).
Proof.
  assert (0 ≠ _GEOM_POINT) as H1 by (vm_compute; discriminate).
  assert (0 ≠ _GEOM_LINESTRING) as H2 by (vm_compute; discriminate).
  assert (0 ≠ _GEOM_POLYGON) as H3 by (vm_compute; discriminate).
  split; [exact H1|]. split; [exact H2|]. split; [exact H3|].
  exact (other_geometry_type_is_unknown _ 0 4096 true H1 H2 H3).
Defined.

(** X19.  With [y_coord_down] false every point [(x, y)] comes out as
    [(x, extent - y)]; nothing else changes: the rings, their order and
    their lengths are those of the Y-down decoding. *)
Theorem y_up_flips_every_point geom_data extent rings :
  rings_of geom_data extent true = Ok rings →
  rings_of geom_data extent false
  = Ok (map (map (λ p : point, (p.1, extent - p.2))) rings).
Proof.
  intros (commands & Hc & ->)%rings_of_spec.
  unfold rings_of, _decode_geometry. rewrite Hc. simpl.
  match goal with |- context [map _ ?r] => generalize r end.
  intros rings0. by destruct rings0 as [|r [|r' rings0]].
Qed.

Lemma y_up_flips_every_point_witness :
  rings_of (examples.B examples.two_holes_outer) 4096 true
    = Ok [examples.inner_square; examples.second_hole; examples.outer_square] ∧
  rings_of (examples.B examples.two_holes_outer) 4096 false
  = Ok (map (map (λ p : point, (p.1, 4096 - p.2)))
          [examples.inner_square; examples.second_hole; examples.outer_square]).
Proof.
  assert (rings_of (examples.B examples.two_holes_outer) 4096 true
          = Ok [examples.inner_square; examples.second_hole; examples.outer_square])
    as Hrings by (vm_compute; reflexivity).
  split; [exact Hrings|].
  exact (y_up_flips_every_point _ _ _ Hrings).
Defined.

End kinds.

Module marker.
Import mvt_decoder render cache view ascii_map props raster shape lines.

Section WithHost.
Context {H : Host}.

(** X20.  Whatever was drawn, the text [render_ascii] returns shows the
    center marker [@] in the middle: at column [width // 2] of the line
    [height // 2]. *)
Theorem center_marker_in_the_middle st lat lon zoom width height cell_aspect
    show_street_names r st' :
  render_ascii st lat lon zoom width height cell_aspect show_street_names = Ok (r, st') →
  ∃ line, text_lines (rr_text r) !! Z.to_nat (rr_height r / 2) = Some line ∧
          line !! Z.to_nat (rr_width r / 2) = Some 64%N.
Proof.
  intros (Hw & Hh & fb & [Hs _] & Hlines)%render_ascii_rows.
  rewrite Hlines, Hw, Hh.
  set (w := Z.max 20 (Z.min width 320)) in *.
  set (h := Z.max 10 (Z.min height 140)) in *.
  assert (0 ≤ w / 2 < w) as Hx by (split; [apply Z.div_pos|apply Z.div_lt_upper_bound]; lia).
  assert (0 ≤ h / 2 < h) as Hy by (split; [apply Z.div_pos|apply Z.div_lt_upper_bound]; lia).
  pose proof (set_char_cell w h fb (w / 2) (h / 2) GLYPH_CENTER 0 _ _ Hs Hx Hy) as Hc.
  rewrite bool_decide_eq_true_2 in Hc by done. unfold cell in Hc.
  match type of Hc with (?o ≫= _) = _ => destruct o as [line|] eqn:Hl end;
    simpl in Hc; [|done].
  exists line. split; [exact Hl|exact Hc].
Qed.

End WithHost.

Lemma center_marker_in_the_middle_witness :
  render_ascii (H := examples.water_host) examples.water_store zero zero 13 30 12
               (literal 6 1) false
    = Ok (examples.water_result.1, examples.water_result.2) ∧
  ∃ line, text_lines (rr_text examples.water_result.1)
            !! Z.to_nat (rr_height examples.water_result.1 / 2) = Some line ∧
          line !! Z.to_nat (rr_width examples.water_result.1 / 2) = Some 64%N.
Proof.
  assert (render_ascii (H := examples.water_host) examples.water_store zero zero 13 30 12
                       (literal 6 1) false
          = Ok (examples.water_result.1, examples.water_result.2)) as Hrun
    by (vm_compute; reflexivity).
  split; [exact Hrun|].
  exact (center_marker_in_the_middle _ _ _ _ _ _ _ _ _ _ Hrun).
Defined.

End marker.

Module offline.
Import mvt_decoder render cache view ascii_map props raster shape lines.

Lemma lookup_all_empty (c : tile_cache) k :
  Forall (λ e : key * tile, e.2 = ∅) c → default ∅ (lookup c k) = ∅.
Proof.
  unfold lookup. induction c as [|e c IH]; intros Hall; simpl; [done|].
  apply Forall_cons in Hall as [He Hall].
  destruct (bool_decide _); simpl; [done|by apply IH].
Qed.

Lemma setitem_all_empty (c : tile_cache) k :
  Forall (λ e : key * tile, e.2 = ∅) c →
  Forall (λ e : key * tile, e.2 = ∅) (setitem c k ∅).
Proof.
  induction c as [|e c IH]; intros Hall; simpl; [by repeat constructor|].
  apply Forall_cons in Hall as [He Hall].
  destruct (bool_decide _); apply Forall_cons; split; try done. by apply IH.
Qed.

Lemma move_to_end_all_empty (c : tile_cache) k :
  Forall (λ e : key * tile, e.2 = ∅) c →
  Forall (λ e : key * tile, e.2 = ∅) (move_to_end c k).
Proof.
  intros Hall. unfold move_to_end.
  pose proof (lookup_all_empty c k Hall) as Hk.
  destruct (lookup c k) as [v|]; [|done]. simpl in Hk. subst v.
  apply Forall_app. split; [|by repeat constructor].
  apply Forall_forall. intros e He%list_elem_of_In%filter_In.
  rewrite Forall_forall in Hall. apply Hall, list_elem_of_In, He.
Qed.

Section WithHost.
Context {H : Host}.
Hypothesis Hoffline : ∀ w k, (fetch_tile w k).1 = None.

Lemma get_decoded_tile_offline st z x y :
  all_empty st →
  (get_decoded_tile st z x y).1 = ∅ ∧ all_empty (get_decoded_tile st z x y).2.
Proof.
  unfold all_empty, get_decoded_tile. intros Hall.
  destruct (contains _ _); simpl.
  - split; [|by apply move_to_end_all_empty].
    by apply lookup_all_empty, move_to_end_all_empty.
  - pose proof (Hoffline (the_world st) (z, x, y)) as Hnone.
    destruct (fetch_tile _ _) as [raw w]. simpl in Hnone. subst raw. simpl.
    split; [done|]. unfold _cache_put.
    assert (Forall (λ e : key * tile, e.2 = ∅)
              (move_to_end (setitem (_tile_cache st) (z, x, y) ∅) (z, x, y))) as Hput
      by (by apply move_to_end_all_empty, setitem_all_empty).
    destruct (_ <? _); [|done]. unfold popitem_first.
    destruct (move_to_end _ _); [done|]. by apply Forall_cons in Hput as [_ ?].
Qed.

(** X21.  When the fetch port has no tile to give and the cache holds
    empty tiles only, the text [render_ascii] returns -- with or without
    street names -- is blank but for the center marker: every character is
    a space, except the [@] at column [width // 2] of line
    [height // 2]. *)
Theorem offline_render_is_blank st lat lon zoom width height cell_aspect
    (show_street_names : bool) r st' :
  all_empty st →
  render_ascii st lat lon zoom width height cell_aspect show_street_names = Ok (r, st') →
  ∀ (x y : nat) line c,
    text_lines (rr_text r) !! y = Some line → line !! x = Some c →
    c = if bool_decide (Z.of_nat x = rr_width r / 2 ∧ Z.of_nat y = rr_height r / 2)
        then 64%N else 32%N.
Proof.
  intros Hst Hrun.
  set (w := Z.max 20 (Z.min width 320)).
  set (h := Z.max 10 (Z.min height 140)).
  destruct (render_ascii_rows_inv
              (λ rs, rs_fb rs = render.new w h ∧
                     (rs_candidates rs = None ∨ rs_candidates rs = Some []) ∧
                     all_empty (rs_store rs))
              st lat lon zoom width height cell_aspect show_street_names r st')
    as (Hw & Hh & rs & (Hfb & Hcand & _) & _ & Hlines); [| |exact Hrun|].
  { simpl. split_and!; [done| |done]. destruct show_street_names; auto. }
  { intros zoom0 tl_wx tl_wy ca world_tiles tx ty s s' (Hfb & Hcand & Hall).
    unfold render_tile. destruct (_ || _); [by intros [= <-]|].
    destruct (get_decoded_tile_offline (rs_store s) zoom0 (tx mod world_tiles) ty Hall)
      as [Hempty Hall'].
    destruct (get_decoded_tile _ _ _ _) as [tile_data store]. simpl in *.
    rewrite bool_decide_eq_true_2 by done. by intros [= <-]. }
  fold w h in Hw, Hh, Hlines. rewrite Hw, Hh, Hlines.
  assert (match rs_candidates rs with
          | Some candidates => draw_street_labels w h (rs_fb rs) candidates
          | None => rs_fb rs
          end = render.new w h) as ->.
  { rewrite Hfb. by destruct Hcand as [->| ->]. }
  intros x y line c Hline Hc.
  pose proof (set_char_shape w h _ (w / 2) (h / 2) GLYPH_CENTER 0 (new_shape w h))
    as (_ & _ & [Hlen Hrows] & _).
  assert (y < Z.to_nat h)%nat as Hy.
  { rewrite <- Hlen. by eapply lookup_lt_Some. }
  assert (x < Z.to_nat w)%nat as Hx.
  { rewrite Forall_forall in Hrows. rewrite <- (Hrows line).
    - by eapply lookup_lt_Some.
    - by eapply list_elem_of_lookup_2. }
  pose proof (set_char_cell w h (render.new w h) (w / 2) (h / 2) GLYPH_CENTER 0
                (Z.of_nat x) (Z.of_nat y) (new_shape w h) ltac:(lia) ltac:(lia)) as Hcell.
  unfold cell in Hcell. rewrite !Nat2Z.id in Hcell.
  unfold str, char in *. rewrite Hline in Hcell. simpl in Hcell. rewrite Hc in Hcell.
  destruct (bool_decide _); [by injection Hcell as ->|].
  unfold render.new in Hcell. simpl in Hcell.
  rewrite lookup_replicate_2 in Hcell by done. simpl in Hcell.
  rewrite lookup_replicate_2 in Hcell by done. by injection Hcell as ->.
Qed.

End WithHost.

Lemma offline_render_is_blank_witness :
  (∀ w k, (fetch_tile (Host := examples.offline_host) w k).1 = None) ∧
  all_empty examples.empty_store ∧
  render_ascii (H := examples.offline_host) examples.empty_store zero zero 13 30 12
               (literal 6 1) true
    = Ok (examples.blank_result.1, examples.blank_result.2) ∧
  ∀ (x y : nat) line c,
    text_lines (rr_text examples.blank_result.1) !! y = Some line → line !! x = Some c →
    c = if bool_decide (Z.of_nat x = rr_width examples.blank_result.1 / 2 ∧
                        Z.of_nat y = rr_height examples.blank_result.1 / 2)
        then 64%N else 32%N.
Proof.
  assert (∀ w k, (fetch_tile (Host := examples.offline_host) w k).1 = None) as Hoff
    by reflexivity.
  assert (all_empty examples.empty_store) as Hst by apply Forall_nil_2.
  assert (render_ascii (H := examples.offline_host) examples.empty_store zero zero 13 30 12
                       (literal 6 1) true
          = Ok (examples.blank_result.1, examples.blank_result.2)) as Hrun
    by (vm_compute; reflexivity).
  split; [exact Hoff|]. split; [exact Hst|]. split; [exact Hrun|].
  exact (offline_render_is_blank (H := examples.offline_host) Hoff _ _ _ _ _ _ _ _ _ _
           Hst Hrun).
Defined.

End offline.

